(** * GqX backend: request orchestration and retrieval augmentation

    A shallow embedding of the Python backend ([providers.py],
    [vector_store.py], [rag_indexer.py], [auth.py], [main.py]) and the
    properties of its orchestration pipeline.

    Conventions of the embedding.
    - A Python [str] is a [string], one character standing for one code
      point.  A header value reaches its handler decoded as Latin-1, so
      its code points are below 256, and white space is that of
      [str.isspace] on these; case is interpreted on the ASCII letters; the
      other characters are carried through unchanged.
    - JSON-like request data (the [messages] list of a chat request) is a
      [pyval]; a Python [dict] read only through [get] and [[]] is an
      association list searched from the front.
    - Code that may raise returns a [result]; code that also touches the
      counter store or calls a collaborator runs in the monad [M], which
      threads a [world] and keeps the effects made before an exception.
    - The collaborators reached over the network or through third-party
      packages (the generation endpoint, the embedding index, the counter
      store's server, the digest and the builtin [int]) appear as fields of
      the process and of the world: what they answer is an input of the
      model, what the backend does with the answer is translated from the
      source.
    - The file-based tenant store of [auth.py] is the one modelled; a
      request records the calls it makes to its collaborators in the
      [trace] of the world. *)

From Stdlib Require Import ZArith Ascii String List Lia Bool DecimalString.
From Stdlib Require DecimalPos DecimalZ.
From stdpp Require Import base option list strings gmap.

Local Open Scope Z_scope.
Local Set Warnings "-register-all".

(* ===================================================================== *)
(** * Python values, truthiness and exceptions *)
(* ===================================================================== *)

(** The values of request data; numbers are integers. *)
Inductive pyval : Type :=
| PNone
| PBool (b : bool)
| PInt (z : Z)
| PStr (s : string)
| PList (l : list pyval)
| PDict (d : list (string * pyval)).

(** The exceptions the modelled code raises or lets through. *)
Inductive exc : Type :=
| HTTPException (status_code : Z) (detail : string)
| AttributeError
| IndexError
| KeyError (key : string)
| TypeError
| ValueError
| UnboundLocalError (name : string)
| RuntimeError (msg : string)
| ConnectionError.

Inductive result (A : Type) : Type :=
| Ok (a : A)
| Raise (e : exc).
Arguments Ok {A} a.
Arguments Raise {A} e.

Definition result_bind {A B} (r : result A) (k : A -> result B) : result B :=
  match r with
  | Ok a => k a
  | Raise e => Raise e
  end.

Definition is_Ok {A} (r : result A) : bool :=
  match r with Ok _ => true | Raise _ => false end.

(** [bool(s)] for a string: the empty string is falsy. *)
Definition str_truthy (s : string) : bool :=
  match s with EmptyString => false | String _ _ => true end.

(** [bool(o)] for a value that is [None] or a string. *)
Definition opt_truthy (o : option string) : bool :=
  match o with Some s => str_truthy s | None => false end.

(** [bool(v)]. *)
Definition truthy (v : pyval) : bool :=
  match v with
  | PNone => false
  | PBool b => b
  | PInt z => negb (z =? 0)
  | PStr s => str_truthy s
  | PList l => match l with [] => false | _ :: _ => true end
  | PDict d => match d with [] => false | _ :: _ => true end
  end.

(** [a or b] on values that are [None] or a string. *)
Definition opt_or (a b : option string) : option string :=
  if opt_truthy a then a else b.

(** [d.get(k)] on a dict: [None] when the key is absent. *)
Fixpoint dict_get (d : list (string * pyval)) (k : string) : option pyval :=
  match d with
  | [] => None
  | (k', v) :: d' => if String.eqb k' k then Some v else dict_get d' k
  end.

(** [m.get(k)] as the source writes it: a missing key reads as [None]. *)
Definition py_get (d : list (string * pyval)) (k : string) : pyval :=
  match dict_get d k with Some v => v | None => PNone end.

(** [v == 'literal'] for a string literal. *)
Definition eq_str (v : pyval) (lit : string) : bool :=
  match v with PStr s => String.eqb s lit | _ => false end.

(** [l[-1]]. *)
Definition py_last {A} (l : list A) : result A :=
  match last l with
  | Some x => Ok x
  | None => Raise IndexError
  end.

(** [v[k]] for a string key [k]: only a dict can be subscripted by a
    string. *)
Definition py_getitem (v : pyval) (k : string) : result pyval :=
  match v with
  | PDict d => match dict_get d k with
               | Some x => Ok x
               | None => Raise (KeyError k)
               end
  | _ => Raise TypeError
  end.

(** ["literal" + v]: concatenation is defined on two strings only. *)
Definition str_add (lit : string) (v : pyval) : result pyval :=
  match v with
  | PStr s => Ok (PStr (lit +:+ s))
  | _ => Raise TypeError
  end.

(** [l[i:j]] on a list, for [0 <= i <= j]. *)
Definition list_slice {A} (l : list A) (i j : nat) : list A :=
  take (j - i) (drop i l).

(** The line feed, for the literals that contain one. *)
Definition LF : string := String (ascii_of_nat 10) EmptyString.

(** [sep.join(ls)]. *)
Definition py_join (sep : string) (ls : list string) : string :=
  String.concat sep ls.

(** [str(z)] for an integer: its decimal numeral. *)
Definition str_of_Z (z : Z) : string :=
  NilZero.string_of_int (Z.to_int z).

(** [s.lower()] on ASCII letters. *)
Definition ascii_lower (c : ascii) : ascii :=
  let n := nat_of_ascii c in
  if ((65 <=? n)%nat && (n <=? 90)%nat)%bool then ascii_of_nat (n + 32) else c.

Fixpoint str_lower (s : string) : string :=
  match s with
  | EmptyString => EmptyString
  | String c s' => String (ascii_lower c) (str_lower s')
  end.

(** [range(start, stop, step)] for a positive step.  The fuel bounds the
    number of elements; [py_range] supplies enough of it. *)
Fixpoint range_from (fuel start stop step : nat) : list nat :=
  match fuel with
  | O => []
  | S fuel' =>
      if (start <? stop)%nat
      then start :: range_from fuel' (start + step) stop step
      else []
  end.

Definition py_range (start stop step : nat) : list nat :=
  range_from (stop - start) start stop step.

(** [s[i:j]] for [0 <= i <= j]: the slice is cut at the end of [s]. *)
Definition py_slice (s : string) (i j : nat) : string :=
  substring i (j - i) s.

(* ===================================================================== *)
(** * providers.py *)
(* ===================================================================== *)

(** Which credential the cloud backend ended up with. *)
Inductive auth_used : Type :=
| adc (token : string)
| api_key_auth (key : string).

(** What the HTTP streaming exchange of the cloud backend did, as far as the
    generator observes it. *)
Inductive stream_outcome : Type :=
| StreamStatus (status_code : Z) (text : string)
    (* a response with a status other than 200, body read *)
| StreamChunks (chunks : list string) (full : option string)
    (* status 200; [chunks] arrived; [Some full]: the text iteration then
       raised and the rest of the body was read at once *)
| StreamFailed (yielded : list string).
    (* an exception reached the outer handler after [yielded] was sent *)

(** The request the cloud backend sends: the arguments of [client.post]
    and of [client.stream], the two dicts in the order of their
    insertions. *)
Record http_request : Type := {
  rq_url : string;
  rq_json : list (string * pyval);
  rq_params : list (string * string);
  rq_headers : list (string * string)
}.

(** What a provider sees of its process: the environment variables, whether
    the [google.auth] import succeeded, what Application Default
    Credentials answer ([None]: [google.auth.default] or the refresh of the
    credentials raised), and the generation endpoint.
    [gemini_post request] is the value [send_messages] returns from its
    request block, lines 59-86: every path of that block returns, the
    failures as "(gemini) ..." strings; the value is a [str] on every path
    but those of lines 72 and 76, which hand on a field of the decoded
    response as it is, a dict, a list or a number as well as a string.
    [gemini_stream request] is the streaming exchange with the same
    endpoint; the stream method sends its request whether or not a
    credential was found. *)
Record process : Type := {
  environ : gmap string string;
  google_imported : bool;
  adc_token : option string;
  gemini_post : http_request -> pyval;
  gemini_stream : http_request -> stream_outcome
}.

(** [os.environ.get(name)]. *)
Definition getenv (P : process) (name : string) : option string :=
  environ P !! name.

(** [os.environ.get(name, default)]. *)
Definition getenv_default (P : process) (name dflt : string) : string :=
  default dflt (environ P !! name).

(** The three provider classes, each with the attributes its constructor
    sets. *)
Inductive Provider : Type :=
| GeminiProvider (api_key : option string) (endpoint : option string)
| OlamaProvider (url : option string)
| OpenAIProvider (api_key : option string).

(** The constructors, called without arguments by [get_provider]:
    [self.api_key = api_key or os.environ.get(...)] with [api_key = None]. *)
Definition GeminiProvider_init (P : process) : Provider :=
  GeminiProvider (opt_or None (getenv P "GEMINI_API_KEY"))
                 (getenv P "GEMINI_API_ENDPOINT").

Definition OlamaProvider_init (P : process) : Provider :=
  OlamaProvider (opt_or None (getenv P "OLAMA_URL")).

Definition OpenAIProvider_init (P : process) : Provider :=
  OpenAIProvider (opt_or None (getenv P "OPENAI_API_KEY")).

(** The registry [PROVIDERS]: class name to constructor. *)
Definition PROVIDERS : gmap string (process -> Provider) :=
  <["gemini" := GeminiProvider_init]>
  (<["olama" := OlamaProvider_init]>
  (<["openai" := OpenAIProvider_init]> ∅)).

Definition get_provider (P : process) (name : string) : option Provider :=
  match PROVIDERS !! str_lower name with
  | None => None
  | Some cls => Some (cls P)
  end.

Definition GEMINI_DEFAULT_ENDPOINT : string :=
  "https://generativelanguage.googleapis.com/v1beta2/models/text-bison-001:generate".

Definition GEMINI_NO_CREDENTIALS : string :=
  "(gemini) no credentials available; set GOOGLE_APPLICATION_CREDENTIALS or GEMINI_API_KEY".

Definition chunk_size : nat := 64.

(** The chunks [reply[i:i+size] for i in range(0, len(reply), size)]. *)
Definition chunks_of (size : nat) (reply : string) : list string :=
  map (fun i => py_slice reply i (i + size))
      (py_range 0 (String.length reply) size).

(** What a generator did when driven to its end: the chunks it yielded and
    the exception that ended it, if one did. *)
Definition chunk_stream : Type := (list pyval * option exc)%type.

(** The loop [for i in range(0, len(reply), size): yield reply[i:i+size]]
    on the value [reply].  A string and a list are sliced.  A number,
    a boolean and [None] have no [len].  A dict has one, and the first
    slice of a dict that is not empty raises, a slice being no key a dict
    can hash. *)
Definition py_chunks (size : nat) (reply : pyval) : chunk_stream :=
  match reply with
  | PStr s => (map PStr (chunks_of size s), None)
  | PList l =>
      (map (fun i => PList (list_slice l i (i + size)))
           (py_range 0 (length l) size), None)
  | PDict [] => ([], None)
  | PDict (_ :: _) => ([], Some TypeError)
  | PNone | PBool _ | PInt _ => ([], Some TypeError)
  end.

Section Providers.

(** The process the providers run in. *)
Variable P : process.

(** Lines 37-52: Application Default Credentials first, then the API
    key. *)
Definition gemini_auth (api_key : option string) : option auth_used :=
  let auth :=
    if google_imported P then
      match adc_token P with
      | Some token => Some (adc token)
      | None => None
      end
    else None in
  match auth with
  | Some a => Some a
  | None =>
      match api_key with
      | Some key => if str_truthy key then Some (api_key_auth key) else None
      | None => None
      end
  end.

Definition gemini_endpoint (endpoint : option string) : string :=
  default GEMINI_DEFAULT_ENDPOINT
    (opt_or (opt_or endpoint (getenv P "GEMINI_API_ENDPOINT"))
            (Some GEMINI_DEFAULT_ENDPOINT)).

(** The dicts [headers] and [params] as the credential resolution leaves
    them: the bearer token of the ambient credentials goes into a header,
    the API key into a query parameter, and only one of the two is set. *)
Definition gemini_headers (auth : option auth_used)
  : list (string * string) :=
  ("Content-Type", "application/json")
  :: match auth with
     | Some (adc token) => [("Authorization", "Bearer " +:+ token)]
     | _ => []
     end.

Definition gemini_params (auth : option auth_used)
  : list (string * string) :=
  match auth with
  | Some (api_key_auth key) => [("key", key)]
  | _ => []
  end.

(** The request of both methods: [json=body, params=params,
    headers=headers] to the endpoint. *)
Definition gemini_request (endpoint : option string)
    (auth : option auth_used) (prompt : pyval) : http_request :=
  {| rq_url := gemini_endpoint endpoint;
     rq_json := [("prompt", prompt)];
     rq_params := gemini_params auth;
     rq_headers := gemini_headers auth |}.

Definition GeminiProvider_send_messages
    (api_key endpoint : option string) (messages : list pyval)
  : result pyval :=
  let auth := gemini_auth api_key in
  match auth with
  | None => Ok (PStr GEMINI_NO_CREDENTIALS)
  | Some _ =>
      result_bind (py_last messages) (fun m =>
      result_bind (py_getitem m "content") (fun prompt =>
      Ok (gemini_post P (gemini_request endpoint auth prompt))))
  end.

Definition OlamaProvider_send_messages
    (url : option string) (messages : list pyval) : result pyval :=
  if negb (opt_truthy url) then Ok (PStr "(olama) olama URL not configured")
  else
    result_bind (py_last messages) (fun m =>
    result_bind (py_getitem m "content") (fun c =>
    str_add "(olama) Placeholder reply to: " c)).

Definition OpenAIProvider_send_messages
    (api_key : option string) (messages : list pyval) : result pyval :=
  if negb (opt_truthy api_key) then Ok (PStr "(openai) API key not set")
  else
    result_bind (py_last messages) (fun m =>
    result_bind (py_getitem m "content") (fun c =>
    str_add "(openai) Placeholder reply to: " c)).

(** [provider.send_messages(messages)], dispatched on the class. *)
Definition send_messages (p : Provider) (messages : list pyval)
  : result pyval :=
  match p with
  | GeminiProvider k e => GeminiProvider_send_messages k e messages
  | OlamaProvider u => OlamaProvider_send_messages u messages
  | OpenAIProvider k => OpenAIProvider_send_messages k messages
  end.

(** [BaseProvider.send_messages_stream]: the generator awaits the whole
    reply before it yields, so an exception of [send] ends it before the
    first chunk. *)
Definition BaseProvider_send_messages_stream
    (send : list pyval -> result pyval) (messages : list pyval) : chunk_stream :=
  match send messages with
  | Ok reply => py_chunks chunk_size reply
  | Raise e => ([], Some e)
  end.

(** [GeminiProvider.send_messages_stream]: the chunks of the exchange
    are strings; after a failed exchange the reply of [send_messages] is
    cut by the loop of lines 138-139. *)
Definition GeminiProvider_send_messages_stream
    (api_key endpoint : option string) (messages : list pyval) : chunk_stream :=
  let auth := gemini_auth api_key in
  match result_bind (py_last messages) (fun m => py_getitem m "content") with
  | Raise e => ([], Some e)
  | Ok prompt =>
      match gemini_stream P (gemini_request endpoint auth prompt) with
      | StreamStatus code text =>
          ([PStr ("(gemini) HTTP " +:+ str_of_Z code +:+ ": " +:+ text)],
           None)
      | StreamChunks chunks None =>
          (map PStr (filter (fun c => str_truthy c = true) chunks), None)
      | StreamChunks chunks (Some full) =>
          (map PStr (filter (fun c => str_truthy c = true) chunks ++ [full]),
           None)
      | StreamFailed yielded =>
          match GeminiProvider_send_messages api_key endpoint messages with
          | Ok reply =>
              (map PStr yielded ++ (py_chunks 128 reply).1,
               (py_chunks 128 reply).2)
          | Raise e => (map PStr yielded, Some e)
          end
      end
  end.

(** [provider.send_messages_stream(messages)]: only the cloud backend
    overrides the base method. *)
Definition send_messages_stream (p : Provider) (messages : list pyval)
  : chunk_stream :=
  match p with
  | GeminiProvider k e => GeminiProvider_send_messages_stream k e messages
  | _ => BaseProvider_send_messages_stream (send_messages p) messages
  end.

End Providers.

(* ===================================================================== *)
(** * Stateful code: a state and exception monad *)
(* ===================================================================== *)

(** A computation over a store [S]: it returns or raises, and in both cases
    leaves a store behind, as a Python call does. *)
Definition M (S A : Type) : Type := S -> result A * S.

Global Instance M_ret {S} : MRet (M S) := fun A a s => (Ok a, s).

Global Instance M_bind {S} : MBind (M S) := fun A B k m s =>
  match m s with
  | (Ok a, s') => k a s'
  | (Raise e, s') => (Raise e, s')
  end.

Definition raise {S A} (e : exc) : M S A := fun s => (Raise e, s).

(** [try: m  except <handles>: h]: the handler runs in the store the body
    left behind. *)
Definition try_except {S A} (m : M S A) (handles : exc -> bool) (h : M S A)
  : M S A :=
  fun s =>
    match m s with
    | (Ok a, s') => (Ok a, s')
    | (Raise e, s') => if handles e then h s' else (Raise e, s')
    end.

Definition gets {S A} (f : S -> A) : M S A := fun s => (Ok (f s), s).

Definition modify {S} (f : S -> S) : M S unit := fun s => (Ok tt, f s).

Definition lift {S A} (r : result A) : M S A := fun s => (r, s).

(** [except Exception]: every exception of the model derives from it. *)
Definition any_Exception (e : exc) : bool := true.

(** [except AttributeError]. *)
Definition is_AttributeError (e : exc) : bool :=
  match e with AttributeError => true | _ => false end.

(* ===================================================================== *)
(** * The embedding index and its results *)
(* ===================================================================== *)

(** An embedding, named by the text it was computed from; the backend never
    looks inside one. *)
Inductive vector : Type :=
| encode (text : string).

(** A stored chunk of a Chroma collection.  The metadata is a dict, or
    [None] when the chunk was stored without one. *)
Record entry : Type := {
  e_id : string;
  e_document : string;
  e_metadata : option (list (string * pyval));
  e_embedding : vector
}.

(** The answer of [collection.query(..., include=['documents','metadatas',
    'distances'])]: one row per query embedding.  A distance is carried as
    an integer number of units; the backend copies it and never compares
    it. *)
Record query_results : Type := {
  documents : list (list string);
  metadatas : list (list (option (list (string * pyval))));
  distances : list (list Z)
}.

(** A retrieved document, the dict [{'document', 'metadata', 'distance'}]. *)
Record retrieved : Type := {
  document : string;
  metadata : option (list (string * pyval));
  distance : Z
}.

(** [zip(a, b, c)]: as long as the shortest argument. *)
Fixpoint zip3 {A B C} (a : list A) (b : list B) (c : list C)
  : list (A * B * C) :=
  match a, b, c with
  | x :: a', y :: b', z :: c' => (x, y, z) :: zip3 a' b' c'
  | _, _, _ => []
  end.

(** [[f"doc_{i}" for i in range(len(texts))]]. *)
Definition default_ids {A} (texts : list A) : list string :=
  map (fun i => "doc_" +:+ str_of_Z (Z.of_nat i)) (seq 0 (length texts)).

(** The value of an optional tenant identifier inside a dict. *)
Definition tenant_val (tenant_id : option string) : pyval :=
  match tenant_id with Some t => PStr t | None => PNone end.

(* ===================================================================== *)
(** * vector_store.py *)
(* ===================================================================== *)

(** A match of a Pinecone query: [match['id']], [match.get('metadata')]
    ([None]: the key is absent) and [match.get('score')]. *)
Record pc_match : Type := {
  m_id : string;
  m_metadata : option (list (string * pyval));
  m_score : Z
}.

(** An index task, the dict pushed on the queue. *)
Record task : Type := {
  t_texts : list string;
  t_ids : list string;
  t_tenant_id : option string
}.

(** The module globals set when [vector_store] is imported. *)
Record vs_globals : Type := {
  COLLECTION_NAME : string;
  _use_pinecone : bool;
  _chroma_ready : bool   (* [_chroma_client] and [_embedder] are not None *)
}.

(** Lines 10-31, run once at import.  [pinecone_ok]: [import pinecone] and
    [pinecone.init] succeed; [chroma_ok]: the Chroma client and the
    embedder can be built. *)
Definition vector_store_import
    (env : gmap string string) (pinecone_ok chroma_ok : bool) : vs_globals :=
  let use :=
    (opt_truthy (env !! "PINECONE_API_KEY")
     && opt_truthy (env !! "PINECONE_ENV"))%bool in
  let use := if use then pinecone_ok else false in
  {| COLLECTION_NAME := default "gqx_collection" (env !! "VECTOR_COLLECTION");
     _use_pinecone := use;
     _chroma_ready := if negb use then chroma_ok else false |}.

(** What the functions of [vector_store] read and change: the module
    globals, the environment, the two stores, the event loop and the pushes
    scheduled on it.  [pinecone_query] is the answer of the
    Pinecone index to a query vector; [vs_chroma_query] is what embedding
    the query text and asking the Chroma collection gives, or raises. *)
Record vstore : Type := {
  globals : vs_globals;
  vs_environ : gmap string string;
  pinecone_indexes : gmap string (gmap string (vector * pyval));
  vs_collections : gmap string (list entry);
  loop_running : bool;
  scheduled : list task;
  pinecone_query :
    gmap string (vector * pyval) -> vector -> Z -> list pc_match;
  vs_chroma_query : list entry -> pyval -> Z -> result query_results
}.

Definition set_pinecone_indexes
    (f : gmap string (gmap string (vector * pyval)) ->
         gmap string (gmap string (vector * pyval))) (s : vstore) : vstore :=
  {| globals := globals s; vs_environ := vs_environ s;
     pinecone_indexes := f (pinecone_indexes s);
     vs_collections := vs_collections s;
     loop_running := loop_running s; scheduled := scheduled s;
     pinecone_query := pinecone_query s;
     vs_chroma_query := vs_chroma_query s |}.

Definition set_scheduled (f : list task -> list task) (s : vstore) : vstore :=
  {| globals := globals s; vs_environ := vs_environ s;
     pinecone_indexes := pinecone_indexes s;
     vs_collections := vs_collections s;
     loop_running := loop_running s; scheduled := f (scheduled s);
     pinecone_query := pinecone_query s;
     vs_chroma_query := vs_chroma_query s |}.

(** [[(ids[i], vectors[i], metadatas[i]) for i in range(len(ids))]]:
    an identifier beyond the texts raises. *)
Fixpoint to_upsert (ids : list string) (vectors : list vector)
    (metadatas : list pyval) : result (list (string * (vector * pyval))) :=
  match ids with
  | [] => Ok []
  | i :: ids' =>
      match vectors, metadatas with
      | v :: vectors', md :: metadatas' =>
          result_bind (to_upsert ids' vectors' metadatas')
            (fun rest => Ok ((i, (v, md)) :: rest))
      | _, _ => Raise IndexError
      end
  end.

(** [idx.upsert(items)]: each identifier is written, replacing what the
    index held under it. *)
Definition pinecone_upsert (items : list (string * (vector * pyval)))
    (idx : gmap string (vector * pyval)) : gmap string (vector * pyval) :=
  fold_left (fun m it => <[it.1 := it.2]> m) items idx.

(** The receipt [{"upserted": n, "provider": name}]. *)
Definition upsert_receipt (n : nat) (name : string) : pyval :=
  PDict [("upserted", PInt (Z.of_nat n)); ("provider", PStr name)].

(** [upsert_documents(texts, ids, tenant_id)], lines 34-68.  The call of
    [idx.upsert] and the first [return] stand outside the [if]: when
    [_use_pinecone] is false the local [idx] was never bound, and nothing
    after the [return] (the Chroma branch) is reached. *)
Definition upsert_documents (texts : list string) (ids : option (list string))
    (tenant_id : option string) : M vstore pyval :=
  let ids := match ids with None => default_ids texts | Some l => l end in
  let metadatas :=
    map (fun _ => PDict [("tenant_id", tenant_val tenant_id)]) texts in
  use ← gets (fun s => _use_pinecone (globals s));
  if (use : bool) then
    idx_name ← gets (fun s => COLLECTION_NAME (globals s));
    known ← gets (fun s => pinecone_indexes s !! idx_name);
    (if known is None
     then modify (set_pinecone_indexes (fun m => <[idx_name := ∅]> m))
     else mret tt);;
    let vectors := map encode texts in
    items ← lift (to_upsert ids vectors metadatas);
    modify (set_pinecone_indexes (fun m =>
      <[idx_name := pinecone_upsert items (default ∅ (m !! idx_name))]> m));;
    mret (upsert_receipt (length ids) "pinecone")
  else
    raise (UnboundLocalError "idx").

(** The receipt [{'enqueued': n}]. *)
Definition enqueue_receipt (n : nat) : pyval :=
  PDict [("enqueued", PInt (Z.of_nat n))].

(** [asyncio.create_task(_push())]: without a running event loop it raises;
    with one, the push of the task is scheduled and runs later. *)
Definition create_task_push (t : task) : M vstore unit :=
  running ← gets loop_running;
  if (running : bool)
  then modify (set_scheduled (fun q => q ++ [t]))
  else raise (RuntimeError "no running event loop").

(** [enqueue_documents(texts, ids, tenant_id)], lines 71-92. *)
Definition enqueue_documents (texts : list string) (ids : option (list string))
    (tenant_id : option string) : M vstore pyval :=
  REDIS_URL ← gets (fun s => vs_environ s !! "REDIS_URL");
  let task_ids :=
    match ids with
    | Some (i :: l) => i :: l
    | _ => default_ids texts      (* [ids or [...]]: None and [] are falsy *)
    end in
  let t := {| t_texts := texts; t_ids := task_ids;
              t_tenant_id := tenant_id |} in
  if negb (opt_truthy REDIS_URL) then upsert_documents texts ids tenant_id
  else
    try_except
      (create_task_push t;;
       mret (enqueue_receipt (length (t_ids t))))
      any_Exception
      (upsert_documents texts ids tenant_id).

(** [tenant_id and md.get('tenant_id') != tenant_id]. *)
Definition other_tenant (tenant_id : option string)
    (md : list (string * pyval)) : bool :=
  match tenant_id with
  | Some t => (str_truthy t && negb (eq_str (py_get md "tenant_id") t))%bool
  | None => false
  end.

(** The loop over the matches of a Pinecone query, lines 110-114. *)
Definition pinecone_out (tenant_id : option string) (matches : list pc_match)
  : list pyval :=
  omap (fun mt =>
          let md := default [] (m_metadata mt) in
          if other_tenant tenant_id md then None
          else
            let text := py_get md "text" in
            Some (PDict [("id", PStr (m_id mt));
                         ("document", if truthy text then text else PStr "");
                         ("metadata", PDict md);
                         ("score", PInt (m_score mt))]))
       matches.

(** [if tenant_id and meta.get('tenant_id') != tenant_id: continue]:
    [meta.get] is evaluated only for a truthy tenant, and raises on a chunk
    stored without metadata. *)
Definition skips (tenant_id : option string)
    (meta : option (list (string * pyval))) : result bool :=
  if opt_truthy tenant_id then
    match meta with
    | None => Raise AttributeError
    | Some md => Ok (other_tenant tenant_id md)
    end
  else Ok false.

(** The loop over one row of a Chroma answer, lines 126-129. *)
Fixpoint chroma_row_out (tenant_id : option string)
    (row : list (string * option (list (string * pyval)) * Z))
  : result (list retrieved) :=
  match row with
  | [] => Ok []
  | (doc, meta, dist) :: row' =>
      result_bind (skips tenant_id meta) (fun skip =>
      result_bind (chroma_row_out tenant_id row') (fun rest =>
      Ok (if (skip : bool) then rest
          else {| document := doc; metadata := meta; distance := dist |}
               :: rest)))
  end.

Fixpoint chroma_rows_out (tenant_id : option string)
    (rows : list (list string * list (option (list (string * pyval)))
                  * list Z))
  : result (list retrieved) :=
  match rows with
  | [] => Ok []
  | (docs_row, metas_row, dists_row) :: rows' =>
      result_bind (chroma_row_out tenant_id (zip3 docs_row metas_row dists_row))
        (fun a => result_bind (chroma_rows_out tenant_id rows')
        (fun b => Ok (a ++ b)))
  end.

(** The dict a Chroma hit becomes. *)
Definition retrieved_dict (d : retrieved) : pyval :=
  PDict [("document", PStr (document d));
         ("metadata", match metadata d with
                      | Some md => PDict md
                      | None => PNone
                      end);
         ("distance", PInt (distance d))].

(** [vector_store.query(text, k, tenant_id)], lines 95-130. *)
Definition vector_store_query (text : string) (k : Z)
    (tenant_id : option string) : M vstore (list pyval) :=
  g ← gets globals;
  if _use_pinecone g then
    idx ← gets (fun s => pinecone_indexes s !! COLLECTION_NAME g);
    match idx with
    | None => mret []
    | Some idx =>
        matches ← gets (fun s => pinecone_query s idx (encode text) k);
        mret (pinecone_out tenant_id matches)
    end
  else if negb (_chroma_ready g) then mret []
  else
    coll ← gets (fun s => vs_collections s !! COLLECTION_NAME g);
    match coll with
    | None => raise ValueError   (* [get_collection] of a missing name *)
    | Some coll =>
        answer ← gets (fun s => vs_chroma_query s coll (PStr text) k);
        results ← lift answer;
        out ← lift (chroma_rows_out tenant_id
                      (zip3 (documents results) (metadatas results)
                            (distances results)));
        mret (map retrieved_dict out)
    end.

(* ===================================================================== *)
(** * worker.py and the index queue *)
(* ===================================================================== *)

(** What the worker sees: the store of [vector_store] and the Redis list
    [index_queue].  A queued item is a task as [enqueue_documents] builds
    it and [_push] serializes it; [json.loads] gives back the dict that
    [json.dumps] was given. *)
Record wstate : Type := {
  w_store : vstore;
  index_queue : list task
}.

(** A call into [vector_store]. *)
Definition on_store {A} (m : M vstore A) : M wstate A :=
  fun s =>
    let '(r, st) := m (w_store s) in
    (r, {| w_store := st; index_queue := index_queue s |}).

(** The oldest push scheduled by [enqueue_documents] runs to its end: the
    coroutine [_push], lines 82-84, appends the task at the tail of the
    list (RPUSH). *)
Definition run_push : M wstate unit :=
  fun s =>
    match scheduled (w_store s) with
    | [] => (Ok tt, s)
    | t :: rest =>
        (Ok tt, {| w_store := set_scheduled (fun _ => rest) (w_store s);
                   index_queue := index_queue s ++ [t] |})
    end.

(** [await redis.blpop('index_queue', timeout=5)]: the head of the list,
    or [None] when the wait times out on an empty list. *)
Definition blpop : M wstate (option task) :=
  fun s =>
    match index_queue s with
    | [] => (Ok None, s)
    | t :: q => (Ok (Some t), {| w_store := w_store s; index_queue := q |})
    end.

(** One turn of the loop of [run_worker], lines 20-34: any exception of
    the turn is logged and followed by a pause. *)
Definition worker_turn : M wstate unit :=
  try_except
    (item ← blpop;
     match item with
     | None => mret tt
     | Some t =>
         on_store (upsert_documents (t_texts t) (Some (t_ids t))
                     (t_tenant_id t));;
         mret tt
     end)
    any_Exception
    (mret tt).

(** The first [n] turns of [run_worker]; the loop itself has no exit. *)
Fixpoint run_worker (n : nat) : M wstate unit :=
  match n with
  | O => mret tt
  | S n' => worker_turn;; run_worker n'
  end.

(* ===================================================================== *)
(** * The world of a chat request *)
(* ===================================================================== *)

(** [app.state.redis] after the startup hook: the attribute was never set
    (no REDIS_URL), was set to [None] (the connection could not be built),
    or holds a client. *)
Inductive redis_handle : Type :=
| RedisUnset
| RedisNone
| RedisClient.

(** The calls a request makes to its collaborators, in the order made. *)
Inductive event : Type :=
| EvVerifyKey (api_key : string)
| EvGetProvider (name : string)
| EvRagQuery (query_text : pyval) (k : Z)
| EvRedisIncr (key : string)
| EvRedisExpire (key : string) (seconds : Z)
| EvSend (p : Provider) (messages : list pyval)
| EvSendStream (p : Provider) (messages : list pyval).

(** What a request reads and changes.
    - [tenants]: the content of the tenants file, in file order, each
      tenant with its info dict; [sha256_hex] is the digest [auth.py] takes
      of a key.
    - [py_int]: the builtin [int] on a string, [None] where it raises
      [ValueError].
    - [chromadb_imported], [rag_collection], [chroma_query]: the state of
      [rag_indexer]: whether its imports succeeded, the chunks of its
      collection ([None]: the collection does not exist), and what
      embedding a query text and asking the collection gives, or raises.
    - [app_redis], [redis_reachable], [redis_db], [now]: the counter store:
      the handle, whether its server answers, its keys (value and expiry
      deadline), and the clock in seconds.
    - [trace]: the calls made so far. *)
Record world : Type := {
  proc : process;
  tenants : list (string * list (string * pyval));
  sha256_hex : string -> string;
  py_int : string -> option Z;
  chromadb_imported : bool;
  rag_collection : option (list entry);
  chroma_query : list entry -> pyval -> Z -> result query_results;
  app_redis : redis_handle;
  redis_reachable : bool;
  redis_db : gmap string (Z * option Z);
  now : Z;
  trace : list event
}.

Definition set_redis_db
    (f : gmap string (Z * option Z) -> gmap string (Z * option Z))
    (w : world) : world :=
  {| proc := proc w; tenants := tenants w; sha256_hex := sha256_hex w;
     py_int := py_int w; chromadb_imported := chromadb_imported w;
     rag_collection := rag_collection w; chroma_query := chroma_query w;
     app_redis := app_redis w; redis_reachable := redis_reachable w;
     redis_db := f (redis_db w); now := now w; trace := trace w |}.

Definition set_trace (f : list event -> list event) (w : world) : world :=
  {| proc := proc w; tenants := tenants w; sha256_hex := sha256_hex w;
     py_int := py_int w; chromadb_imported := chromadb_imported w;
     rag_collection := rag_collection w; chroma_query := chroma_query w;
     app_redis := app_redis w; redis_reachable := redis_reachable w;
     redis_db := redis_db w; now := now w; trace := f (trace w) |}.

Definition set_now (t : Z) (w : world) : world :=
  {| proc := proc w; tenants := tenants w; sha256_hex := sha256_hex w;
     py_int := py_int w; chromadb_imported := chromadb_imported w;
     rag_collection := rag_collection w; chroma_query := chroma_query w;
     app_redis := app_redis w; redis_reachable := redis_reachable w;
     redis_db := redis_db w; now := t; trace := trace w |}.

Definition log (e : event) : M world unit :=
  modify (set_trace (fun t => t ++ [e])).

(* ===================================================================== *)
(** * The counter store *)
(* ===================================================================== *)

(** The value a key holds at time [t]: a key whose deadline has passed is
    gone. *)
Definition redis_live (t : Z) (db : gmap string (Z * option Z))
    (key : string) : option (Z * option Z) :=
  match db !! key with
  | Some (v, Some deadline) =>
      if t <? deadline then Some (v, Some deadline) else None
  | Some (v, None) => Some (v, None)
  | None => None
  end.

(** INCR: one atomic step of the server; a missing key counts from zero
    and has no deadline, a live key keeps its deadline. *)
Definition incr_db (t : Z) (key : string) (db : gmap string (Z * option Z))
  : gmap string (Z * option Z) :=
  match redis_live t db key with
  | Some (v, d) => <[key := (v + 1, d)]> db
  | None => <[key := (1, None)]> db
  end.

Definition incr_value (t : Z) (key : string) (db : gmap string (Z * option Z))
  : Z :=
  match redis_live t db key with
  | Some (v, _) => v + 1
  | None => 1
  end.

(** EXPIRE: the deadline of a live key becomes [t + seconds]. *)
Definition expire_db (t : Z) (key : string) (seconds : Z)
    (db : gmap string (Z * option Z)) : gmap string (Z * option Z) :=
  match redis_live t db key with
  | Some (v, _) => <[key := (v, Some (t + seconds))]> db
  | None => db
  end.

(** [await redis.incr(key)] on the handle [redis]. *)
Definition redis_incr (redis : redis_handle) (key : string) : M world Z :=
  match redis with
  | RedisClient =>
      log (EvRedisIncr key);;
      up ← gets redis_reachable;
      if (up : bool) then
        t ← gets now;
        cur ← gets (fun w => incr_value t key (redis_db w));
        modify (set_redis_db (incr_db t key));;
        mret cur
      else raise ConnectionError
  | _ => raise AttributeError      (* [None] has no attribute [incr] *)
  end.

(** [await redis.expire(key, seconds)] on a client. *)
Definition redis_expire (key : string) (seconds : Z) : M world unit :=
  log (EvRedisExpire key seconds);;
  up ← gets redis_reachable;
  if (up : bool) then
    t ← gets now;
    modify (set_redis_db (expire_db t key seconds))
  else raise ConnectionError.

(* ===================================================================== *)
(** * rag_indexer.py *)
(* ===================================================================== *)

Fixpoint rag_rows_out
    (rows : list (list string * list (option (list (string * pyval)))
                  * list Z)) : list retrieved :=
  match rows with
  | [] => []
  | (docs, metas, dists) :: rows' =>
      map (fun '(doc, meta, dist) =>
             {| document := doc; metadata := meta; distance := dist |})
          (zip3 docs metas dists)
      ++ rag_rows_out rows'
  end.

(** [rag_indexer.query(query_text, k)], lines 62-77: it takes no tenant and
    keeps every row of the answer. *)
Definition rag_query (query_text : pyval) (k : Z) : M world (list retrieved) :=
  log (EvRagQuery query_text k);;
  imported ← gets chromadb_imported;
  if negb imported then
    raise (RuntimeError
      "chromadb or sentence-transformers not installed. See requirements.txt")
  else
    coll ← gets rag_collection;
    match coll with
    | None => mret []
    | Some coll =>
        answer ← gets (fun w => chroma_query w coll query_text k);
        results ← lift answer;
        mret (rag_rows_out (zip3 (documents results) (metadatas results)
                                 (distances results)))
    end.

(* ===================================================================== *)
(** * auth.py (the file-based tenant store) *)
(* ===================================================================== *)

Fixpoint find_tenant (h : string)
    (data : list (string * list (string * pyval))) : option string :=
  match data with
  | [] => None
  | (tid, info) :: data' =>
      if eq_str (py_get info "api_key_hash") h then Some tid
      else find_tenant h data'
  end.

(** [verify_api_key(api_key)]. *)
Definition verify_api_key (api_key : string) : M world (option string) :=
  log (EvVerifyKey api_key);;
  data ← gets tenants;
  h ← gets (fun w => sha256_hex w api_key);
  mret (find_tenant h data).

(** [d[k] = v] on a dict kept in insertion order: a present key keeps its
    place, a new key goes last. *)
Fixpoint dict_set {V} (d : list (string * V)) (k : string) (v : V)
  : list (string * V) :=
  match d with
  | [] => [(k, v)]
  | (k', v') :: d' =>
      if String.eqb k' k then (k, v) :: d' else (k', v') :: dict_set d' k v
  end.

Definition set_tenants
    (f : list (string * list (string * pyval)) ->
         list (string * list (string * pyval))) (w : world) : world :=
  {| proc := proc w; tenants := f (tenants w); sha256_hex := sha256_hex w;
     py_int := py_int w; chromadb_imported := chromadb_imported w;
     rag_collection := rag_collection w; chroma_query := chroma_query w;
     app_redis := app_redis w; redis_reachable := redis_reachable w;
     redis_db := redis_db w; now := now w; trace := trace w |}.

(** [create_tenant(name)], lines 35-43, the body of [POST /tenant/create].
    [tenant_id] and [api_key] stand for the draws of [secrets.token_hex(8)]
    and [secrets.token_urlsafe(32)]. *)
Definition create_tenant (name tenant_id api_key : string) : M world pyval :=
  data ← gets tenants;
  h ← gets (fun w => sha256_hex w api_key);
  modify (set_tenants (fun _ =>
    dict_set data tenant_id
      [("name", PStr name); ("api_key_hash", PStr h)]));;
  mret (PDict [("tenant_id", PStr tenant_id); ("api_key", PStr api_key)]).

(* ===================================================================== *)
(** * main.py *)
(* ===================================================================== *)

(** [class ChatRequest(BaseModel)]. *)
Record ChatRequest : Type := {
  messages : list pyval;
  provider : string;
  stream : bool;
  rag : bool
}.

(** White space of [str.split()]: the code points below 256 on which
    [str.isspace] holds, that is the controls 9 to 13 and 28 to 31, the
    space, the next-line control 133 and the no-break space 160. *)
Definition py_isspace (c : ascii) : bool :=
  let n := nat_of_ascii c in
  (((9 <=? n)%nat && (n <=? 13)%nat)
   || ((28 <=? n)%nat && (n <=? 32)%nat)
   || (n =? 133)%nat || (n =? 160)%nat)%bool.

Fixpoint split_ws (cur : string) (s : string) : list string :=
  match s with
  | EmptyString => if str_truthy cur then [cur] else []
  | String c s' =>
      if py_isspace c
      then (if str_truthy cur then [cur] else []) ++ split_ws "" s'
      else split_ws (cur +:+ String c "") s'
  end.

(** [s.split()]. *)
Definition py_split (s : string) : list string := split_ws "" s.

(** [get_tenant_from_header], lines 64-75: the dependency that runs before
    the body of an authenticated endpoint. *)
Definition get_tenant_from_header (authorization : option string)
  : M world string :=
  if negb (opt_truthy authorization)
  then raise (HTTPException 401 "Missing Authorization header")
  else
    match py_split (default "" authorization) with
    | [scheme; api_key] =>
        if negb (String.eqb (str_lower scheme) "bearer")
        then raise (HTTPException 401 "Invalid Authorization header")
        else
          tid ← verify_api_key api_key;
          match tid with
          | Some t =>
              if str_truthy t then mret t
              else raise (HTTPException 403 "Invalid API key")
          | None => raise (HTTPException 403 "Invalid API key")
          end
    | _ => raise (HTTPException 401 "Invalid Authorization header")
    end.

(** Lines 96-100: the content of the last message that is a dict with role
    ['user'], scanning from the end; [None] when there is none. *)
Fixpoint scan_user (reversed : list pyval) : pyval :=
  match reversed with
  | [] => PNone
  | m :: rest =>
      match m with
      | PDict d =>
          if eq_str (py_get d "role") "user" then py_get d "content"
          else scan_user rest
      | _ => scan_user rest
      end
  end.

Definition last_user (msgs : list pyval) : pyval := scan_user (rev msgs).

(** The synthetic message of line 107. *)
Definition system_msg (docs : list retrieved) : pyval :=
  let retrieved_texts := py_join (LF +:+ LF) (map document docs) in
  PDict [("role", PStr "system");
         ("content", PStr ("Relevant documents:" +:+ LF +:+ retrieved_texts))].

(** Lines 93-111 of [chat], the same text as lines 171-186 of
    [chat_stream]: the value of [messages_to_send]. *)
Definition augment (req : ChatRequest) : M world (list pyval) :=
  let messages_to_send := messages req in
  if rag req then
    let last_user := last_user (messages req) in
    if truthy last_user then
      try_except
        (docs ← rag_query last_user 3;
         match docs with
         | [] => mret messages_to_send
         | _ :: _ => mret (system_msg docs :: messages_to_send)
         end)
        any_Exception
        (mret messages_to_send)
    else mret messages_to_send
  else mret messages_to_send.

(** [int(os.environ.get('MAX_REQS_PER_MIN', '600'))]. *)
Definition read_max_per_min (w : world) : result Z :=
  match py_int w (getenv_default (proc w) "MAX_REQS_PER_MIN" "600") with
  | Some n => Ok n
  | None => Raise ValueError
  end.

(** [f"quota:{tenant_id}:{int(time.time()//60)}"]. *)
Definition quota_key (tenant_id : string) (t : Z) : string :=
  "quota:" +:+ tenant_id +:+ ":" +:+ str_of_Z (t / 60).

(** Lines 115-126 of [chat], the same text as lines 189-200 of
    [chat_stream]: the quota check. *)
Definition quota_check (tenant_id : string) : M world unit :=
  try_except
    (redis ← gets app_redis;
     match redis with
     | RedisUnset => raise AttributeError   (* [app.state] has no [redis] *)
     | _ =>
         t ← gets now;
         let key := quota_key tenant_id t in
         cur ← redis_incr redis key;
         (if cur =? 1 then redis_expire key 61 else mret tt);;
         limit ← gets read_max_per_min;
         max_per_min ← lift limit;
         if cur >? max_per_min
         then raise (HTTPException 429 "Rate limit exceeded")
         else mret tt
     end)
    is_AttributeError
    (mret tt).

(** The body of [chat], lines 82-129. *)
Definition chat (req : ChatRequest) (tenant_id : string) : M world pyval :=
  P ← gets proc;
  log (EvGetProvider (provider req));;
  match get_provider P (provider req) with
  | None => raise (HTTPException 400 "Unknown provider")
  | Some p =>
      messages_to_send ← augment req;
      quota_check tenant_id;;
      log (EvSend p messages_to_send);;
      reply ← lift (send_messages P p messages_to_send);
      mret (PDict [("reply", reply)])
  end.

(** A piece of a streamed body: a chunk of the provider that is a [str],
    encoded; a chunk that is no [str], handed on as it is; or the
    diagnostic ["(stream-error) " + str(e)] of line 213. *)
Inductive body_chunk : Type :=
| Chunk (text : string)
| RawChunk (v : pyval)
| StreamError (e : exc).

(** Lines 207-209: [if isinstance(chunk, str): chunk = chunk.encode(...)]. *)
Definition body_of (chunk : pyval) : body_chunk :=
  match chunk with
  | PStr text => Chunk text
  | v => RawChunk v
  end.

(** The generator [event_stream], lines 203-214, driven to its end. *)
Definition event_stream (P : process) (p : Provider) (msgs : list pyval)
  : list body_chunk :=
  let '(chunks, err) := send_messages_stream P p msgs in
  map body_of chunks
  ++ match err with Some e => [StreamError e] | None => [] end.

(** The body of [chat_stream], lines 161-216, with the response body it
    returns driven to its end. *)
Definition chat_stream (req : ChatRequest) (tenant_id : string)
  : M world (list body_chunk) :=
  P ← gets proc;
  log (EvGetProvider (provider req));;
  match get_provider P (provider req) with
  | None => raise (HTTPException 400 "Unknown provider")
  | Some p =>
      messages_to_send ← augment req;
      quota_check tenant_id;;
      log (EvSendStream p messages_to_send);;
      mret (event_stream P p messages_to_send)
  end.

(** [POST /chat]: the dependency, then the body. *)
Definition post_chat (authorization : option string) (req : ChatRequest)
  : M world pyval :=
  tenant_id ← get_tenant_from_header authorization;
  chat req tenant_id.

(** [POST /chat/stream]. *)
Definition post_chat_stream (authorization : option string)
    (req : ChatRequest) : M world (list body_chunk) :=
  tenant_id ← get_tenant_from_header authorization;
  chat_stream req tenant_id.

(** [startup_event], lines 39-45: what [app.state.redis] is after the
    startup hook.  [from_url_ok]: [aioredis.from_url] returned a client. *)
Definition startup_event (env : gmap string string) (from_url_ok : bool)
  : redis_handle :=
  if opt_truthy (env !! "REDIS_URL")
  then (if from_url_ok then RedisClient else RedisNone)
  else RedisUnset.

(** [os.path.basename(p)]: what follows the last slash. *)
Fixpoint basename_from (cur : string) (p : string) : string :=
  match p with
  | EmptyString => cur
  | String c p' =>
      if Ascii.eqb c "/" then basename_from "" p'
      else basename_from (cur +:+ String c "") p'
  end.

Definition py_basename (p : string) : string := basename_from "" p.

Fixpoint ends_with_slash (a : string) : bool :=
  match a with
  | EmptyString => false
  | String c EmptyString => Ascii.eqb c "/"
  | String _ a' => ends_with_slash a'
  end.

(** [os.path.join(a, b)] on POSIX paths. *)
Definition path_join (a b : string) : string :=
  match b with
  | String c _ =>
      if Ascii.eqb c "/" then b
      else if (negb (str_truthy a) || ends_with_slash a)%bool then a +:+ b
      else a +:+ "/" +:+ b
  | EmptyString =>
      if (negb (str_truthy a) || ends_with_slash a)%bool then a
      else a +:+ "/"
  end.

(** What the upload endpoints read and change: the store of
    [vector_store], the files on disk (path to content), the upload
    directory, the error text of a write that fails at a path ([None]: the
    write succeeds), and the UTF-8 decoding that ignores invalid bytes. *)
Record upload_state : Type := {
  up_store : vstore;
  files : gmap string string;
  UPLOAD_DIR : string;
  write_error : string -> option string;
  decode_utf8_ignore : string -> string
}.

Definition set_files (f : gmap string string -> gmap string string)
    (s : upload_state) : upload_state :=
  {| up_store := up_store s; files := f (files s);
     UPLOAD_DIR := UPLOAD_DIR s; write_error := write_error s;
     decode_utf8_ignore := decode_utf8_ignore s |}.

Definition in_up_store {A} (m : M vstore A) : M upload_state A :=
  fun s =>
    let '(r, st) := m (up_store s) in
    (r, {| up_store := st; files := files s; UPLOAD_DIR := UPLOAD_DIR s;
           write_error := write_error s;
           decode_utf8_ignore := decode_utf8_ignore s |}).

(** Lines 141-148 of [upload_and_index], the same text as lines 220-227 of
    [upload]: the file is written under its base name; a failure becomes
    the 500 error. *)
Definition save_file (file_filename content : string)
  : M upload_state (string * string) :=
  let filename := py_basename file_filename in
  dir ← gets UPLOAD_DIR;
  let path := path_join dir filename in
  failure ← gets (fun s => write_error s path);
  match failure with
  | Some detail => raise (HTTPException 500 detail)
  | None =>
      modify (set_files (fun fs => <[path := content]> fs));;
      mret (filename, path)
  end.

Definition upload_reply (filename path : string) : pyval :=
  PDict [("filename", PStr filename); ("path", PStr path)].

(** The body of [upload_and_index], lines 139-157. *)
Definition upload_and_index (file_filename content tenant_id : string)
  : M upload_state pyval :=
  '(filename, path) ← save_file file_filename content;
  text ← gets (fun s => decode_utf8_ignore s content);
  in_up_store (upsert_documents [text] (Some [filename]) (Some tenant_id));;
  mret (upload_reply filename path).

(** The body of [upload], lines 219-228. *)
Definition upload (file_filename content : string) : M upload_state pyval :=
  '(filename, path) ← save_file file_filename content;
  mret (upload_reply filename path).

(* ===================================================================== *)
(** * Concrete processes and worlds *)
(* ===================================================================== *)

(** Instances of the collaborators, for running the model on examples. *)

(** A decimal reader for strings of ASCII digits, standing for [int]. *)
Fixpoint digits_go (acc : Z) (s : string) : option Z :=
  match s with
  | EmptyString => Some acc
  | String c s' =>
      match Ascii.is_nat c with
      | Some d => digits_go (10 * acc + Z.of_nat d) s'
      | None => None
      end
  end.

Definition digits_int (s : string) : option Z :=
  if str_truthy s then digits_go 0 s else None.

(** A stand-in for the digest of a key. *)
Definition tag_digest (s : string) : string := "h:" +:+ s.

(** An endpoint that answers every request with the same text. *)
Definition fixed_post (answer : string) : http_request -> pyval :=
  fun _ => PStr answer.

Definition failing_stream : http_request -> stream_outcome :=
  fun _ => StreamFailed [].

(** An endpoint that answers with the credential the request carries: its
    query parameters and its headers, one "name=value" after the other. *)
Definition show_credential : http_request -> pyval :=
  fun r =>
    PStr (py_join "&"
            (map (fun kv => kv.1 +:+ "=" +:+ kv.2)
                 (rq_params r ++ rq_headers r))).

(** A process with the given environment and no ambient credentials. *)
Definition process_of (env : gmap string string) : process :=
  {| environ := env; google_imported := false; adc_token := None;
     gemini_post := fixed_post "ok"; gemini_stream := failing_stream |}.

(** A collection answers a query with its first [k] chunks, in one row, all
    at distance zero. *)
Definition first_k : list entry -> pyval -> Z -> result query_results :=
  fun coll _ k =>
    let hits := take (Z.to_nat k) coll in
    Ok {| documents := [map e_document hits];
          metadatas := [map e_metadata hits];
          distances := [map (fun _ => 0) hits] |}.

Definition chunk_of (tenant text : string) : entry :=
  {| e_id := "doc_0"; e_document := text;
     e_metadata := Some [("tenant_id", PStr tenant)];
     e_embedding := encode text |}.

(** The tenants file of the scenario: the key "abc123" belongs to "t1". *)
Definition demo_tenants : list (string * list (string * pyval)) :=
  [("t1", [("name", PStr "one"); ("api_key_hash", PStr (tag_digest "abc123"))]);
   ("t2", [("name", PStr "two"); ("api_key_hash", PStr (tag_digest "xyz789"))])].

(** A world with a self-hosted provider configured, the given collection
    and counter store, at time [t]. *)
Definition demo_world (coll : option (list entry)) (redis : redis_handle)
    (up : bool) (db : gmap string (Z * option Z)) (t : Z) : world :=
  {| proc := process_of (<["OLAMA_URL" := "http://localhost:11434"]> ∅);
     tenants := demo_tenants;
     sha256_hex := tag_digest;
     py_int := digits_int;
     chromadb_imported := true;
     rag_collection := coll;
     chroma_query := first_k;
     app_redis := redis;
     redis_reachable := up;
     redis_db := db;
     now := t;
     trace := [] |}.

Definition user_msg (content : string) : pyval :=
  PDict [("role", PStr "user"); ("content", PStr content)].

Definition demo_request (msgs : list pyval) (use_rag : bool) : ChatRequest :=
  {| messages := msgs; provider := "olama"; stream := false; rag := use_rag |}.

(** A store of [vector_store] as its import leaves it for the environment
    [env], with empty indexes, and an event loop running or not. *)
Definition demo_vstore (env : gmap string string)
    (pinecone_ok chroma_ok running : bool) : vstore :=
  {| globals := vector_store_import env pinecone_ok chroma_ok;
     vs_environ := env;
     pinecone_indexes := ∅;
     vs_collections := ∅;
     loop_running := running;
     scheduled := [];
     pinecone_query := fun _ _ _ => [];
     vs_chroma_query := first_k |}.

(** An environment that configures the primary index. *)
Definition pinecone_env : gmap string string :=
  <["PINECONE_API_KEY" := "pk"]> (<["PINECONE_ENV" := "us-east1"]> ∅).

(* ===================================================================== *)
(** * Notions used by the statements *)
(* ===================================================================== *)

(** A backend with a streaming method of its own. *)
Definition native_streaming (p : Provider) : bool :=
  match p with
  | GeminiProvider _ _ => true
  | _ => false
  end.

(** The two credential sources of the cloud backend, each yielding
    credential material or failing. *)
Definition ambient_source (P : process) : option auth_used :=
  if google_imported P then adc <$> adc_token P else None.

Definition static_source (api_key : option string) : option auth_used :=
  match api_key with
  | Some key => if str_truthy key then Some (api_key_auth key) else None
  | None => None
  end.

(** Sources tried in order; the first success wins. *)
Fixpoint first_success {A} (sources : list (option A)) : option A :=
  match sources with
  | [] => None
  | Some a :: _ => Some a
  | None :: rest => first_success rest
  end.

(** A provider that has what it needs to call its backend. *)
Definition configured (P : process) (p : Provider) : bool :=
  match p with
  | GeminiProvider k _ => bool_decide (is_Some (gemini_auth P k))
  | OlamaProvider u => opt_truthy u
  | OpenAIProvider k => opt_truthy k
  end.

(** The text a provider that lacks it returns as its reply. *)
Definition not_configured_reply (p : Provider) : string :=
  match p with
  | GeminiProvider _ _ => GEMINI_NO_CREDENTIALS
  | OlamaProvider _ => "(olama) olama URL not configured"
  | OpenAIProvider _ => "(openai) API key not set"
  end.

(** The shape of a receipt: the keys of the dict, in order. *)
Definition receipt_shape (v : pyval) : list string :=
  match v with
  | PDict d => map fst d
  | _ => []
  end.

(** The task [enqueue_documents] builds. *)
Definition task_of (texts : list string) (ids : option (list string))
    (tenant_id : option string) : task :=
  {| t_texts := texts;
     t_ids := match ids with
              | Some (i :: l) => i :: l
              | _ => default_ids texts
              end;
     t_tenant_id := tenant_id |}.

(** A durable queue is configured and a push can be scheduled. *)
Definition queue_usable (s : vstore) : bool :=
  (opt_truthy (vs_environ s !! "REDIS_URL") && loop_running s)%bool.

(** A message that is a dict with role ['user']. *)
Definition is_user_message (m : pyval) : bool :=
  match m with
  | PDict d => eq_str (py_get d "role") "user"
  | _ => false
  end.

Definition has_user_message (msgs : list pyval) : bool :=
  existsb is_user_message msgs.

Definition nonempty {A} (l : list A) : bool :=
  match l with [] => false | _ :: _ => true end.

(** What retrieval returns for a conversation in the world [w]: the answer
    to the query with the content of the last user message, top-k 3; a
    retrieval that raises counts as zero documents. *)
Definition retrieved_docs (w : world) (msgs : list pyval) : list retrieved :=
  match (rag_query (last_user msgs) 3 w).1 with
  | Ok docs => docs
  | Raise _ => []
  end.

(** The context assembly as the specification words it: the synthetic
    message is prepended when retrieval is enabled, the conversation has a
    user-role message and retrieval returned a document. *)
Definition spec_build (rag_enabled : bool) (msgs : list pyval)
    (docs : list retrieved) : list pyval :=
  if (rag_enabled && has_user_message msgs && nonempty docs)%bool
  then system_msg docs :: msgs
  else msgs.

(** The assembly with the condition the code tests: the content of the last
    user-role message is truthy. *)
Definition build (rag_enabled : bool) (msgs : list pyval)
    (docs : list retrieved) : list pyval :=
  if (rag_enabled && truthy (last_user msgs) && nonempty docs)%bool
  then system_msg docs :: msgs
  else msgs.

(** The tenant a retrieved document belongs to. *)
Definition tenant_of (d : retrieved) : pyval :=
  py_get (default [] (metadata d)) "tenant_id".

(** The messages a request handed to its provider, read off the trace. *)
Fixpoint sent_messages (t : list event) : option (list pyval) :=
  match t with
  | [] => None
  | EvSend _ msgs :: _ => Some msgs
  | EvSendStream _ msgs :: _ => Some msgs
  | _ :: t' => sent_messages t'
  end.

(** The outcome of the quota check for a post-increment value. *)
Definition verdict (cur ceiling : Z) : result unit :=
  if cur <=? ceiling then Ok tt
  else Raise (HTTPException 429 "Rate limit exceeded").

(** The quota checks of requests arriving at the given times, one after
    the other on the same counter store. *)
Fixpoint quota_checks (tenant_id : string) (times : list Z) (w : world)
  : list (result unit) :=
  match times with
  | [] => []
  | t :: times' =>
      let r := quota_check tenant_id (set_now t w) in
      r.1 :: quota_checks tenant_id times' r.2
  end.

(** The response of [chat] once the provider returned. *)
Definition reply_of (P : process) (p : Provider) (msgs : list pyval)
  : result pyval :=
  result_bind (send_messages P p msgs)
    (fun reply => Ok (PDict [("reply", reply)])).

(** The retrieval call an assembly makes, if it makes one. *)
Definition retrieval_events (req : ChatRequest) : list event :=
  if (rag req && truthy (last_user (messages req)))%bool
  then [EvRagQuery (last_user (messages req)) 3]
  else [].

(** The steps of a chat request in the order the code takes them:
    authenticate, resolve the provider, optionally retrieve, count the
    request (and set the expiry of a new counter), dispatch. *)
Inductive orch_state : Type :=
| Start
| Authenticated
| Resolved
| Retrieved
| Counted
| Expiring
| Dispatched.

Definition is_client (h : redis_handle) : bool :=
  match h with RedisClient => true | _ => false end.

(** The step an event takes from a state; [None] when the event is out of
    order.  With a client configured, a request is dispatched only after
    its counter was incremented. *)
Definition next (client : bool) (q : orch_state) (e : event)
  : option orch_state :=
  match q, e with
  | Start, EvVerifyKey _ => Some Authenticated
  | Authenticated, EvGetProvider _ => Some Resolved
  | Resolved, EvRagQuery _ _ => Some Retrieved
  | (Resolved | Retrieved), EvRedisIncr _ => Some Counted
  | Counted, EvRedisExpire _ _ => Some Expiring
  | (Counted | Expiring), (EvSend _ _ | EvSendStream _ _) => Some Dispatched
  | (Resolved | Retrieved), (EvSend _ _ | EvSendStream _ _) =>
      if client then None else Some Dispatched
  | _, _ => None
  end.

Fixpoint run (client : bool) (q : orch_state) (t : list event)
  : option orch_state :=
  match t with
  | [] => Some q
  | e :: t' =>
      match next client q e with
      | Some q' => run client q' t'
      | None => None
      end
  end.

(** The calls of a request are in order. *)
Definition in_order (client : bool) (t : list event) : Prop :=
  is_Some (run client Start t).

(** The order the claim gives: no retrieval query and no provider
    resolution before the quota check. *)
Definition is_quota_event (e : event) : bool :=
  match e with
  | EvRedisIncr _ | EvRedisExpire _ _ => true
  | _ => false
  end.

Definition retrieval_or_resolution (e : event) : bool :=
  match e with
  | EvRagQuery _ _ | EvGetProvider _ => true
  | _ => false
  end.

Definition quota_first (t : list event) : Prop :=
  forall (i j : nat) (e e' : event),
    t !! i = Some e -> t !! j = Some e' ->
    is_quota_event e = true -> retrieval_or_resolution e' = true ->
    (i < j)%nat.

(** The world [w] has the handle [h] and a trace that led to the state
    [q]. *)
Definition accepts (h : redis_handle) (q : orch_state) (w : world) : Prop :=
  app_redis w = h /\ run (is_client h) Start (trace w) = Some q.

(** From a world accepted in a state of [pre], the computation [m] leaves
    a world accepted in a state of [post] when it returns and of [epost]
    when it raises. *)
Definition triple (h : redis_handle) {A} (pre : orch_state -> Prop)
    (m : M world A) (post : A -> orch_state -> Prop)
    (epost : exc -> orch_state -> Prop) : Prop :=
  forall w q, accepts h q w -> pre q ->
    exists q', accepts h q' (m w).2
      /\ match (m w).1 with
         | Ok a => post a q'
         | Raise e => epost e q'
         end.

(** The postcondition that asks nothing of the state an exception leaves. *)
Definition anywhere : exc -> orch_state -> Prop := fun _ _ => True.

(** The states in which the quota check starts, and those it leaves when
    it passes: with a client the counter was incremented, without one
    nothing happened. *)
Definition before_quota (q : orch_state) : Prop :=
  q = Resolved \/ q = Retrieved.

Definition after_quota (h : redis_handle) (q : orch_state) : Prop :=
  if is_client h then q = Counted \/ q = Expiring else before_quota q.

(** What is known of the state an exception of the quota block leaves:
    an [AttributeError] arises only without a client, before any call. *)
Definition quota_epost (h : redis_handle) (e : exc) (q : orch_state) : Prop :=
  if is_AttributeError e then is_client h = false /\ before_quota q
  else True.

(** The tenant recorded in the metadata of a hit of [vector_store.query]. *)
Definition hit_tenant (v : pyval) : pyval :=
  match v with
  | PDict d =>
      match py_get d "metadata" with
      | PDict md => py_get md "tenant_id"
      | _ => PNone
      end
  | _ => PNone
  end.

(** The fixed text an echoing provider puts before the prompt. *)
Definition echo_prefix (p : Provider) : string :=
  match p with
  | OlamaProvider _ => "(olama) Placeholder reply to: "
  | OpenAIProvider _ => "(openai) Placeholder reply to: "
  | GeminiProvider _ _ => ""
  end.

(** [messages[-1]['content']], the prompt every provider reads. *)
Definition prompt_of (msgs : list pyval) : result pyval :=
  result_bind (py_last msgs) (fun m => py_getitem m "content").

(** A store of [vector_store] without the primary index, whose secondary
    collection holds the given chunks. *)
Definition chroma_vstore (coll : list entry) : vstore :=
  {| globals := vector_store_import ∅ false true;
     vs_environ := ∅;
     pinecone_indexes := ∅;
     vs_collections := <["gqx_collection" := coll]> ∅;
     loop_running := false;
     scheduled := [];
     pinecone_query := fun _ _ _ => [];
     vs_chroma_query := first_k |}.

(** The identifiers an upsert writes: the given ones, or the generated
    ones when none are given. *)
Definition upsert_ids (texts : list string) (ids : option (list string))
  : list string :=
  default (default_ids texts) ids.

(** The vectors stored under the configured index name. *)
Definition index_of (s : vstore) : gmap string (vector * pyval) :=
  default ∅ (pinecone_indexes s !! COLLECTION_NAME (globals s)).

(** Every character of a string passes a test. *)
Fixpoint str_forall (f : ascii -> bool) (s : string) : bool :=
  match s with
  | EmptyString => true
  | String c s' => (f c && str_forall f s')%bool
  end.

(** A non-empty string without white space: one word for [split]. *)
Definition is_word (s : string) : bool :=
  (str_truthy s && str_forall (fun c => negb (py_isspace c)) s)%bool.

(** The event list grows by the given events and nothing else changes. *)
Definition logged (evs : list event) (w : world) : world :=
  set_trace (fun t => t ++ evs) w.

(** A string without a slash. *)
Definition no_slash (s : string) : bool :=
  str_forall (fun c => negb (Ascii.eqb c "/")) s.

(** An upload state over a store of [vector_store], with an empty disk on
    which every write succeeds; bytes are decoded as they are. *)
Definition demo_upload (st : vstore) : upload_state :=
  {| up_store := st; files := ∅; UPLOAD_DIR := "./uploads";
     write_error := fun _ => None; decode_utf8_ignore := fun b => b |}.

(** The calls the quota check makes in the world [w], and the counter
    store it leaves. *)
Definition quota_calls (tenant_id : string) (w : world) : list event :=
  let key := quota_key tenant_id (now w) in
  match app_redis w with
  | RedisClient =>
      EvRedisIncr key
      :: (if (redis_reachable w
              && (incr_value (now w) key (redis_db w) =? 1))%bool
          then [EvRedisExpire key 61] else [])
  | _ => []
  end.

Definition quota_db (tenant_id : string) (w : world)
  : gmap string (Z * option Z) :=
  let key := quota_key tenant_id (now w) in
  match app_redis w with
  | RedisClient =>
      if redis_reachable w then
        if incr_value (now w) key (redis_db w) =? 1
        then expire_db (now w) key 61 (incr_db (now w) key (redis_db w))
        else incr_db (now w) key (redis_db w)
      else redis_db w
  | _ => redis_db w
  end.

(** The world after the quota checks of requests arriving at the given
    times. *)
Fixpoint after_checks (tenant_id : string) (times : list Z) (w : world)
  : world :=
  match times with
  | [] => w
  | t :: times' =>
      after_checks tenant_id times' (quota_check tenant_id (set_now t w)).2
  end.

(** An event that is the dispatch to a provider. *)
Definition is_dispatch (e : event) : bool :=
  match e with
  | EvSend _ _ | EvSendStream _ _ => true
  | _ => false
  end.

(** An event of the steps before retrieval: the key lookup and the
    provider resolution. *)
Definition is_admission_step (e : event) : bool :=
  match e with
  | EvVerifyKey _ | EvGetProvider _ => true
  | _ => false
  end.

(** A string without a colon. *)
Definition no_colon (s : string) : bool :=
  str_forall (fun c => negb (Ascii.eqb c ":")) s.

(* ===================================================================== *)
(** * Properties of the providers *)
(* ===================================================================== *)

(** Unfolds the monad of a goal down to pairs of a result and a world. *)
Ltac run_M :=
  unfold mbind, M_bind, mret, M_ret, gets, modify, raise, lift, log,
    try_except in *; simpl in *.

Section Slicing.

Local Open Scope nat_scope.

Lemma substring_none (s : string) (n : nat) : substring n 0 s = "".
Proof.
  revert n; induction s as [|c s IH]; intros [|n]; simpl; auto.
Qed.

Lemma substring_whole (s : string) : substring 0 (String.length s) s = s.
Proof.
  induction s as [|c s IH]; simpl; [reflexivity | now rewrite IH].
Qed.

Lemma substring_glue (s : string) (n a b : nat) :
  substring n a s +:+ substring (n + a) b s = substring n (a + b) s.
Proof.
  revert n a b; induction s as [|c s IH]; intros n a b.
  - destruct n, a, b; reflexivity.
  - destruct n as [|n].
    + destruct a as [|a]; simpl.
      * reflexivity.
      * rewrite <- (IH 0 a b). reflexivity.
    + simpl. apply IH.
Qed.

Lemma substring_beyond (s : string) (n m : nat) :
  String.length s - n <= m ->
  substring n m s = substring n (String.length s - n) s.
Proof.
  revert n m; induction s as [|c s IH]; intros n m Hm.
  - destruct n, m; reflexivity.
  - destruct n as [|n].
    + simpl in Hm. destruct m as [|m]; [lia|].
      simpl. f_equal. rewrite (IH 0 m) by lia.
      now rewrite Nat.sub_0_r.
    + simpl. apply IH. simpl in Hm. lia.
Qed.

Lemma substring_length (s : string) (n m : nat) :
  String.length (substring n m s) = Nat.min m (String.length s - n).
Proof.
  revert n m; induction s as [|c s IH]; intros n m.
  - destruct n, m; reflexivity.
  - destruct n as [|n].
    + destruct m as [|m]; simpl; [reflexivity|].
      rewrite (IH 0 m). now rewrite Nat.sub_0_r.
    + simpl. apply IH.
Qed.

Lemma append_empty_r (x : string) : x +:+ "" = x.
Proof.
  induction x as [|c x IH]; [reflexivity|].
  change (String c (x +:+ "") = String c x). now rewrite IH.
Qed.

Lemma append_assoc (x y z : string) : (x +:+ y) +:+ z = x +:+ (y +:+ z).
Proof.
  induction x as [|c x IH]; [reflexivity|].
  change (String c ((x +:+ y) +:+ z) = String c (x +:+ (y +:+ z))).
  now rewrite IH.
Qed.

Lemma join_empty_cons (x : string) (xs : list string) :
  py_join "" (x :: xs) = x +:+ py_join "" xs.
Proof.
  unfold py_join. destruct xs as [|y ys].
  - simpl. now rewrite append_empty_r.
  - reflexivity.
Qed.

Lemma join_empty_app (xs ys : list string) :
  py_join "" (xs ++ ys) = py_join "" xs +:+ py_join "" ys.
Proof.
  induction xs as [|x xs IH].
  - reflexivity.
  - rewrite <- app_comm_cons, !join_empty_cons, IH.
    now rewrite append_assoc.
Qed.

(** The loop [for i in range(start, len(reply), size)] with enough fuel
    yields the rest of the reply from [start] on. *)
Lemma range_chunks_join (reply : string) (size : nat) :
  0 < size ->
  forall fuel start,
    String.length reply <= start + fuel ->
    py_join ""
      (map (fun i => py_slice reply i (i + size))
           (range_from fuel start (String.length reply) size))
    = substring start (String.length reply - start) reply.
Proof.
  intros Hsize fuel; induction fuel as [|fuel IH]; intros start Hfuel.
  - simpl. replace (String.length reply - start) with 0 by lia.
    now rewrite substring_none.
  - simpl. destruct (start <? String.length reply) eqn:Hlt.
    + apply Nat.ltb_lt in Hlt.
      rewrite map_cons, join_empty_cons, IH by lia.
      unfold py_slice. replace (start + size - start) with size by lia.
      rewrite substring_glue.
      apply substring_beyond. lia.
    + apply Nat.ltb_ge in Hlt. simpl.
      replace (String.length reply - start) with 0 by lia.
      now rewrite substring_none.
Qed.

Lemma chunks_of_join (size : nat) (reply : string) :
  0 < size -> py_join "" (chunks_of size reply) = reply.
Proof.
  intros Hsize. unfold chunks_of, py_range.
  rewrite (range_chunks_join reply size Hsize) by lia.
  rewrite Nat.sub_0_r. apply substring_whole.
Qed.

(** Every index the loop visits is inside the reply. *)
Lemma range_from_bound (fuel start stop step i : nat) :
  In i (range_from fuel start stop step) -> start <= i < stop.
Proof.
  revert start; induction fuel as [|fuel IH]; intros start; simpl.
  - intros [].
  - destruct (start <? stop) eqn:Hlt; [|intros []].
    apply Nat.ltb_lt in Hlt.
    intros [<- | Hin]; [lia|].
    apply IH in Hin. lia.
Qed.

Lemma chunks_of_sizes (size : nat) (reply : string) :
  0 < size ->
  Forall (fun c => 1 <= String.length c <= size) (chunks_of size reply).
Proof.
  intros Hsize. unfold chunks_of, py_range.
  apply Forall_forall. intros c Hc.
  apply list_elem_of_In, in_map_iff in Hc as [i [<- Hi]].
  apply range_from_bound in Hi.
  unfold py_slice. rewrite substring_length. lia.
Qed.

End Slicing.

Section ProviderProperties.

Variable P : process.

(** The reply of a backend without a request of its own is a string. *)
Lemma send_messages_text (p : Provider) (msgs : list pyval) (reply : pyval) :
  native_streaming p = false ->
  send_messages P p msgs = Ok reply ->
  exists text, reply = PStr text.
Proof.
  intros Hnative.
  destruct p as [k e | u | k]; [discriminate Hnative | |]; simpl;
    unfold OlamaProvider_send_messages, OpenAIProvider_send_messages;
    (destruct (negb (opt_truthy _)); [intros [= <-]; eauto|]);
    (destruct (py_last msgs) as [m|]; [|discriminate]); simpl;
    (destruct (py_getitem m "content") as [c|]; [|discriminate]); simpl;
    (destruct c; try discriminate); intros [= <-]; eauto.
Qed.

(** C6. For a backend without a streaming method of its own, the stream
    synthesized by [BaseProvider.send_messages_stream] is a finite list of
    chunks; when [send_messages] returns a reply, the chunks are the
    slices [reply[64*j : 64*j + 64]], each of 1 to 64 characters, and their
    concatenation is that reply; when [send_messages] raises, the stream
    ends with the same exception before any chunk. *)
Theorem stream_fallback_concatenates (p : Provider) (msgs : list pyval) :
  native_streaming p = false ->
  match send_messages P p msgs with
  | Ok reply =>
      exists (text : string) (chunks : list string),
        reply = PStr text
        /\ send_messages_stream P p msgs = (map PStr chunks, None)
        /\ chunks = chunks_of chunk_size text
        /\ py_join "" chunks = text
        /\ Forall (fun c => (1 <= String.length c <= 64)%nat) chunks
  | Raise e => send_messages_stream P p msgs = ([], Some e)
  end.
Proof.
  intros Hnative.
  destruct (send_messages P p msgs) as [reply | ex] eqn:Hsend.
  - destruct (send_messages_text p msgs reply Hnative Hsend) as [text ->].
    exists text, (chunks_of chunk_size text).
    split; [reflexivity|]. split; [|split; [reflexivity|split]].
    + destruct p as [k e | u | k]; [discriminate Hnative | |];
        unfold send_messages_stream, BaseProvider_send_messages_stream;
        now rewrite Hsend.
    + apply chunks_of_join; unfold chunk_size; lia.
    + apply (chunks_of_sizes 64); lia.
  - destruct p as [k e | u | k]; [discriminate Hnative | |];
      unfold send_messages_stream, BaseProvider_send_messages_stream;
      now rewrite Hsend.
Qed.

(** C7. The cloud backend resolves its credential by trying the ambient
    source (Application Default Credentials) first and the configured API
    key second, the first success winning, and [send_messages] sends its
    request with the credential so resolved.  With an ambient token the
    request carries the token in its Authorization header and no key,
    whatever key is configured; when the ambient source fails and a key
    is configured, the request carries the key as its query parameter and
    no Authorization header; when both fail, [send_messages] sends no
    request and returns the placeholder string for every message sequence
    instead of raising. *)
Theorem gemini_credential_fallback
    (api_key endpoint : option string) (msgs : list pyval) :
  gemini_auth P api_key
    = first_success [ambient_source P; static_source api_key]
  /\ (forall token, ambient_source P = Some (adc token) ->
        gemini_auth P api_key = Some (adc token)
        /\ GeminiProvider_send_messages P api_key endpoint msgs
           = result_bind (prompt_of msgs) (fun prompt =>
               Ok (gemini_post P
                     {| rq_url := gemini_endpoint P endpoint;
                        rq_json := [("prompt", prompt)];
                        rq_params := [];
                        rq_headers :=
                          [("Content-Type", "application/json");
                           ("Authorization", "Bearer " +:+ token)] |})))
  /\ (forall key, ambient_source P = None -> api_key = Some key ->
        str_truthy key = true ->
        gemini_auth P api_key = Some (api_key_auth key)
        /\ GeminiProvider_send_messages P api_key endpoint msgs
           = result_bind (prompt_of msgs) (fun prompt =>
               Ok (gemini_post P
                     {| rq_url := gemini_endpoint P endpoint;
                        rq_json := [("prompt", prompt)];
                        rq_params := [("key", key)];
                        rq_headers :=
                          [("Content-Type", "application/json")] |})))
  /\ (ambient_source P = None -> static_source api_key = None ->
        gemini_auth P api_key = None
        /\ GeminiProvider_send_messages P api_key endpoint msgs
           = Ok (PStr GEMINI_NO_CREDENTIALS)).
Proof.
  assert (Hchain : gemini_auth P api_key
                   = first_success [ambient_source P; static_source api_key]).
  { unfold gemini_auth, ambient_source, static_source; simpl.
    destruct (google_imported P); [destruct (adc_token P)|]; simpl;
      destruct api_key as [key|]; try reflexivity;
      destruct (str_truthy key); reflexivity. }
  split; [exact Hchain|]. split; [|split].
  - intros token Ha.
    assert (Hauth : gemini_auth P api_key = Some (adc token))
      by (rewrite Hchain, Ha; reflexivity).
    split; [exact Hauth|].
    unfold GeminiProvider_send_messages, prompt_of. rewrite Hauth.
    destruct (py_last msgs) as [m|]; [|reflexivity]. simpl.
    destruct (py_getitem m "content"); reflexivity.
  - intros key Ha -> Hkey.
    assert (Hauth : gemini_auth P (Some key) = Some (api_key_auth key))
      by (rewrite Hchain, Ha; simpl; now rewrite Hkey).
    split; [exact Hauth|].
    unfold GeminiProvider_send_messages, prompt_of. rewrite Hauth.
    destruct (py_last msgs) as [m|]; [|reflexivity]. simpl.
    destruct (py_getitem m "content"); reflexivity.
  - intros Ha Hs.
    assert (Hauth : gemini_auth P api_key = None)
      by (rewrite Hchain, Ha, Hs; reflexivity).
    split; [exact Hauth|].
    unfold GeminiProvider_send_messages. now rewrite Hauth.
Qed.

(** C10 (amended). Every provider's [send_messages] reads only the last
    message; on the empty sequence a configured provider raises
    [IndexError], while a provider that is not configured returns its
    placeholder string; so a configured provider returns only on a
    non-empty sequence. *)
Theorem send_messages_on_empty (p : Provider) :
  send_messages P p []
    = (if configured P p then Raise IndexError
       else Ok (PStr (not_configured_reply p)))
  /\ (forall msgs m,
        send_messages P p (msgs ++ [m]) = send_messages P p [m])
  /\ (forall msgs,
        configured P p = true -> is_Ok (send_messages P p msgs) = true ->
        msgs <> []).
Proof.
  assert (Hempty : send_messages P p []
                   = if configured P p then Raise IndexError
                     else Ok (PStr (not_configured_reply p))).
  { destruct p as [k e | u | k]; simpl.
    - unfold GeminiProvider_send_messages.
      destruct (gemini_auth P k) as [a|] eqn:Ha.
      + rewrite bool_decide_true by eauto. reflexivity.
      + rewrite bool_decide_false by (intros [? ?]; discriminate).
        reflexivity.
    - unfold OlamaProvider_send_messages. now destruct (opt_truthy u).
    - unfold OpenAIProvider_send_messages. now destruct (opt_truthy k). }
  repeat split.
  - exact Hempty.
  - intros msgs m.
    assert (Hlast : py_last (msgs ++ [m]) = py_last [m]).
    { unfold py_last. now rewrite last_snoc. }
    destruct p as [k e | u | k]; simpl;
      unfold GeminiProvider_send_messages, OlamaProvider_send_messages,
             OpenAIProvider_send_messages;
      now rewrite Hlast.
  - intros msgs Hconf Hok ->. rewrite Hempty, Hconf in Hok. discriminate.
Qed.

End ProviderProperties.

(** Each part of the credential fallback at a concrete process whose
    endpoint answers with the credential it was sent: the ambient token
    wins over a configured key, which is then not sent; the key is sent
    when the ambient source fails; and the placeholder is returned, on the
    empty conversation too, when both fail. *)
Lemma gemini_credential_fallback_witness :
  GeminiProvider_send_messages
    {| environ := ∅; google_imported := true; adc_token := Some "tok";
       gemini_post := show_credential; gemini_stream := failing_stream |}
    (Some "key") None [user_msg "hi"]
    = Ok (PStr "Content-Type=application/json&Authorization=Bearer tok")
  /\ GeminiProvider_send_messages
       {| environ := ∅; google_imported := true; adc_token := None;
          gemini_post := show_credential; gemini_stream := failing_stream |}
       (Some "key") None [user_msg "hi"]
     = Ok (PStr "key=key&Content-Type=application/json")
  /\ GeminiProvider_send_messages (process_of ∅) None None []
     = Ok (PStr GEMINI_NO_CREDENTIALS).
Proof.
  split; [|split].
  - destruct (gemini_credential_fallback
                {| environ := ∅; google_imported := true;
                   adc_token := Some "tok"; gemini_post := show_credential;
                   gemini_stream := failing_stream |}
                (Some "key") None [user_msg "hi"])
      as (_ & Hadc & _).
    destruct (Hadc "tok" eq_refl) as [_ Hsend]. exact Hsend.
  - destruct (gemini_credential_fallback
                {| environ := ∅; google_imported := true;
                   adc_token := None; gemini_post := show_credential;
                   gemini_stream := failing_stream |}
                (Some "key") None [user_msg "hi"])
      as (_ & _ & Hkey & _).
    destruct (Hkey "key" eq_refl eq_refl eq_refl) as [_ Hsend]. exact Hsend.
  - destruct (gemini_credential_fallback (process_of ∅) None None [])
      as (_ & _ & _ & Hnone).
    destruct (Hnone eq_refl eq_refl) as [_ Hsend]. exact Hsend.
Defined.

Lemma stream_fallback_concatenates_witness :
  native_streaming (OlamaProvider (Some "http://localhost:11434")) = false
  /\ match send_messages (process_of ∅)
             (OlamaProvider (Some "http://localhost:11434")) [user_msg "hi"]
     with
     | Ok reply =>
         exists (text : string) (chunks : list string),
           reply = PStr text
           /\ send_messages_stream (process_of ∅)
                (OlamaProvider (Some "http://localhost:11434"))
                [user_msg "hi"]
              = (map PStr chunks, None)
           /\ chunks = chunks_of chunk_size text
           /\ py_join "" chunks = text
           /\ Forall (fun c => (1 <= String.length c <= 64)%nat) chunks
     | Raise e =>
         send_messages_stream (process_of ∅)
           (OlamaProvider (Some "http://localhost:11434")) [user_msg "hi"]
         = ([], Some e)
     end.
Proof.
  split; [reflexivity|].
  apply (stream_fallback_concatenates (process_of ∅)
           (OlamaProvider (Some "http://localhost:11434")) [user_msg "hi"]).
  reflexivity.
Defined.

(** The claim that every provider fails with an index error on the empty
    sequence does not hold: a self-hosted provider without a URL returns its
    placeholder. *)
Lemma send_on_empty_not_always_IndexError :
  send_messages (process_of ∅) (OlamaProvider None) []
    = Ok (PStr "(olama) olama URL not configured")
  /\ ~ (forall (P : process) (p : Provider),
          send_messages P p [] = Raise IndexError).
Proof.
  split; [reflexivity|].
  intros H. specialize (H (process_of ∅) (OlamaProvider None)).
  discriminate H.
Qed.

Lemma send_messages_on_empty_witness :
  configured (process_of ∅) (OlamaProvider (Some "u")) = true
  /\ is_Ok (send_messages (process_of ∅) (OlamaProvider (Some "u"))
              [user_msg "hi"]) = true
  /\ [user_msg "hi"] <> [].
Proof.
  split; [reflexivity|]. split; [reflexivity|].
  apply (send_messages_on_empty (process_of ∅) (OlamaProvider (Some "u")));
    reflexivity.
Defined.

(* ===================================================================== *)
(** * Properties of the vector store *)
(* ===================================================================== *)

Section VectorStoreProperties.

Variables (texts : list string) (ids : option (list string))
          (tenant_id : option string).

(** Without the primary index the call stops at [idx.upsert]: the local
    [idx] is unbound, nothing is stored and no receipt is returned. *)
Lemma upsert_without_primary (s : vstore) :
  _use_pinecone (globals s) = false ->
  upsert_documents texts ids tenant_id s
    = (Raise (UnboundLocalError "idx"), s).
Proof.
  intros Hoff. unfold upsert_documents, mbind, M_bind, gets.
  now rewrite Hoff.
Qed.

(** C8 (amended). [enqueue_documents] has two paths.  When a queue is
    configured and the push can be scheduled, it schedules the push of the
    task and returns [{'enqueued': n}] for the [n] identifiers of the
    task, without touching the index.  Otherwise it is the synchronous
    [upsert_documents], result and store alike.  The two kinds of receipt
    have different keys. *)
Theorem enqueue_documents_paths (s : vstore) :
  enqueue_documents texts ids tenant_id s
    = (if queue_usable s
       then (Ok (enqueue_receipt
                   (length (t_ids (task_of texts ids tenant_id)))),
             set_scheduled
               (fun q => q ++ [task_of texts ids tenant_id]) s)
       else upsert_documents texts ids tenant_id s)
  /\ (forall n m name,
        receipt_shape (enqueue_receipt n)
          <> receipt_shape (upsert_receipt m name)).
Proof.
  split; [|intros n m name; discriminate].
  unfold enqueue_documents, queue_usable, task_of.
  unfold mbind at 1; unfold M_bind at 1; unfold gets at 1.
  destruct (opt_truthy (vs_environ s !! "REDIS_URL")) eqn:Hurl; simpl;
    [|reflexivity].
  unfold try_except, create_task_push, mbind, M_bind, gets, modify, raise,
    mret, M_ret.
  destruct (loop_running s); reflexivity.
Qed.

End VectorStoreProperties.

Section TenantFilter.

Variable t : string.
Hypothesis t_truthy : str_truthy t = true.

Lemma eq_str_true (v : pyval) (lit : string) :
  eq_str v lit = true -> v = PStr lit.
Proof.
  destruct v; simpl; try discriminate.
  intros H. apply String.eqb_eq in H. now subst.
Qed.

Lemma other_tenant_false (md : list (string * pyval)) :
  other_tenant (Some t) md = false -> py_get md "tenant_id" = PStr t.
Proof.
  unfold other_tenant. rewrite t_truthy. simpl.
  intros H. apply negb_false_iff in H. now apply eq_str_true.
Qed.

Lemma chroma_row_out_scoped row out :
  chroma_row_out (Some t) row = Ok out ->
  Forall (fun d => hit_tenant (retrieved_dict d) = PStr t) out.
Proof.
  revert out; induction row as [|[[doc meta] dist] row IH]; intros out.
  - intros [= <-]. constructor.
  - cbn [chroma_row_out]. unfold skips. cbn [opt_truthy].
    rewrite t_truthy.
    destruct meta as [md|]; [|discriminate]. cbn [result_bind].
    destruct (chroma_row_out (Some t) row) as [rest|] eqn:Hrest;
      [|discriminate].
    cbn [result_bind].
    destruct (other_tenant (Some t) md) eqn:Hother; intros [= <-].
    + now apply IH.
    + constructor; [|now apply IH].
      now apply other_tenant_false.
Qed.

Lemma chroma_rows_out_scoped rows out :
  chroma_rows_out (Some t) rows = Ok out ->
  Forall (fun d => hit_tenant (retrieved_dict d) = PStr t) out.
Proof.
  revert out; induction rows as [|[[docs metas] dists] rows IH]; intros out.
  - intros [= <-]. constructor.
  - cbn [chroma_rows_out].
    destruct (chroma_row_out (Some t) (zip3 docs metas dists))
      as [a|] eqn:Ha; [|discriminate]. cbn [result_bind].
    destruct (chroma_rows_out (Some t) rows) as [b|] eqn:Hb;
      [|discriminate].
    cbn [result_bind]. intros [= <-]. apply Forall_app. split.
    + exact (chroma_row_out_scoped _ _ Ha).
    + now apply IH.
Qed.

Lemma pinecone_out_scoped (matches : list pc_match) :
  Forall (fun v => hit_tenant v = PStr t) (pinecone_out (Some t) matches).
Proof.
  unfold pinecone_out.
  induction matches as [|mt matches IH]; cbn [omap list_omap].
  - constructor.
  - destruct (other_tenant (Some t) (default [] (m_metadata mt)))
      eqn:Hother; [exact IH|].
    constructor; [|exact IH].
    now apply other_tenant_false.
Qed.

(** X6. The query of [vector_store] is tenant-scoped: asked with a
    non-empty tenant, it returns only hits whose metadata carries that
    tenant, on the Pinecone path and on the Chroma path. *)
Lemma vector_store_query_scoped (text : string) (k : Z) (s : vstore)
    (out : list pyval) :
  (vector_store_query text k (Some t) s).1 = Ok out ->
  Forall (fun v => hit_tenant v = PStr t) out.
Proof.
  unfold vector_store_query. run_M.
  destruct (_use_pinecone (globals s)); simpl.
  - destruct (pinecone_indexes s !! COLLECTION_NAME (globals s));
      simpl; intros [= <-]; [apply pinecone_out_scoped | constructor].
  - destruct (_chroma_ready (globals s)); simpl;
      [|intros [= <-]; constructor].
    destruct (vs_collections s !! COLLECTION_NAME (globals s)) as [coll|];
      simpl; [|discriminate].
    destruct (vs_chroma_query s coll (PStr text) k) as [results|];
      simpl; [|discriminate].
    destruct (chroma_rows_out (Some t) _) as [hits|] eqn:Hhits;
      simpl; [|discriminate].
    intros [= <-]. apply Forall_map.
    now apply chroma_rows_out_scoped in Hhits.
Qed.

End TenantFilter.

(** The receipts of the two paths differ: with a queue the caller gets the
    key [enqueued], without one (and the primary index configured) the keys
    [upserted] and [provider]. *)
Lemma enqueue_receipts_differ :
  (enqueue_documents ["a"] None (Some "t1")
     (demo_vstore (<["REDIS_URL" := "redis://q"]> pinecone_env)
                  true true true)).1
    = Ok (PDict [("enqueued", PInt 1)])
  /\ (enqueue_documents ["a"] None (Some "t1")
        (demo_vstore pinecone_env true true true)).1
    = Ok (PDict [("upserted", PInt 1); ("provider", PStr "pinecone")])
  /\ ~ (forall s1 s2 r1 r2,
          (enqueue_documents ["a"] None (Some "t1") s1).1 = Ok r1 ->
          (enqueue_documents ["a"] None (Some "t1") s2).1 = Ok r2 ->
          receipt_shape r1 = receipt_shape r2).
Proof.
  assert (H1 : (enqueue_documents ["a"] None (Some "t1")
     (demo_vstore (<["REDIS_URL" := "redis://q"]> pinecone_env)
                  true true true)).1
    = Ok (PDict [("enqueued", PInt 1)])) by (vm_compute; reflexivity).
  assert (H2 : (enqueue_documents ["a"] None (Some "t1")
        (demo_vstore pinecone_env true true true)).1
    = Ok (PDict [("upserted", PInt 1); ("provider", PStr "pinecone")]))
    by (vm_compute; reflexivity).
  split; [exact H1|]. split; [exact H2|].
  intros H. specialize (H _ _ _ _ H1 H2). discriminate H.
Qed.

(** C9, the code at a failing input: the primary index is not configured,
    the secondary one is available, and the upsert of one document raises
    instead of returning a receipt. *)
Lemma upsert_secondary_raises :
  _use_pinecone (globals (demo_vstore ∅ false true false)) = false
  /\ _chroma_ready (globals (demo_vstore ∅ false true false)) = true
  /\ upsert_documents ["hello"] None (Some "t1")
       (demo_vstore ∅ false true false)
     = (Raise (UnboundLocalError "idx"), demo_vstore ∅ false true false).
Proof.
  split; [reflexivity|]. split; [reflexivity|].
  apply upsert_without_primary. reflexivity.
Qed.

(* ===================================================================== *)
(** * Properties of the orchestrator *)
(* ===================================================================== *)

Section ContextAssembly.

Lemma scan_user_truthy (l : list pyval) :
  truthy (scan_user l) = true -> existsb is_user_message l = true.
Proof.
  induction l as [|m l IH]; simpl; [discriminate|].
  intros H. destruct m as [| | | |?|d]; simpl; auto.
  destruct (eq_str (py_get d "role") "user"); simpl; auto.
Qed.

Lemma last_user_truthy (msgs : list pyval) :
  truthy (last_user msgs) = true -> has_user_message msgs = true.
Proof.
  unfold last_user, has_user_message. intros H.
  apply scan_user_truthy in H.
  apply existsb_exists in H as [m [Hin Hm]].
  apply existsb_exists. exists m. split; [|exact Hm].
  now apply in_rev.
Qed.

Lemma augment_result (req : ChatRequest) (w : world) :
  (augment req w).1
    = Ok (build (rag req) (messages req)
            (retrieved_docs w (messages req))).
Proof.
  unfold augment, build, retrieved_docs.
  destruct (rag req); [|reflexivity].
  destruct (truthy (last_user (messages req))); [|reflexivity].
  unfold try_except, mbind, M_bind.
  destruct (rag_query (last_user (messages req)) 3 w) as [[docs|e] w'];
    simpl; [|reflexivity].
  destruct docs; reflexivity.
Qed.

(** C5 (amended). The message list [chat] and [chat_stream] hand on is the
    reference assembly [build]: the synthetic system message, with the
    retrieved texts joined by a blank line after the fixed header, is
    prepended to the unchanged conversation exactly when retrieval is
    enabled, the content of the last user-role message is truthy and
    retrieval returns a document; in every other case it is the input.
    [build] differs from the assembly of the specification only where a
    user-role message exists whose content is falsy. *)
Theorem augment_is_build (req : ChatRequest) (w : world) :
  (augment req w).1
    = Ok (build (rag req) (messages req)
            (retrieved_docs w (messages req)))
  /\ (truthy (last_user (messages req)) = true ->
      has_user_message (messages req) = true)
  /\ (forall docs,
        truthy (last_user (messages req))
          = has_user_message (messages req) ->
        build (rag req) (messages req) docs
          = spec_build (rag req) (messages req) docs).
Proof.
  split; [|split].
  - apply augment_result.
  - apply last_user_truthy.
  - intros docs H. unfold build, spec_build. now rewrite H.
Qed.

End ContextAssembly.

Lemma augment_is_build_witness :
  truthy (last_user [user_msg "What is X?"]) = true
  /\ has_user_message [user_msg "What is X?"] = true.
Proof.
  split; [reflexivity|].
  apply (augment_is_build (demo_request [user_msg "What is X?"] true)
           (demo_world None RedisUnset false ∅ 0)).
  reflexivity.
Defined.

(** The scenario of the specification: one document "X is a thing." is
    retrieved for the question "What is X?". *)
Example assembly_scenario :
  (augment (demo_request [user_msg "What is X?"] true)
     (demo_world (Some [chunk_of "t1" "X is a thing."])
        RedisUnset false ∅ 0)).1
  = Ok [PDict [("role", PStr "system");
               ("content",
                PStr ("Relevant documents:" +:+ LF +:+ "X is a thing."))];
        user_msg "What is X?"].
Proof. reflexivity. Qed.

(** The assembly of the specification is not what the code computes: for a
    user message with empty content the code skips retrieval and returns
    the input, although a user-role message exists and the store would
    return a document. *)
Lemma empty_user_content_not_augmented :
  (augment (demo_request [user_msg ""] true)
     (demo_world (Some [chunk_of "t1" "X is a thing."])
        RedisUnset false ∅ 0)).1
    = Ok [user_msg ""]
  /\ (augment (demo_request [user_msg ""] true)
        (demo_world (Some [chunk_of "t1" "X is a thing."])
           RedisUnset false ∅ 0)).1
     <> Ok (spec_build true [user_msg ""]
              (retrieved_docs
                 (demo_world (Some [chunk_of "t1" "X is a thing."])
                    RedisUnset false ∅ 0)
                 [user_msg ""])).
Proof.
  split; [reflexivity|].
  vm_compute. discriminate.
Qed.

(** C1, the code at a failing input: the collection holds one chunk of
    tenant "t2"; tenant "t1" asks a question with retrieval enabled; the
    query carries no tenant, returns that chunk, and its text is merged
    into the messages sent to the provider. *)
Lemma chat_merges_other_tenant :
  let w := demo_world (Some [chunk_of "t2" "secret of t2"])
             RedisUnset false ∅ 0 in
  let req := demo_request [user_msg "What is X?"] true in
  (get_tenant_from_header (Some "Bearer abc123") w).1 = Ok "t1"
  /\ map tenant_of (retrieved_docs w (messages req)) = [PStr "t2"]
  /\ sent_messages (trace (post_chat (Some "Bearer abc123") req w).2)
     = Some [PDict [("role", PStr "system");
                    ("content",
                     PStr ("Relevant documents:" +:+ LF +:+ "secret of t2"))];
             user_msg "What is X?"].
Proof.
  repeat split; vm_compute; reflexivity.
Qed.

Section Quota.

Variable tenant_id : string.

Lemma set_trace_nil (w : world) : set_trace (fun t => t ++ []) w = w.
Proof. destruct w. unfold set_trace. simpl. now rewrite app_nil_r. Qed.

(** Retrieval logs its call and changes nothing else. *)
Lemma rag_query_world (q : pyval) (k : Z) (w : world) :
  (rag_query q k w).2 = set_trace (fun t => t ++ [EvRagQuery q k]) w.
Proof.
  unfold rag_query. run_M.
  destruct (chromadb_imported w); simpl; [|reflexivity].
  destruct (rag_collection w) as [coll|]; simpl; [|reflexivity].
  destruct (chroma_query w coll q k); reflexivity.
Qed.

Lemma retrieved_docs_ignores_trace (f : list event -> list event)
    (w : world) (msgs : list pyval) :
  retrieved_docs (set_trace f w) msgs = retrieved_docs w msgs.
Proof.
  unfold retrieved_docs, rag_query. run_M.
  destruct (chromadb_imported w); simpl; [|reflexivity].
  destruct (rag_collection w) as [coll|]; simpl; [|reflexivity].
  destruct (chroma_query w coll (last_user msgs) 3); reflexivity.
Qed.

Lemma augment_world (req : ChatRequest) (w : world) :
  (augment req w).2 = set_trace (fun t => t ++ retrieval_events req) w.
Proof.
  unfold augment, retrieval_events.
  destruct (rag req); simpl; [|now rewrite set_trace_nil].
  destruct (truthy (last_user (messages req))); simpl;
    [|now rewrite set_trace_nil].
  pose proof (rag_query_world (last_user (messages req)) 3 w) as Hw.
  unfold try_except, mbind, M_bind.
  destruct (rag_query (last_user (messages req)) 3 w) as [[docs|e] w'];
    simpl in *; subst w'; [destruct docs|]; reflexivity.
Qed.

(** The check reads the counter store, the clock and the ceiling; the
    calls logged before it do not matter to its outcome. *)
Lemma quota_check_ignores_trace (f : list event -> list event) (w : world) :
  (quota_check tenant_id (set_trace f w)).1 = (quota_check tenant_id w).1.
Proof.
  unfold quota_check, redis_incr, redis_expire, read_max_per_min. run_M.
  destruct (app_redis w); simpl; try reflexivity.
  destruct (redis_reachable w) eqn:Hup; simpl; [|reflexivity].
  destruct (incr_value (now w) (quota_key tenant_id (now w)) (redis_db w)
            =? 1); simpl; rewrite ?Hup; simpl;
    (match goal with
     | |- context [py_int w ?x] => destruct (py_int w x)
     end); simpl; try reflexivity;
    match goal with |- context [?a >? ?b] => destruct (a >? b) end;
    reflexivity.
Qed.

(** With a reachable counter store and a readable ceiling, the check is
    the verdict on the post-increment value. *)
Lemma quota_check_client (w : world) (ceiling : Z) :
  app_redis w = RedisClient ->
  redis_reachable w = true ->
  read_max_per_min w = Ok ceiling ->
  let key := quota_key tenant_id (now w) in
  let cur := incr_value (now w) key (redis_db w) in
  (quota_check tenant_id w).1 = verdict cur ceiling
  /\ redis_db (quota_check tenant_id w).2
     = (if cur =? 1
        then expire_db (now w) key 61 (incr_db (now w) key (redis_db w))
        else incr_db (now w) key (redis_db w))
  /\ app_redis (quota_check tenant_id w).2 = RedisClient
  /\ redis_reachable (quota_check tenant_id w).2 = true
  /\ read_max_per_min (quota_check tenant_id w).2 = Ok ceiling.
Proof.
  intros Hc Hup Hmax key cur. subst key cur.
  pose proof Hmax as Hm.
  unfold quota_check, redis_incr, redis_expire, verdict.
  unfold read_max_per_min in Hm |- *. run_M.
  rewrite Hc; simpl. rewrite Hup; simpl.
  destruct (incr_value (now w) (quota_key tenant_id (now w)) (redis_db w)
            =? 1) eqn:Hone; simpl; rewrite ?Hup; simpl;
    (match type of Hm with
     | context [py_int w ?x] => destruct (py_int w x) as [n|]
     end); try discriminate;
    injection Hm as ->; simpl;
    rewrite Z.gtb_ltb, Z.ltb_antisym;
    destruct (_ <=? ceiling); simpl; rewrite ?Hc, ?Hup;
    repeat split; exact Hmax.
Qed.

(** Without a client the check does nothing and passes. *)
Lemma quota_check_no_client (w : world) :
  app_redis w <> RedisClient -> quota_check tenant_id w = (Ok tt, w).
Proof.
  intros Hc. unfold quota_check, redis_incr. run_M.
  destruct (app_redis w); [reflexivity | reflexivity | congruence].
Qed.

(** With a client whose server does not answer, the check raises. *)
Lemma quota_check_unreachable (w : world) :
  app_redis w = RedisClient -> redis_reachable w = false ->
  (quota_check tenant_id w).1 = Raise ConnectionError.
Proof.
  intros Hc Hdown. unfold quota_check, redis_incr. run_M.
  rewrite Hc; simpl. now rewrite Hdown.
Qed.

(** [chat] once the provider is resolved: the outcome of the quota check
    decides between its exception and the reply of the provider to the
    assembled messages. *)
Lemma chat_result (req : ChatRequest) (w : world) (p : Provider) :
  get_provider (proc w) (provider req) = Some p ->
  (chat req tenant_id w).1
    = match (quota_check tenant_id w).1 with
      | Ok _ => reply_of (proc w) p
                  (build (rag req) (messages req)
                     (retrieved_docs w (messages req)))
      | Raise e => Raise e
      end.
Proof.
  intros Hp. unfold chat, reply_of.
  unfold mbind at 1. unfold M_bind at 1. unfold gets at 1.
  unfold mbind at 1. unfold M_bind at 1. unfold log at 1.
  unfold modify at 1. rewrite Hp.
  set (w0 := set_trace _ w).
  unfold mbind at 1. unfold M_bind at 1.
  pose proof (augment_world req w0) as Hw.
  pose proof (augment_result req w0) as Hr.
  destruct (augment req w0) as [r w1]; simpl in Hw, Hr; subst r w1.
  unfold mbind at 1. unfold M_bind at 1.
  rewrite <- (quota_check_ignores_trace
                (fun t => t ++ [EvGetProvider (provider req)]) w).
  fold w0.
  rewrite <- (quota_check_ignores_trace
                (fun t => t ++ retrieval_events req) w0).
  destruct (quota_check tenant_id
              (set_trace (fun t => t ++ retrieval_events req) w0))
    as [[[]|e] w2]; simpl; [|reflexivity].
  run_M.
  unfold w0. rewrite retrieved_docs_ignores_trace.
  destruct (send_messages (proc w) p _); reflexivity.
Qed.

Lemma chat_stream_result (req : ChatRequest) (w : world) (p : Provider) :
  get_provider (proc w) (provider req) = Some p ->
  (chat_stream req tenant_id w).1
    = match (quota_check tenant_id w).1 with
      | Ok _ => Ok (event_stream (proc w) p
                      (build (rag req) (messages req)
                         (retrieved_docs w (messages req))))
      | Raise e => Raise e
      end.
Proof.
  intros Hp. unfold chat_stream.
  unfold mbind at 1. unfold M_bind at 1. unfold gets at 1.
  unfold mbind at 1. unfold M_bind at 1. unfold log at 1.
  unfold modify at 1. rewrite Hp.
  set (w0 := set_trace _ w).
  unfold mbind at 1. unfold M_bind at 1.
  pose proof (augment_world req w0) as Hw.
  pose proof (augment_result req w0) as Hr.
  destruct (augment req w0) as [r w1]; simpl in Hw, Hr; subst r w1.
  unfold mbind at 1. unfold M_bind at 1.
  rewrite <- (quota_check_ignores_trace
                (fun t => t ++ [EvGetProvider (provider req)]) w).
  fold w0.
  rewrite <- (quota_check_ignores_trace
                (fun t => t ++ retrieval_events req) w0).
  destruct (quota_check tenant_id
              (set_trace (fun t => t ++ retrieval_events req) w0))
    as [[[]|e] w2]; simpl; [|reflexivity].
  run_M.
  unfold w0. now rewrite retrieved_docs_ignores_trace.
Qed.

(** The counter after an increment: the key is live and holds the
    post-increment value. *)
Lemma incr_db_live (t : Z) (key : string)
    (db : gmap string (Z * option Z)) :
  exists d,
    incr_db t key db !! key = Some (incr_value t key db, d)
    /\ redis_live t (incr_db t key db) key
       = Some (incr_value t key db, d).
Proof.
  unfold incr_db, incr_value, redis_live.
  destruct (db !! key) as [[v [dl|]]|] eqn:Hk.
  - destruct (t <? dl) eqn:Hlive.
    + exists (Some dl). rewrite lookup_insert_eq, Hlive. auto.
    + exists None. rewrite lookup_insert_eq. auto.
  - exists None. rewrite lookup_insert_eq. auto.
  - exists None. rewrite lookup_insert_eq. auto.
Qed.

Lemma expire_after_incr (t seconds : Z) (key : string)
    (db : gmap string (Z * option Z)) :
  expire_db t key seconds (incr_db t key db) !! key
    = Some (incr_value t key db, Some (t + seconds)).
Proof.
  destruct (incr_db_live t key db) as [d [_ Hlive]].
  unfold expire_db. rewrite Hlive. apply lookup_insert_eq.
Qed.

Lemma bucket_bounds (t b : Z) :
  t / 60 = b -> 60 * b <= t < 60 * (b + 1).
Proof.
  intros <-.
  pose proof (Z.div_mod t 60 ltac:(lia)) as Heq.
  pose proof (Z.mod_pos_bound t 60 ltac:(lia)) as Hmod.
  lia.
Qed.

(** All times of a bucket give the same key. *)
Lemma quota_key_bucket (t b : Z) :
  t / 60 = b -> quota_key tenant_id t = quota_key tenant_id (60 * b).
Proof.
  intros <-. unfold quota_key.
  rewrite (Z.mul_comm 60), Z.div_mul by lia. reflexivity.
Qed.

(** Inside a bucket whose counter holds [j >= 1] and outlives the
    bucket, the i-th next request sees the value [j + i + 1]. *)
Lemma quota_checks_running (b ceiling : Z) (times : list Z) :
  Forall (fun t => t / 60 = b) times ->
  forall (w : world) (j d : Z),
    app_redis w = RedisClient ->
    redis_reachable w = true ->
    read_max_per_min w = Ok ceiling ->
    redis_db w !! quota_key tenant_id (60 * b) = Some (j, Some d) ->
    1 <= j -> 60 * (b + 1) <= d ->
    forall (i : nat) (r : result unit),
      quota_checks tenant_id times w !! i = Some r ->
      r = verdict (j + Z.of_nat i + 1) ceiling.
Proof.
  induction 1 as [|t times Ht _ IH]; intros w j d Hc Hup Hmax Hk Hj Hd i r.
  - intros Hi. discriminate Hi.
  - simpl.
    destruct (quota_check_client (set_now t w) ceiling Hc Hup Hmax)
      as (Hres & Hdb & Hc' & Hup' & Hmax').
    simpl in Hres, Hdb.
    rewrite (quota_key_bucket t b Ht) in Hres, Hdb.
    assert (Hlive : redis_live t (redis_db w)
                      (quota_key tenant_id (60 * b)) = Some (j, Some d)).
    { unfold redis_live. rewrite Hk.
      replace (t <? d) with true; [reflexivity|].
      symmetry. apply Z.ltb_lt. apply bucket_bounds in Ht. lia. }
    assert (Hcur : incr_value t (quota_key tenant_id (60 * b)) (redis_db w)
                   = j + 1).
    { unfold incr_value. now rewrite Hlive. }
    rewrite Hcur in Hres, Hdb.
    replace (j + 1 =? 1) with false in Hdb
      by (symmetry; apply Z.eqb_neq; lia).
    destruct i as [|i]; simpl.
    + intros [= <-]. rewrite Hres. f_equal. lia.
    + intros Hi.
      apply (IH _ (j + 1) d Hc' Hup' Hmax') in Hi; try lia.
      * rewrite Hi. f_equal. lia.
      * rewrite Hdb. unfold incr_db. rewrite Hlive.
        apply lookup_insert_eq.
Qed.

(** From a bucket without a counter, the i-th request (counting from
    zero) sees the value [i + 1]. *)
Lemma quota_checks_fresh (b ceiling : Z) (times : list Z) (w : world) :
  Forall (fun t => t / 60 = b) times ->
  app_redis w = RedisClient ->
  redis_reachable w = true ->
  read_max_per_min w = Ok ceiling ->
  redis_db w !! quota_key tenant_id (60 * b) = None ->
  forall (i : nat) (r : result unit),
    quota_checks tenant_id times w !! i = Some r ->
    r = verdict (Z.of_nat i + 1) ceiling.
Proof.
  intros Htimes Hc Hup Hmax Hk i r.
  destruct Htimes as [|t times Ht Htimes]; [intros Hi; discriminate Hi|].
  simpl.
  destruct (quota_check_client (set_now t w) ceiling Hc Hup Hmax)
    as (Hres & Hdb & Hc' & Hup' & Hmax').
  simpl in Hres, Hdb.
  rewrite (quota_key_bucket t b Ht) in Hres, Hdb.
  assert (Hcur : incr_value t (quota_key tenant_id (60 * b)) (redis_db w)
                 = 1).
  { unfold incr_value, redis_live. now rewrite Hk. }
  rewrite Hcur in Hres, Hdb. simpl in Hdb.
  destruct i as [|i]; simpl.
  - intros [= <-]. exact Hres.
  - intros Hi.
    apply bucket_bounds in Ht.
    apply (quota_checks_running b ceiling times Htimes _ 1 (t + 61)
             Hc' Hup' Hmax') in Hi; try lia.
    + rewrite Hi. f_equal. lia.
    + rewrite Hdb, expire_after_incr, Hcur. reflexivity.
Qed.

End Quota.

Lemma str_forall_app (f : ascii -> bool) (a b : string) :
  str_forall f (a +:+ b) = (str_forall f a && str_forall f b)%bool.
Proof.
  induction a as [|c a IH]; [reflexivity|].
  change (String c a +:+ b) with (String c (a +:+ b)).
  simpl. rewrite IH. now rewrite andb_assoc.
Qed.

Section QuotaKeys.

Lemma str_of_Z_inj (a b : Z) : str_of_Z a = str_of_Z b -> a = b.
Proof.
  unfold str_of_Z. intros H.
  assert (Hnn : forall z, Z.to_int z <> Decimal.Pos Decimal.Nil
                          /\ Z.to_int z <> Decimal.Neg Decimal.Nil).
  { intros [|p|p]; simpl; split; try discriminate;
      intros [= Hp]; now apply (DecimalPos.Unsigned.to_uint_nonnil p). }
  apply (f_equal NilZero.int_of_string) in H.
  rewrite !NilZero.isi in H by apply Hnn.
  injection H as H.
  apply (f_equal Z.of_int) in H. now rewrite !DecimalZ.of_to in H.
Qed.

Lemma string_of_uint_no_colon (d : Decimal.uint) :
  no_colon (NilEmpty.string_of_uint d) = true.
Proof. induction d; simpl; auto. Qed.

Lemma str_of_Z_no_colon (z : Z) : no_colon (str_of_Z z) = true.
Proof.
  unfold str_of_Z, NilZero.string_of_int, NilZero.string_of_uint.
  destruct (Z.to_int z) as [d|d]; destruct d;
    try reflexivity; apply string_of_uint_no_colon.
Qed.

(** Two texts each followed by a colon and a colon-free word agree only
    when the texts and the words agree. *)
Lemma colon_split (t1 t2 n1 n2 : string) :
  no_colon n1 = true -> no_colon n2 = true ->
  t1 +:+ ":" +:+ n1 = t2 +:+ ":" +:+ n2 ->
  t1 = t2 /\ n1 = n2.
Proof.
  intros H1 H2. revert t2; induction t1 as [|c t1 IH]; intros t2 Heq.
  - destruct t2 as [|c2 t2].
    + change (String ":" n1 = String ":" n2) in Heq.
      injection Heq as ->. auto.
    + change (String ":" n1 = String c2 (t2 +:+ ":" +:+ n2)) in Heq.
      injection Heq as _ ->.
      unfold no_colon in H1. rewrite str_forall_app in H1.
      apply andb_true_iff in H1 as [_ H1]. discriminate H1.
  - destruct t2 as [|c2 t2].
    + change (String c (t1 +:+ ":" +:+ n1) = String ":" n2) in Heq.
      injection Heq as _ <-.
      unfold no_colon in H2. rewrite str_forall_app in H2.
      apply andb_true_iff in H2 as [_ H2]. discriminate H2.
    + change (String c (t1 +:+ ":" +:+ n1) = String c2 (t2 +:+ ":" +:+ n2))
        in Heq.
      injection Heq as -> Heq.
      destruct (IH t2 Heq) as [-> ->]. auto.
Qed.

(** A quota key names one tenant and one minute. *)
Lemma quota_key_inj (t1 t2 : string) (a b : Z) :
  quota_key t1 a = quota_key t2 b -> t1 = t2 /\ a / 60 = b / 60.
Proof.
  unfold quota_key. intros Heq.
  apply (String.app_inj "quota:") in Heq.
  apply colon_split in Heq as [-> Hn]; try apply str_of_Z_no_colon.
  split; [reflexivity | now apply str_of_Z_inj].
Qed.

End QuotaKeys.

(** C3 (amended). While a counter-store client is configured, its store
    answers and [int] reads the configured ceiling (the text of
    MAX_REQS_PER_MIN, "600" when the variable is unset), the quota check
    of a chat request increments the counter of the key
    "quota:<tenant>:<minute>", which only requests of the same tenant in
    the same minute share, and admits the request exactly when the
    post-increment value is at most the ceiling, raising the 429 error
    otherwise; [chat] and [chat_stream] go on to the provider exactly
    then.  The increment that yields 1 sets the expiry of the key to 61
    seconds, and a later increment keeps the deadline.  In a bucket that
    starts without a counter the i-th request sees the value i, so that
    with the default ceiling request 600 passes and request 601 is
    rejected. *)
Theorem quota_admission (tenant_id : string) (w : world) (ceiling : Z) :
  app_redis w = RedisClient ->
  redis_reachable w = true ->
  py_int w (default "600" (environ (proc w) !! "MAX_REQS_PER_MIN"))
    = Some ceiling ->
  let key := "quota:" +:+ tenant_id +:+ ":" +:+ str_of_Z (now w / 60) in
  let cur := incr_value (now w) key (redis_db w) in
  let too_many := HTTPException 429 "Rate limit exceeded" in
  (forall other t,
     "quota:" +:+ other +:+ ":" +:+ str_of_Z (t / 60) = key
     <-> other = tenant_id /\ t / 60 = now w / 60)
  /\ (quota_check tenant_id w).1
     = (if cur <=? ceiling then Ok tt else Raise too_many)
  /\ ((quota_check tenant_id w).1 = Ok tt <-> cur <= ceiling)
  /\ ((quota_check tenant_id w).1 = Raise too_many <-> ceiling < cur)
  /\ (cur = 1 ->
      redis_db (quota_check tenant_id w).2 !! key
        = Some (1, Some (now w + 61)))
  /\ (cur <> 1 ->
      exists d,
        redis_live (now w) (redis_db w) key = Some (cur - 1, d)
        /\ redis_db (quota_check tenant_id w).2 !! key = Some (cur, d))
  /\ (forall req p,
        get_provider (proc w) (provider req) = Some p ->
        let msgs := build (rag req) (messages req)
                      (retrieved_docs w (messages req)) in
        (chat req tenant_id w).1
          = (if cur <=? ceiling then reply_of (proc w) p msgs
             else Raise too_many)
        /\ (chat_stream req tenant_id w).1
           = (if cur <=? ceiling then Ok (event_stream (proc w) p msgs)
              else Raise too_many))
  /\ (forall b times,
        Forall (fun t => t / 60 = b) times ->
        redis_db w !! ("quota:" +:+ tenant_id +:+ ":" +:+ str_of_Z b) = None ->
        forall (i : nat) (r : result unit),
          quota_checks tenant_id times w !! i = Some r ->
          r = if Z.of_nat i + 1 <=? ceiling then Ok tt else Raise too_many)
  /\ (environ (proc w) !! "MAX_REQS_PER_MIN" = None ->
      py_int w "600" = Some 600 ->
      ceiling = 600
      /\ forall b times,
           Forall (fun t => t / 60 = b) times ->
           redis_db w !! ("quota:" +:+ tenant_id +:+ ":" +:+ str_of_Z b)
             = None ->
           (forall r, quota_checks tenant_id times w !! 599%nat = Some r ->
              r = Ok tt)
           /\ (forall r, quota_checks tenant_id times w !! 600%nat = Some r ->
                r = Raise too_many)).
Proof.
  intros Hc Hup Hint key cur too_many.
  assert (Hmax : read_max_per_min w = Ok ceiling).
  { unfold read_max_per_min, getenv_default. now rewrite Hint. }
  destruct (quota_check_client tenant_id w ceiling Hc Hup Hmax)
    as (Hres & Hdb & _).
  change (quota_key tenant_id (now w)) with key in Hres, Hdb.
  fold cur in Hres, Hdb. unfold verdict in Hres. fold too_many in Hres.
  assert (Hfresh : forall b times,
            Forall (fun t => t / 60 = b) times ->
            redis_db w !! ("quota:" +:+ tenant_id +:+ ":" +:+ str_of_Z b)
              = None ->
            forall (i : nat) (r : result unit),
              quota_checks tenant_id times w !! i = Some r ->
              r = if Z.of_nat i + 1 <=? ceiling then Ok tt
                  else Raise too_many).
  { intros b times Htimes Hk i r Hi.
    apply (quota_checks_fresh tenant_id b ceiling times w Htimes Hc Hup Hmax)
      in Hi; [exact Hi|].
    unfold quota_key. now rewrite (Z.mul_comm 60), Z.div_mul by lia. }
  split; [|split; [exact Hres|split; [|split; [|split; [|split;
    [|split; [|split; [exact Hfresh|]]]]]]]].
  - intros other t. split.
    + intros Heq.
      apply (quota_key_inj other tenant_id t (now w)) in Heq. exact Heq.
    + intros [-> ->]. reflexivity.
  - rewrite Hres. destruct (cur <=? ceiling) eqn:Hle.
    + apply Z.leb_le in Hle. tauto.
    + apply Z.leb_gt in Hle. split; [discriminate | lia].
  - rewrite Hres. destruct (cur <=? ceiling) eqn:Hle.
    + apply Z.leb_le in Hle. split; [discriminate | lia].
    + apply Z.leb_gt in Hle. tauto.
  - intros Hone. rewrite Hdb, Hone. simpl.
    unfold key. rewrite expire_after_incr.
    fold key. fold cur. now rewrite Hone.
  - intros Hmore. rewrite Hdb.
    destruct (cur =? 1) eqn:Hone; [apply Z.eqb_eq in Hone; contradiction|].
    unfold cur, incr_value, incr_db.
    destruct (redis_live (now w) (redis_db w) key) as [[v d]|] eqn:Hlive.
    + exists d. split; [f_equal; f_equal; lia|].
      apply lookup_insert_eq.
    + exfalso. apply Hmore. unfold cur, incr_value. now rewrite Hlive.
  - intros req p Hp msgs. subst msgs.
    rewrite (chat_result tenant_id req w p Hp),
            (chat_stream_result tenant_id req w p Hp), Hres.
    now destruct (cur <=? ceiling).
  - intros Henv Hdefault.
    assert (ceiling = 600) as ->.
    { rewrite Henv in Hint. simpl in Hint. congruence. }
    split; [reflexivity|]. intros b times Htimes Hk. split; intros r Hi.
    + now apply (Hfresh b times Htimes Hk) in Hi.
    + now apply (Hfresh b times Htimes Hk) in Hi.
Qed.

Lemma quota_admission_witness :
  app_redis (demo_world None RedisClient true ∅ 120) = RedisClient
  /\ redis_reachable (demo_world None RedisClient true ∅ 120) = true
  /\ py_int (demo_world None RedisClient true ∅ 120) "600" = Some 600
  /\ (quota_check "t1" (demo_world None RedisClient true ∅ 120)).1 = Ok tt
  /\ redis_db (quota_check "t1" (demo_world None RedisClient true ∅ 120)).2
       !! "quota:t1:2" = Some (1, Some 181).
Proof.
  assert (Hc : app_redis (demo_world None RedisClient true ∅ 120)
               = RedisClient) by reflexivity.
  assert (Hup : redis_reachable (demo_world None RedisClient true ∅ 120)
                = true) by reflexivity.
  assert (Hint : py_int (demo_world None RedisClient true ∅ 120)
                   (default "600"
                      (environ (proc (demo_world None RedisClient true ∅ 120))
                         !! "MAX_REQS_PER_MIN")) = Some 600)
    by reflexivity.
  split; [exact Hc|]. split; [exact Hup|]. split; [reflexivity|].
  destruct (quota_admission "t1" (demo_world None RedisClient true ∅ 120)
              600 Hc Hup Hint) as (_ & Hres & _ & _ & Hexp & _).
  split; [exact Hres | exact (Hexp eq_refl)].
Defined.

(** The scenario of the specification, run: 601 requests of tenant "t1" in
    the bucket of minute 2; the 600th passes, the 601st is rejected. *)
Example bucket_of_601_requests :
  quota_checks "t1" (replicate 601 120)
    (demo_world None RedisClient true ∅ 120) !! 599%nat = Some (Ok tt)
  /\ quota_checks "t1" (replicate 601 120)
       (demo_world None RedisClient true ∅ 120) !! 600%nat
     = Some (Raise (HTTPException 429 "Rate limit exceeded")).
Proof. split; vm_compute; reflexivity. Qed.

(** The claim that the rule holds for every authenticated chat request
    does not: served by a process without a counter-store client, the same
    601 requests are all admitted, the 601st like the first. *)
Lemma request_601_admitted_without_client :
  quota_checks "t1" (replicate 601 120)
    (demo_world None RedisUnset true ∅ 120) !! 600%nat = Some (Ok tt)
  /\ (post_chat (Some "Bearer abc123") (demo_request [user_msg "hi"] false)
        (demo_world None RedisUnset true ∅ 120)).1
     = Ok (PDict [("reply", PStr "(olama) Placeholder reply to: hi")])
  /\ ~ (forall (w : world) (tenant_id : string),
          read_max_per_min w = Ok 600 ->
          redis_db w = ∅ ->
          quota_checks tenant_id (replicate 601 (now w)) w !! 600%nat
            = Some (Raise (HTTPException 429 "Rate limit exceeded"))).
Proof.
  split; [vm_compute; reflexivity|]. split; [vm_compute; reflexivity|].
  intros H.
  specialize (H (demo_world None RedisUnset true ∅ 120) "t1" eq_refl eq_refl).
  vm_compute in H. discriminate H.
Qed.

(** C4 (amended). The quota check fails open only when no client is
    configured: if [app.state.redis] was never set or is [None], the check
    passes without touching anything, and [chat] and [chat_stream] go on to
    the provider; if a client is configured and its server does not
    answer, the error of the increment is not caught and the request
    fails. *)
Theorem quota_fails_open_without_client
    (tenant_id : string) (req : ChatRequest) (w : world) (p : Provider) :
  get_provider (proc w) (provider req) = Some p ->
  (app_redis w <> RedisClient ->
     quota_check tenant_id w = (Ok tt, w)
     /\ (chat req tenant_id w).1
        = reply_of (proc w) p
            (build (rag req) (messages req)
               (retrieved_docs w (messages req)))
     /\ (chat_stream req tenant_id w).1
        = Ok (event_stream (proc w) p
                (build (rag req) (messages req)
                   (retrieved_docs w (messages req)))))
  /\ (app_redis w = RedisClient -> redis_reachable w = false ->
      (quota_check tenant_id w).1 = Raise ConnectionError
      /\ (chat req tenant_id w).1 = Raise ConnectionError
      /\ (chat_stream req tenant_id w).1 = Raise ConnectionError).
Proof.
  intros Hp. split.
  - intros Hno.
    pose proof (quota_check_no_client tenant_id w Hno) as Hq.
    split; [exact Hq|].
    rewrite (chat_result tenant_id req w p Hp),
            (chat_stream_result tenant_id req w p Hp), Hq. auto.
  - intros Hc Hdown.
    pose proof (quota_check_unreachable tenant_id w Hc Hdown) as Hq.
    split; [exact Hq|].
    rewrite (chat_result tenant_id req w p Hp),
            (chat_stream_result tenant_id req w p Hp), Hq. auto.
Qed.

Lemma quota_fails_open_without_client_witness :
  get_provider (proc (demo_world None RedisNone false ∅ 120)) "olama"
    = Some (OlamaProvider (Some "http://localhost:11434"))
  /\ app_redis (demo_world None RedisNone false ∅ 120) <> RedisClient
  /\ (chat (demo_request [user_msg "hi"] false) "t1"
        (demo_world None RedisNone false ∅ 120)).1
     = Ok (PDict [("reply", PStr "(olama) Placeholder reply to: hi")])
  /\ app_redis (demo_world None RedisClient false ∅ 120) = RedisClient
  /\ redis_reachable (demo_world None RedisClient false ∅ 120) = false
  /\ (chat (demo_request [user_msg "hi"] false) "t1"
        (demo_world None RedisClient false ∅ 120)).1
     = Raise ConnectionError.
Proof.
  split; [reflexivity|]. split; [discriminate|].
  split.
  { destruct (quota_fails_open_without_client "t1"
                (demo_request [user_msg "hi"] false)
                (demo_world None RedisNone false ∅ 120)
                (OlamaProvider (Some "http://localhost:11434")) eq_refl)
      as [Hopen _].
    destruct Hopen as (_ & Hchat & _); [discriminate|].
    rewrite Hchat. reflexivity. }
  split; [reflexivity|]. split; [reflexivity|].
  destruct (quota_fails_open_without_client "t1"
              (demo_request [user_msg "hi"] false)
              (demo_world None RedisClient false ∅ 120)
              (OlamaProvider (Some "http://localhost:11434")) eq_refl)
    as [_ Hdown].
  destruct (Hdown eq_refl eq_refl) as (_ & Hchat & _). exact Hchat.
Defined.

(** The claim that any failure of the counter store lets the request
    through does not hold: with a client whose server does not answer, the
    request that is served without a client fails. *)
Lemma unreachable_counter_fails_request :
  (post_chat (Some "Bearer abc123") (demo_request [user_msg "hi"] false)
     (demo_world None RedisUnset false ∅ 120)).1
    = Ok (PDict [("reply", PStr "(olama) Placeholder reply to: hi")])
  /\ (post_chat (Some "Bearer abc123") (demo_request [user_msg "hi"] false)
        (demo_world None RedisClient false ∅ 120)).1
     = Raise ConnectionError
  /\ ~ (forall (w : world) (tenant_id : string),
          redis_reachable w = false ->
          (quota_check tenant_id w).1 = Ok tt).
Proof.
  split; [vm_compute; reflexivity|]. split; [vm_compute; reflexivity|].
  intros H.
  specialize (H (demo_world None RedisClient false ∅ 120) "t1" eq_refl).
  vm_compute in H. discriminate H.
Qed.

(* ===================================================================== *)
(** * The order of the orchestration steps *)
(* ===================================================================== *)

Section Ordering.

Variable h : redis_handle.

Lemma run_snoc (c : bool) (t : list event) (e : event) (q : orch_state) :
  run c q (t ++ [e])
    = match run c q t with
      | Some q' => next c q' e
      | None => None
      end.
Proof.
  revert q; induction t as [|e' t IH]; intros q; simpl.
  - now destruct (next c q e).
  - destruct (next c q e'); [apply IH | reflexivity].
Qed.

Lemma triple_bind {A B} pre (m : M world A) mid (k : A -> M world B)
    post epost :
  triple h pre m mid epost ->
  (forall a, triple h (mid a) (k a) post epost) ->
  triple h pre (m ≫= k) post epost.
Proof.
  intros Hm Hk w q Hacc Hpre.
  destruct (Hm w q Hacc Hpre) as (q1 & Hacc1 & Hres).
  unfold mbind, M_bind.
  destruct (m w) as [[a|e] w1]; simpl in *.
  - apply (Hk a w1 q1 Hacc1 Hres).
  - exists q1. auto.
Qed.

Lemma triple_conseq {A} (pre pre' : orch_state -> Prop) (m : M world A)
    (post post' : A -> orch_state -> Prop)
    (epost epost' : exc -> orch_state -> Prop) :
  triple h pre m post epost ->
  (forall q, pre' q -> pre q) ->
  (forall a q, post a q -> post' a q) ->
  (forall e q, epost e q -> epost' e q) ->
  triple h pre' m post' epost'.
Proof.
  intros Hm Hpre Hpost Hepost w q Hacc Hq.
  destruct (Hm w q Hacc (Hpre q Hq)) as (q1 & Hacc1 & Hres).
  exists q1. split; [exact Hacc1|].
  destruct (m w).1; auto.
Qed.

Lemma triple_ret {A} pre (a : A) epost :
  triple h pre (mret a) (fun _ q => pre q) epost.
Proof. intros w q Hacc Hq. exists q. auto. Qed.

Lemma triple_raise {A} pre (e : exc) (post : A -> orch_state -> Prop) :
  triple h pre (raise e) post (fun _ q => pre q).
Proof. intros w q Hacc Hq. exists q. auto. Qed.

Lemma triple_raise_any {A} pre (e : exc) (post : A -> orch_state -> Prop) :
  triple h pre (raise e) post anywhere.
Proof. intros w q Hacc Hq. exists q. split; [exact Hacc | exact I]. Qed.

Lemma triple_ret_to {A} (pre : orch_state -> Prop) (a : A)
    (post : A -> orch_state -> Prop) epost :
  (forall q, pre q -> post a q) ->
  triple h pre (mret a) post epost.
Proof. intros Hpost w q Hacc Hq. exists q. split; [exact Hacc|]. now apply Hpost. Qed.

Lemma triple_gets {A} pre (f : world -> A) epost :
  triple h pre (gets f) (fun _ q => pre q) epost.
Proof. intros w q Hacc Hq. exists q. auto. Qed.

Lemma triple_gets_redis pre epost :
  triple h pre (gets app_redis) (fun a q => a = h /\ pre q) epost.
Proof.
  intros w q [Hh Hrun] Hq. exists q. unfold gets, accepts. simpl. auto.
Qed.

Lemma triple_lift {A} pre (r : result A) :
  triple h pre (lift r) (fun _ q => pre q) (fun _ q => pre q).
Proof. intros w q Hacc Hq. exists q. unfold lift. destruct r; auto. Qed.

Lemma triple_modify_db pre f epost :
  triple h pre (modify (set_redis_db f)) (fun _ q => pre q) epost.
Proof. intros w q Hacc Hq. exists q. auto. Qed.

Lemma triple_log (pre post : orch_state -> Prop) (e : event) epost :
  (forall q, pre q ->
     exists q', next (is_client h) q e = Some q' /\ post q') ->
  triple h pre (log e) (fun _ q => post q) epost.
Proof.
  intros Hstep w q [Hh Hrun] Hq.
  destruct (Hstep q Hq) as (q1 & Hnext & Hpost).
  exists q1. split; [|exact Hpost].
  split; [exact Hh|]. simpl. now rewrite run_snoc, Hrun.
Qed.

Lemma triple_try {A} pre (m hd : M world A) handles post epost1 epost2 :
  triple h pre m post epost1 ->
  (forall e, handles e = true -> triple h (epost1 e) hd post epost2) ->
  (forall e q, handles e = false -> epost1 e q -> epost2 e q) ->
  triple h pre (try_except m handles hd) post epost2.
Proof.
  intros Hm Hhd Hpass w q Hacc Hq.
  destruct (Hm w q Hacc Hq) as (q1 & Hacc1 & Hres).
  unfold try_except.
  destruct (m w) as [[a|e] w1]; simpl in *.
  - exists q1. auto.
  - destruct (handles e) eqn:He.
    + apply (Hhd e He w1 q1 Hacc1 Hres).
    + exists q1. split; [exact Hacc1|]. now apply Hpass.
Qed.

Lemma triple_raise_to {A} (pre : orch_state -> Prop) (e : exc)
    (post : A -> orch_state -> Prop) (epost : exc -> orch_state -> Prop) :
  (forall q, pre q -> epost e q) ->
  triple h pre (raise e) post epost.
Proof.
  intros He w q Hacc Hq. exists q. split; [exact Hacc|]. now apply He.
Qed.

Lemma triple_lift_to {A} (pre : orch_state -> Prop) (r : result A)
    (epost : exc -> orch_state -> Prop) :
  (forall e q, r = Raise e -> pre q -> epost e q) ->
  triple h pre (lift r) (fun _ q => pre q) epost.
Proof.
  intros He w q Hacc Hq. exists q. split; [exact Hacc|].
  unfold lift. destruct r as [a|e]; simpl; auto.
Qed.

Lemma triple_gets_info {A} pre (f : world -> A) epost :
  triple h pre (gets f) (fun a q => (exists w, a = f w) /\ pre q) epost.
Proof.
  intros w q Hacc Hq. exists q. split; [exact Hacc|].
  simpl. split; [now exists w | exact Hq].
Qed.

Lemma triple_pre_pure {A} (F : Prop) pre (m : M world A) post epost :
  (F -> triple h pre m post epost) ->
  triple h (fun q => F /\ pre q) m post epost.
Proof. intros Hm w q Hacc [HF Hq]. now apply (Hm HF w q). Qed.

End Ordering.

Lemma get_tenant_from_header_triple (h : redis_handle)
    (authorization : option string) :
  triple h (fun q => q = Start) (get_tenant_from_header authorization)
    (fun _ q => q = Authenticated) anywhere.
Proof.
  unfold get_tenant_from_header.
  destruct (negb (opt_truthy authorization)); [apply triple_raise_any|].
  destruct (py_split (default "" authorization))
    as [|scheme [|api_key [|? ?]]]; try apply triple_raise_any.
  destruct (negb (String.eqb (str_lower scheme) "bearer"));
    [apply triple_raise_any|].
  eapply triple_bind with (mid := fun _ q => q = Authenticated).
  - unfold verify_api_key.
    eapply triple_bind with (mid := fun _ q => q = Authenticated).
    + apply triple_log. intros q ->. eauto.
    + intros ?. eapply triple_bind; [apply triple_gets|].
      intros data. eapply triple_bind; [apply triple_gets|].
      intros hx. apply triple_ret.
  - intros [t|]; [|apply triple_raise_any].
    destruct (str_truthy t); [apply triple_ret | apply triple_raise_any].
Qed.

(** Retrieval logs its query first; whatever happens next, the request is
    in the retrieved state. *)
Lemma rag_query_triple (h : redis_handle) (query_text : pyval) (k : Z) :
  triple h (fun q => q = Resolved) (rag_query query_text k)
    (fun _ q => q = Retrieved) (fun _ q => q = Retrieved).
Proof.
  unfold rag_query.
  eapply triple_bind with (mid := fun _ q => q = Retrieved).
  { apply triple_log. intros q ->. eauto. }
  intros ?. eapply triple_bind; [apply triple_gets|].
  intros imported. destruct (negb imported).
  { apply triple_raise_to. auto. }
  eapply triple_bind; [apply triple_gets|].
  intros [coll|]; [|apply triple_ret].
  eapply triple_bind; [apply triple_gets|].
  intros answer. eapply triple_bind; [apply triple_lift_to; auto|].
  intros results. apply triple_ret.
Qed.

Lemma augment_triple (h : redis_handle) (req : ChatRequest) :
  triple h (fun q => q = Resolved) (augment req)
    (fun _ q => before_quota q) anywhere.
Proof.
  unfold augment, before_quota.
  destruct (rag req); [|apply triple_ret_to; auto].
  destruct (truthy (last_user (messages req)));
    [|apply triple_ret_to; auto].
  eapply triple_try with (epost1 := fun _ q => q = Retrieved).
  - eapply triple_bind; [apply rag_query_triple|].
    intros [|d docs]; apply triple_ret_to; auto.
  - intros e _. apply triple_ret_to; auto.
  - intros e q He. discriminate He.
Qed.

(** An increment that returns was made on a client. *)
Lemma redis_incr_triple (h : redis_handle) (key : string) :
  triple h before_quota (redis_incr h key)
    (fun _ q => is_client h = true /\ q = Counted) (quota_epost h).
Proof.
  unfold redis_incr, quota_epost, before_quota.
  destruct h; try (apply triple_raise_to; simpl; auto).
  eapply triple_bind with (mid := fun _ q => q = Counted).
  { apply triple_log. intros q [-> | ->]; eauto. }
  intros ?. eapply triple_bind; [apply triple_gets|].
  intros [|]; [|apply triple_raise_to; simpl; auto].
  eapply triple_bind; [apply triple_gets|]. intros t.
  eapply triple_bind; [apply triple_gets|]. intros cur.
  eapply triple_bind; [apply triple_modify_db|]. intros ?.
  apply triple_ret_to. auto.
Qed.

Lemma redis_expire_triple (h : redis_handle) (key : string) (seconds : Z) :
  triple h (fun q => q = Counted) (redis_expire key seconds)
    (fun _ q => q = Expiring) (quota_epost h).
Proof.
  unfold redis_expire, quota_epost.
  eapply triple_bind with (mid := fun _ q => q = Expiring).
  { apply triple_log. intros q ->. eauto. }
  intros ?. eapply triple_bind; [apply triple_gets|].
  intros [|]; [|apply triple_raise_to; simpl; auto].
  eapply triple_bind; [apply triple_gets|]. intros t.
  apply triple_modify_db.
Qed.

Lemma read_max_per_min_raises (w : world) (e : exc) :
  read_max_per_min w = Raise e -> e = ValueError.
Proof.
  unfold read_max_per_min. destruct (py_int w _); [discriminate|].
  now intros [= <-].
Qed.

(** The quota check: with a client it leaves the request counted, without
    one it leaves the state as it was. *)
Lemma quota_check_triple (h : redis_handle) (tenant_id : string) :
  triple h before_quota (quota_check tenant_id)
    (fun _ q => after_quota h q) anywhere.
Proof.
  unfold quota_check.
  eapply triple_try with (epost1 := quota_epost h).
  - eapply triple_bind; [apply triple_gets_redis|].
    intros redis. apply triple_pre_pure. intros ->.
    assert (Hbody :
      triple h before_quota
        (t ← gets now;
         cur ← redis_incr h (quota_key tenant_id t);
         (if cur =? 1 then redis_expire (quota_key tenant_id t) 61
          else mret tt);;
         limit ← gets read_max_per_min;
         max_per_min ← lift limit;
         if cur >? max_per_min
         then raise (HTTPException 429 "Rate limit exceeded")
         else mret tt)
        (fun _ q => after_quota h q) (quota_epost h)).
    { eapply triple_bind; [apply triple_gets|]. intros t.
      eapply triple_bind; [apply redis_incr_triple|]. intros cur.
      apply triple_pre_pure. intros Hcl.
      eapply triple_bind with (mid := fun _ q => after_quota h q).
      { unfold after_quota. rewrite Hcl.
        destruct (cur =? 1).
        - eapply triple_conseq; [apply redis_expire_triple | auto..].
        - apply triple_ret_to. auto. }
      intros ?. eapply triple_bind; [apply triple_gets_info|].
      intros limit. apply triple_pre_pure. intros [w ->].
      eapply triple_bind.
      { apply triple_lift_to. intros e q He _.
        apply read_max_per_min_raises in He as ->. exact I. }
      intros n. simpl. destruct (cur >? n).
      - apply triple_raise_to. intros; exact I.
      - apply triple_ret. }
    destruct h; [|exact Hbody | exact Hbody].
    apply triple_raise_to. intros q Hq. split; [reflexivity | exact Hq].
  - intros e He. destruct e; try discriminate He.
    apply triple_ret_to. unfold quota_epost, after_quota. simpl.
    intros q [-> Hq]. exact Hq.
  - intros e q _ _. exact I.
Qed.

(** Dispatch is in order after a passed quota check. *)
Lemma dispatch_step (h : redis_handle) (q : orch_state) (e : event) :
  after_quota h q ->
  (exists p msgs, e = EvSend p msgs \/ e = EvSendStream p msgs) ->
  next (is_client h) q e = Some Dispatched.
Proof.
  unfold after_quota, before_quota.
  intros Hq (p & msgs & [-> | ->]);
    destruct (is_client h); destruct Hq as [-> | ->]; reflexivity.
Qed.

Lemma chat_triple (h : redis_handle) (req : ChatRequest)
    (tenant_id : string) :
  triple h (fun q => q = Authenticated) (chat req tenant_id)
    (fun _ q => q = Dispatched) anywhere.
Proof.
  unfold chat.
  eapply triple_bind; [apply triple_gets|]. intros P.
  eapply triple_bind with (mid := fun _ q => q = Resolved).
  { apply triple_log. intros q ->. eauto. }
  intros ?. destruct (get_provider P (provider req)) as [p|];
    [|apply triple_raise_any].
  eapply triple_bind; [apply augment_triple|]. intros msgs.
  eapply triple_bind; [apply quota_check_triple|]. intros ?.
  eapply triple_bind with (mid := fun _ q => q = Dispatched).
  { apply triple_log. intros q Hq. exists Dispatched. split; [|reflexivity].
    apply dispatch_step; eauto. }
  intros ?. eapply triple_bind.
  { apply triple_lift_to. intros; exact I. }
  intros reply. apply triple_ret.
Qed.

Lemma chat_stream_triple (h : redis_handle) (req : ChatRequest)
    (tenant_id : string) :
  triple h (fun q => q = Authenticated) (chat_stream req tenant_id)
    (fun _ q => q = Dispatched) anywhere.
Proof.
  unfold chat_stream.
  eapply triple_bind; [apply triple_gets|]. intros P.
  eapply triple_bind with (mid := fun _ q => q = Resolved).
  { apply triple_log. intros q ->. eauto. }
  intros ?. destruct (get_provider P (provider req)) as [p|];
    [|apply triple_raise_any].
  eapply triple_bind; [apply augment_triple|]. intros msgs.
  eapply triple_bind; [apply quota_check_triple|]. intros ?.
  eapply triple_bind with (mid := fun _ q => q = Dispatched).
  { apply triple_log. intros q Hq. exists Dispatched. split; [|reflexivity].
    apply dispatch_step; eauto. }
  intros ?. apply triple_ret.
Qed.

(** C2 (amended). Every run of [POST /chat] and of [POST /chat/stream]
    makes its calls in the order: authenticate, resolve the provider,
    retrieve (optional), count the request against the quota (and set the
    expiry of a new counter), dispatch to the provider.  The quota check
    comes after authentication and before the dispatch, but after the
    provider resolution and the retrieval query; with a counter client
    configured no request is dispatched without it; and a request that
    returns went through to the dispatch. *)
Theorem orchestration_order
    (authorization : option string) (req : ChatRequest) (w : world) :
  trace w = [] ->
  let c := is_client (app_redis w) in
  in_order c (trace (post_chat authorization req w).2)
  /\ in_order c (trace (post_chat_stream authorization req w).2)
  /\ (is_Ok (post_chat authorization req w).1 = true ->
      run c Start (trace (post_chat authorization req w).2)
        = Some Dispatched)
  /\ (is_Ok (post_chat_stream authorization req w).1 = true ->
      run c Start (trace (post_chat_stream authorization req w).2)
        = Some Dispatched).
Proof.
  intros Hnil c.
  assert (Hacc : accepts (app_redis w) Start w).
  { split; [reflexivity|]. now rewrite Hnil. }
  assert (H1 : triple (app_redis w) (fun q => q = Start)
                 (post_chat authorization req)
                 (fun _ q => q = Dispatched) anywhere).
  { unfold post_chat. eapply triple_bind;
      [apply get_tenant_from_header_triple|].
    intros tid. apply chat_triple. }
  assert (H2 : triple (app_redis w) (fun q => q = Start)
                 (post_chat_stream authorization req)
                 (fun _ q => q = Dispatched) anywhere).
  { unfold post_chat_stream. eapply triple_bind;
      [apply get_tenant_from_header_triple|].
    intros tid. apply chat_stream_triple. }
  destruct (H1 w Start Hacc eq_refl) as (q1 & [_ Hrun1] & Hres1).
  destruct (H2 w Start Hacc eq_refl) as (q2 & [_ Hrun2] & Hres2).
  fold c in Hrun1, Hrun2.
  unfold in_order. rewrite Hrun1, Hrun2.
  repeat split; eauto.
  - intros Hok. destruct (post_chat authorization req w).1;
      [now subst q1 | discriminate].
  - intros Hok. destruct (post_chat_stream authorization req w).1;
      [now subst q2 | discriminate].
Qed.

Lemma orchestration_order_witness :
  trace (demo_world (Some [chunk_of "t1" "X is a thing."])
           RedisClient true ∅ 120) = []
  /\ run true Start
       (trace (post_chat (Some "Bearer abc123")
                 (demo_request [user_msg "What is X?"] true)
                 (demo_world (Some [chunk_of "t1" "X is a thing."])
                    RedisClient true ∅ 120)).2)
     = Some Dispatched.
Proof.
  split; [reflexivity|].
  apply (orchestration_order (Some "Bearer abc123")
           (demo_request [user_msg "What is X?"] true)
           (demo_world (Some [chunk_of "t1" "X is a thing."])
              RedisClient true ∅ 120)); reflexivity.
Defined.

(** The order of the claim does not hold: in the run below the provider
    resolution and the retrieval query come before the increment of the
    quota counter. *)
Lemma quota_check_not_first :
  map (fun e => match e with
                | EvVerifyKey _ => "authenticate"
                | EvGetProvider _ => "resolve"
                | EvRagQuery _ _ => "retrieve"
                | EvRedisIncr _ => "incr"
                | EvRedisExpire _ _ => "expire"
                | EvSend _ _ | EvSendStream _ _ => "send"
                end)
      (trace (post_chat (Some "Bearer abc123")
                (demo_request [user_msg "What is X?"] true)
                (demo_world (Some [chunk_of "t1" "X is a thing."])
                   RedisClient true ∅ 120)).2)
    = ["authenticate"; "resolve"; "retrieve"; "incr"; "expire"; "send"]
  /\ ~ quota_first
         (trace (post_chat (Some "Bearer abc123")
                   (demo_request [user_msg "What is X?"] true)
                   (demo_world (Some [chunk_of "t1" "X is a thing."])
                      RedisClient true ∅ 120)).2).
Proof.
  split; [vm_compute; reflexivity|].
  intros H.
  specialize (H 3%nat 1%nat (EvRedisIncr "quota:t1:2") (EvGetProvider "olama")).
  assert (Hlt : (3 < 1)%nat); [|lia].
  apply H; vm_compute; reflexivity.
Qed.

(* ===================================================================== *)
(** * Further properties of the providers *)
(* ===================================================================== *)

Lemma ascii_lower_idempotent (c : ascii) :
  ascii_lower (ascii_lower c) = ascii_lower c.
Proof. destruct c as [[] [] [] [] [] [] [] []]; reflexivity. Qed.

Lemma str_lower_idempotent (s : string) : str_lower (str_lower s) = str_lower s.
Proof.
  induction s as [|c s IH]; simpl; [reflexivity|].
  now rewrite ascii_lower_idempotent, IH.
Qed.

(** X1. The provider registry is looked up without regard to ASCII case,
    and a name resolves exactly when its lower-case form is one of
    "gemini", "olama" and "openai". *)
Theorem get_provider_names (P : process) (name : string) :
  get_provider P name = get_provider P (str_lower name)
  /\ (get_provider P name = None <->
      str_lower name <> "gemini" /\ str_lower name <> "olama"
      /\ str_lower name <> "openai").
Proof.
  split.
  - unfold get_provider. now rewrite str_lower_idempotent.
  - unfold get_provider, PROVIDERS.
    destruct (decide (str_lower name = "gemini")) as [->|H1].
    { rewrite lookup_insert_eq. split; [discriminate | tauto]. }
    rewrite lookup_insert_ne by congruence.
    destruct (decide (str_lower name = "olama")) as [->|H2].
    { rewrite lookup_insert_eq. split; [discriminate | tauto]. }
    rewrite lookup_insert_ne by congruence.
    destruct (decide (str_lower name = "openai")) as [->|H3].
    { rewrite lookup_insert_eq. split; [discriminate | tauto]. }
    rewrite lookup_insert_ne by congruence.
    rewrite lookup_empty. tauto.
Qed.

(** What [send_messages] does once its provider is configured, in terms of
    the prompt. *)
Lemma send_messages_configured (P : process) (p : Provider)
    (msgs : list pyval) :
  configured P p = true ->
  send_messages P p msgs
    = match p with
      | GeminiProvider k e =>
          match gemini_auth P k with
          | Some auth =>
              result_bind (prompt_of msgs) (fun prompt =>
                Ok (gemini_post P (gemini_request P e (Some auth) prompt)))
          | None => Ok (PStr GEMINI_NO_CREDENTIALS)
          end
      | _ => result_bind (prompt_of msgs) (str_add (echo_prefix p))
      end.
Proof.
  intros Hc. unfold prompt_of.
  destruct p as [k e | u | k]; simpl in *.
  - unfold GeminiProvider_send_messages.
    destruct (gemini_auth P k); [|reflexivity].
    now destruct (py_last msgs).
  - unfold OlamaProvider_send_messages. rewrite Hc. simpl.
    now destruct (py_last msgs).
  - unfold OpenAIProvider_send_messages. rewrite Hc. simpl.
    now destruct (py_last msgs).
Qed.

Lemma send_messages_not_configured (P : process) (p : Provider)
    (msgs : list pyval) :
  configured P p = false ->
  send_messages P p msgs = Ok (PStr (not_configured_reply p)).
Proof.
  intros Hc. destruct p as [k e | u | k]; simpl in *.
  - unfold GeminiProvider_send_messages.
    destruct (gemini_auth P k) as [a|] eqn:Ha; [|reflexivity].
    rewrite bool_decide_true in Hc by eauto. discriminate.
  - unfold OlamaProvider_send_messages. now rewrite Hc.
  - unfold OpenAIProvider_send_messages. now rewrite Hc.
Qed.

Lemma prompt_of_raises (msgs : list pyval) (ex : exc) :
  prompt_of msgs = Raise ex ->
  (ex = IndexError /\ msgs = []) \/ ex = KeyError "content" \/ ex = TypeError.
Proof.
  unfold prompt_of, py_last.
  destruct (last msgs) as [m|] eqn:Hlast; simpl.
  - unfold py_getitem.
    destruct m as [| | | | |d]; try (intros [= <-]; auto).
    destruct (dict_get d "content"); [discriminate|].
    intros [= <-]. auto.
  - intros [= <-]. left. split; [reflexivity|].
    now apply last_None.
Qed.

(** The exceptions of [send_messages], with where they come from. *)
Lemma send_messages_raises (P : process) (p : Provider) (msgs : list pyval)
    (ex : exc) :
  send_messages P p msgs = Raise ex ->
  configured P p = true
  /\ ((ex = IndexError /\ msgs = []) \/ ex = KeyError "content"
      \/ ex = TypeError).
Proof.
  intros Hraise.
  destruct (configured P p) eqn:Hc.
  2:{ rewrite send_messages_not_configured in Hraise by exact Hc.
      discriminate. }
  split; [reflexivity|].
  rewrite send_messages_configured in Hraise by exact Hc.
  destruct (prompt_of msgs) as [v|ex'] eqn:Hprompt.
  - destruct p as [k e | u | k]; simpl in Hraise.
    + destruct (gemini_auth P k); discriminate.
    + destruct v; simpl in Hraise; try discriminate;
        injection Hraise as <-; auto.
    + destruct v; simpl in Hraise; try discriminate;
        injection Hraise as <-; auto.
  - assert (ex' = ex) as ->.
    { destruct p as [k e | u | k]; simpl in Hraise;
        [destruct (gemini_auth P k)|..]; congruence. }
    now apply prompt_of_raises.
Qed.

(** X2. For a conversation whose last message is a dict with a string
    content, every provider's [send_messages] returns; a provider without
    a backend call of its own echoes that content after its fixed prefix
    when configured and returns its placeholder otherwise. *)
Theorem send_messages_well_formed (P : process) (p : Provider)
    (msgs : list pyval) (d : list (string * pyval)) (s : string) :
  last msgs = Some (PDict d) ->
  dict_get d "content" = Some (PStr s) ->
  is_Ok (send_messages P p msgs) = true
  /\ (native_streaming p = false ->
      send_messages P p msgs
        = Ok (PStr (if configured P p then echo_prefix p +:+ s
                    else not_configured_reply p))).
Proof.
  intros Hlast Hcontent.
  assert (Hprompt : prompt_of msgs = Ok (PStr s)).
  { unfold prompt_of, py_last. rewrite Hlast. simpl. now rewrite Hcontent. }
  destruct (configured P p) eqn:Hc.
  - rewrite send_messages_configured by exact Hc. rewrite Hprompt.
    destruct p as [k e | u | k]; simpl.
    + split; [now destruct (gemini_auth P k) | discriminate].
    + auto.
    + auto.
  - rewrite send_messages_not_configured by exact Hc. auto.
Qed.

Lemma send_messages_well_formed_witness :
  last [user_msg "hi"]
    = Some (PDict [("role", PStr "user"); ("content", PStr "hi")])
  /\ dict_get [("role", PStr "user"); ("content", PStr "hi")] "content"
     = Some (PStr "hi")
  /\ send_messages (process_of ∅) (OpenAIProvider (Some "sk")) [user_msg "hi"]
     = Ok (PStr "(openai) Placeholder reply to: hi").
Proof.
  split; [reflexivity|]. split; [reflexivity|].
  apply (send_messages_well_formed (process_of ∅) (OpenAIProvider (Some "sk"))
           [user_msg "hi"] [("role", PStr "user"); ("content", PStr "hi")]
           "hi"); reflexivity.
Defined.

(** X3. [send_messages] raises only when its provider is configured, and
    then only [IndexError] (exactly on the empty conversation), [KeyError]
    for a last message without content, or [TypeError]; it never raises an
    HTTP error. *)
Theorem send_messages_errors (P : process) (p : Provider) (msgs : list pyval)
    (ex : exc) :
  send_messages P p msgs = Raise ex ->
  configured P p = true
  /\ ((ex = IndexError /\ msgs = []) \/ ex = KeyError "content"
      \/ ex = TypeError)
  /\ (forall code detail, ex <> HTTPException code detail).
Proof.
  intros Hraise.
  destruct (send_messages_raises P p msgs ex Hraise) as [Hc Hex].
  split; [exact Hc|]. split; [exact Hex|].
  intros code detail ->.
  destruct Hex as [[? _] | [? | ?]]; discriminate.
Qed.

Lemma send_messages_errors_witness :
  send_messages (process_of ∅) (OlamaProvider (Some "u")) [PStr "hi"]
    = Raise TypeError
  /\ configured (process_of ∅) (OlamaProvider (Some "u")) = true.
Proof.
  split; [reflexivity|].
  apply (send_messages_errors (process_of ∅) (OlamaProvider (Some "u"))
           [PStr "hi"] TypeError). reflexivity.
Defined.

Section ChunkCount.

Local Open Scope nat_scope.

Lemma range_from_lookup (fuel start stop step j i : nat) :
  range_from fuel start stop step !! j = Some i -> i = start + j * step.
Proof.
  revert start j; induction fuel as [|fuel IH]; intros start j; simpl.
  - discriminate.
  - destruct (start <? stop); [|discriminate].
    destruct j as [|j]; simpl.
    + intros [= <-]. lia.
    + intros Hj. apply IH in Hj. lia.
Qed.

Lemma range_from_count (fuel start stop step : nat) :
  0 < step -> stop - start <= fuel ->
  stop - start <= length (range_from fuel start stop step) * step
  /\ length (range_from fuel start stop step) * step < (stop - start) + step.
Proof.
  intros Hstep. revert start; induction fuel as [|fuel IH]; intros start Hfuel.
  - simpl. lia.
  - simpl. destruct (start <? stop) eqn:Hlt.
    + apply Nat.ltb_lt in Hlt.
      destruct (IH (start + step) ltac:(lia)) as [Hlo Hhi].
      simpl.
      set (n := length (range_from fuel (start + step) stop step)) in *.
      split; [lia|].
      destruct (Nat.le_gt_cases step (stop - start)) as [Hge|Hsmall];
        [lia|].
      replace (stop - (start + step)) with 0 in Hhi by lia.
      destruct n as [|n]; simpl in Hhi; lia.
    + apply Nat.ltb_ge in Hlt. simpl. lia.
Qed.

(** X4. The chunks of a reply of [n] characters cut at size [size] are
    [ceil(n / size)] many: none for the empty reply, and every chunk but
    the last has exactly [size] characters. *)
Theorem chunks_of_count (size : nat) (reply : string) :
  0 < size ->
  String.length reply <= length (chunks_of size reply) * size
  /\ length (chunks_of size reply) * size < String.length reply + size
  /\ (forall j c,
        chunks_of size reply !! j = Some c ->
        S j < length (chunks_of size reply) ->
        String.length c = size)
  /\ (reply = "" -> chunks_of size reply = []).
Proof.
  intros Hsize.
  pose proof (range_from_count (String.length reply - 0) 0
                (String.length reply) size Hsize ltac:(lia)) as [Hlo Hhi].
  assert (Hlen : length (chunks_of size reply)
                 = length (range_from (String.length reply - 0) 0
                             (String.length reply) size)).
  { unfold chunks_of, py_range. now rewrite length_map. }
  rewrite Hlen. split; [lia|]. split; [lia|]. split.
  - intros j c Hc Hj. unfold chunks_of, py_range in Hc.
    rewrite list_lookup_fmap in Hc.
    destruct (range_from _ 0 _ size !! j) as [i|] eqn:Hi; [|discriminate].
    apply range_from_lookup in Hi. simpl in Hc. injection Hc as <-.
    unfold py_slice. rewrite substring_length. subst i. simpl.
    set (n := length (range_from (String.length reply - 0) 0
                        (String.length reply) size)) in *.
    assert (S j * size <= (n - 1) * size)
      by (apply Nat.mul_le_mono_r; lia).
    assert ((n - 1) * size + size = n * size).
    { destruct n as [|n]; [lia|]. simpl. rewrite Nat.sub_0_r. lia. }
    simpl in H. lia.
  - intros ->. reflexivity.
Qed.

End ChunkCount.

Lemma chunks_of_count_witness :
  (0 < 64)%nat
  /\ length (chunks_of 64 "(olama) Placeholder reply to: hi") = 1%nat.
Proof.
  split; [lia|].
  destruct (chunks_of_count 64 "(olama) Placeholder reply to: hi"
              ltac:(lia)) as (Hlo & Hhi & _).
  simpl String.length in Hlo, Hhi. lia.
Defined.

(** X5. The streaming method of the cloud backend raises before any
    chunk when the prompt cannot be read.  Once the prompt is read, an
    exchange that does not fail ends the stream normally, with chunks that
    are strings.  After a failed exchange [send_messages] is called and
    cannot fail at that point; the stream then ends normally or with
    [TypeError], the latter only when the reply is neither a string nor a
    list; and when the reply is a string, the chunks sent after the
    failure are its slices of 128 characters, which join to it. *)
Theorem gemini_stream_ends (P : process) (api_key endpoint : option string)
    (msgs : list pyval) :
  let run := GeminiProvider_send_messages_stream P api_key endpoint msgs in
  match prompt_of msgs with
  | Raise ex => run = ([], Some ex)
  | Ok prompt =>
      match gemini_stream P
              (gemini_request P endpoint (gemini_auth P api_key) prompt) with
      | StreamFailed yielded =>
          exists reply,
            GeminiProvider_send_messages P api_key endpoint msgs = Ok reply
            /\ (run.2 = None \/ run.2 = Some TypeError)
            /\ (run.2 = Some TypeError ->
                (forall text, reply <> PStr text)
                /\ (forall l, reply <> PList l))
            /\ (forall text, reply = PStr text ->
                  run = (map PStr (yielded ++ chunks_of 128 text), None)
                  /\ py_join "" (yielded ++ chunks_of 128 text)
                     = py_join "" yielded +:+ text)
      | _ => exists chunks, run = (map PStr chunks, None)
      end
  end.
Proof.
  intros run. subst run. unfold GeminiProvider_send_messages_stream.
  fold (prompt_of msgs).
  destruct (prompt_of msgs) as [prompt|ex] eqn:Hprompt; [|reflexivity].
  assert (Hsend : exists reply,
            GeminiProvider_send_messages P api_key endpoint msgs = Ok reply).
  { unfold GeminiProvider_send_messages.
    destruct (gemini_auth P api_key); [|eauto].
    unfold prompt_of in Hprompt.
    destruct (py_last msgs) as [m|]; [|discriminate]. simpl in *.
    rewrite Hprompt. simpl. eauto. }
  destruct Hsend as [reply Hsend].
  destruct (gemini_stream P _) as [code text | chunks [full|] | yielded];
    [ now exists ["(gemini) HTTP " +:+ str_of_Z code +:+ ": " +:+ text]
    | now exists (filter (fun c => str_truthy c = true) chunks ++ [full])
    | now exists (filter (fun c => str_truthy c = true) chunks)
    | ].
  rewrite Hsend. exists reply. split; [reflexivity|].
  cbn [fst snd]. split; [|split].
  - destruct reply as [| | | | |[|? ?]]; simpl; auto.
  - intros Herr. split; intros x ->; discriminate Herr.
  - intros text ->. cbn [py_chunks fst snd]. split.
    + now rewrite map_app.
    + rewrite join_empty_app. f_equal. apply chunks_of_join. lia.
Qed.

(* ===================================================================== *)
(** * Further properties of the vector store and the worker *)
(* ===================================================================== *)

Lemma vector_store_query_scoped_witness :
  str_truthy "t1" = true
  /\ (vector_store_query "q" 3 (Some "t1")
        (chroma_vstore [chunk_of "t2" "b"; chunk_of "t1" "a"])).1
     = Ok [PDict [("document", PStr "a");
                  ("metadata", PDict [("tenant_id", PStr "t1")]);
                  ("distance", PInt 0)]]
  /\ Forall (fun v => hit_tenant v = PStr "t1")
       [PDict [("document", PStr "a");
               ("metadata", PDict [("tenant_id", PStr "t1")]);
               ("distance", PInt 0)]].
Proof.
  split; [reflexivity|]. split; [vm_compute; reflexivity|].
  apply (vector_store_query_scoped "t1" eq_refl "q" 3
           (chroma_vstore [chunk_of "t2" "b"; chunk_of "t1" "a"])).
  vm_compute; reflexivity.
Defined.

Lemma other_tenant_falsy (md : list (string * pyval)) :
  other_tenant (Some "") md = false.
Proof. reflexivity. Qed.

Lemma chroma_row_out_unfiltered (tenant_id : option string) row :
  opt_truthy tenant_id = false ->
  chroma_row_out tenant_id row
    = Ok (map (fun '(doc, meta, dist) =>
                 {| document := doc; metadata := meta; distance := dist |})
              row).
Proof.
  intros Hfalsy. induction row as [|[[doc meta] dist] row IH].
  - reflexivity.
  - cbn [chroma_row_out]. unfold skips. rewrite Hfalsy.
    cbn [result_bind]. rewrite IH. reflexivity.
Qed.

Lemma chroma_rows_out_unfiltered (tenant_id : option string) rows :
  opt_truthy tenant_id = false ->
  chroma_rows_out tenant_id rows = Ok (rag_rows_out rows).
Proof.
  intros Hfalsy. induction rows as [|[[docs metas] dists] rows IH].
  - reflexivity.
  - cbn [chroma_rows_out rag_rows_out].
    rewrite chroma_row_out_unfiltered by exact Hfalsy.
    cbn [result_bind]. rewrite IH. reflexivity.
Qed.

Lemma pinecone_out_unfiltered (tenant_id : option string) matches :
  opt_truthy tenant_id = false ->
  pinecone_out tenant_id matches = pinecone_out None matches.
Proof.
  intros Hfalsy. unfold pinecone_out.
  destruct tenant_id as [t|]; [|reflexivity].
  simpl in Hfalsy. unfold other_tenant. rewrite Hfalsy. reflexivity.
Qed.

(** X7. A tenant that is [None] or the empty string switches the filter of
    [vector_store.query] off: the query then returns what it returns
    without a tenant, and on the Chroma path that is every row of the
    answer, whatever its tenant. *)
Theorem vector_store_query_unfiltered (text : string) (k : Z)
    (tenant_id : option string) (s : vstore) :
  opt_truthy tenant_id = false ->
  vector_store_query text k tenant_id s = vector_store_query text k None s
  /\ (forall coll results,
        _use_pinecone (globals s) = false ->
        _chroma_ready (globals s) = true ->
        vs_collections s !! COLLECTION_NAME (globals s) = Some coll ->
        vs_chroma_query s coll (PStr text) k = Ok results ->
        (vector_store_query text k tenant_id s).1
          = Ok (map retrieved_dict
                  (rag_rows_out (zip3 (documents results) (metadatas results)
                                      (distances results))))).
Proof.
  intros Hfalsy.
  assert (Heq : vector_store_query text k tenant_id s
                = vector_store_query text k None s).
  { unfold vector_store_query. run_M.
    destruct (_use_pinecone (globals s)); simpl.
    - destruct (pinecone_indexes s !! COLLECTION_NAME (globals s));
        simpl; [|reflexivity].
      now rewrite pinecone_out_unfiltered.
    - destruct (_chroma_ready (globals s)); simpl; [|reflexivity].
      destruct (vs_collections s !! COLLECTION_NAME (globals s)) as [coll|];
        simpl; [|reflexivity].
      destruct (vs_chroma_query s coll (PStr text) k) as [results|];
        simpl; [|reflexivity].
      rewrite !chroma_rows_out_unfiltered by (exact Hfalsy || reflexivity).
      reflexivity. }
  split; [exact Heq|].
  intros coll results Hoff Hready Hcoll Hanswer.
  rewrite Heq. unfold vector_store_query. run_M.
  rewrite Hoff, Hready. simpl. rewrite Hcoll. simpl. rewrite Hanswer. simpl.
  rewrite chroma_rows_out_unfiltered by reflexivity. reflexivity.
Qed.

Lemma vector_store_query_unfiltered_witness :
  opt_truthy (Some "") = false
  /\ (vector_store_query "q" 3 (Some "")
        (chroma_vstore [chunk_of "t2" "b"; chunk_of "t1" "a"])).1
     = (vector_store_query "q" 3 None
          (chroma_vstore [chunk_of "t2" "b"; chunk_of "t1" "a"])).1.
Proof.
  split; [reflexivity|].
  destruct (vector_store_query_unfiltered "q" 3 (Some "")
              (chroma_vstore [chunk_of "t2" "b"; chunk_of "t1" "a"])
              eq_refl) as [Heq _].
  now rewrite Heq.
Defined.

Section Upsert.

Variables (texts : list string) (tenant_id : option string).

Local Abbreviation md := (PDict [("tenant_id", tenant_val tenant_id)]).

(** The items built for the index: one per identifier, each with the
    vector of one of the texts and the tenant of the call. *)
Lemma to_upsert_items (ids : list string) (txts : list string) items :
  to_upsert ids (map encode txts) (map (fun _ => md) txts) = Ok items ->
  map fst items = ids
  /\ Forall (fun it => exists txt, txt ∈ txts /\ it.2 = (encode txt, md))
       items.
Proof.
  revert txts items; induction ids as [|i ids IH]; intros txts items.
  - simpl. intros [= <-]. split; [reflexivity | constructor].
  - destruct txts as [|txt txts]; simpl; [discriminate|].
    destruct (to_upsert ids (map encode txts) (map (fun _ => md) txts))
      as [rest|] eqn:Hrest; simpl; [|discriminate].
    intros [= <-]. destruct (IH txts rest Hrest) as [Hids Hall].
    split; [simpl; now rewrite Hids|].
    constructor.
    + exists txt. split; [left | reflexivity].
    + eapply Forall_impl; [exact Hall|].
      intros it (t & Ht & Hit). exists t. split; [now right | exact Hit].
Qed.

Lemma to_upsert_fits (ids : list string) (txts : list string) :
  (length ids <= length txts)%nat ->
  exists items,
    to_upsert ids (map encode txts) (map (fun _ => md) txts) = Ok items.
Proof.
  revert txts; induction ids as [|i ids IH]; intros txts Hlen.
  - exists []. reflexivity.
  - destruct txts as [|txt txts]; simpl in Hlen; [lia|].
    destruct (IH txts ltac:(lia)) as [rest Hrest].
    simpl. rewrite Hrest. simpl. eauto.
Qed.

Lemma to_upsert_overflow (ids : list string) (txts : list string) :
  (length txts < length ids)%nat ->
  to_upsert ids (map encode txts) (map (fun _ => md) txts) = Raise IndexError.
Proof.
  revert txts; induction ids as [|i ids IH]; intros txts Hlen.
  - simpl in Hlen. lia.
  - destruct txts as [|txt txts]; simpl; [reflexivity|].
    simpl in Hlen. rewrite IH by lia. reflexivity.
Qed.

(** What the index holds after the items were written: an identifier among
    them holds one of them, any other holds what it held. *)
Lemma pinecone_upsert_lookup
    (items : list (string * (vector * pyval)))
    (idx : gmap string (vector * pyval)) (i : string) :
  (i ∈ map fst items ->
   exists it, it ∈ items /\ it.1 = i
              /\ pinecone_upsert items idx !! i = Some it.2)
  /\ (i ∉ map fst items -> pinecone_upsert items idx !! i = idx !! i).
Proof.
  unfold pinecone_upsert.
  induction items as [|it items IH] using rev_ind.
  - split; [intros H; inversion H | reflexivity].
  - rewrite fold_left_app, map_app. simpl.
    destruct IH as [IHin IHout].
    destruct (decide (it.1 = i)) as [Heq | Hne].
    + split.
      * intros _. exists it. split; [apply elem_of_app; right; now left|].
        split; [exact Heq|]. subst i. apply lookup_insert_eq.
      * intros Hnot. exfalso. apply Hnot. apply elem_of_app. right.
        simpl. rewrite Heq. now left.
    + rewrite lookup_insert_ne by exact Hne. split.
      * intros Hin. apply elem_of_app in Hin as [Hin | Hin].
        -- destruct (IHin Hin) as (it' & Hit' & Hk & Hlook).
           exists it'. split; [apply elem_of_app; now left | auto].
        -- simpl in Hin. apply list_elem_of_singleton in Hin. congruence.
      * intros Hnot. apply IHout. intros Hin. apply Hnot.
        apply elem_of_app. now left.
Qed.

Variable s : vstore.
Hypothesis primary : _use_pinecone (globals s) = true.

(** The upsert with the primary index, by the outcome of building the
    items. *)
Lemma upsert_documents_primary (ids : option (list string)) :
  let r := upsert_documents texts ids tenant_id s in
  match to_upsert (upsert_ids texts ids) (map encode texts)
          (map (fun _ => md) texts) with
  | Ok items =>
      r.1 = Ok (upsert_receipt (length (upsert_ids texts ids)) "pinecone")
      /\ index_of r.2 = pinecone_upsert items (index_of s)
  | Raise e => r.1 = Raise e /\ index_of r.2 = index_of s
  end
  /\ globals r.2 = globals s
  /\ is_Some (pinecone_indexes r.2 !! COLLECTION_NAME (globals s)).
Proof.
  unfold upsert_documents, upsert_ids, index_of. run_M. rewrite primary.
  simpl.
  destruct (pinecone_indexes s !! COLLECTION_NAME (globals s)) as [idx|]
    eqn:Hidx; simpl;
    destruct (to_upsert _ _ _) as [items|e]; simpl;
    rewrite ?lookup_insert_eq, ?Hidx; simpl; eauto.
Qed.

End Upsert.

(** X8. With the primary index configured and no more identifiers than
    texts, [upsert_documents] returns the receipt for the number of
    identifiers, and afterwards every identifier of the call holds the
    vector of one of the texts together with the tenant of the call; every
    other identifier of the index holds what it held before. *)
Theorem upsert_documents_stores (texts : list string)
    (ids : option (list string)) (tenant_id : option string) (s : vstore) :
  _use_pinecone (globals s) = true ->
  (length (upsert_ids texts ids) <= length texts)%nat ->
  let r := upsert_documents texts ids tenant_id s in
  r.1 = Ok (upsert_receipt (length (upsert_ids texts ids)) "pinecone")
  /\ (forall i, i ∈ upsert_ids texts ids ->
        exists txt, txt ∈ texts
          /\ index_of r.2 !! i
             = Some (encode txt, PDict [("tenant_id", tenant_val tenant_id)]))
  /\ (forall j, j ∉ upsert_ids texts ids ->
        index_of r.2 !! j = index_of s !! j).
Proof.
  intros Hprimary Hfits r.
  destruct (upsert_documents_primary texts tenant_id s Hprimary ids)
    as [Hcase _].
  fold r in Hcase.
  destruct (to_upsert_fits tenant_id (upsert_ids texts ids) texts Hfits)
    as [items Hitems].
  rewrite Hitems in Hcase. destruct Hcase as [Hres Hidx].
  destruct (to_upsert_items tenant_id _ _ _ Hitems) as [Hids Hall].
  split; [exact Hres|]. rewrite Hidx. split.
  - intros i Hi. rewrite <- Hids in Hi.
    destruct (pinecone_upsert_lookup items (index_of s) i) as [Hin _].
    destruct (Hin Hi) as (it & Hit & _ & Hlook).
    rewrite Forall_forall in Hall.
    destruct (Hall it Hit) as (txt & Htxt & Hval).
    exists txt. split; [exact Htxt|]. now rewrite Hlook, Hval.
  - intros j Hj. rewrite <- Hids in Hj.
    now apply pinecone_upsert_lookup.
Qed.

Lemma upsert_documents_stores_witness :
  _use_pinecone (globals (demo_vstore pinecone_env true true false)) = true
  /\ (length (upsert_ids ["hello"] (Some ["a.txt"])) <= length ["hello"])%nat
  /\ index_of (upsert_documents ["hello"] (Some ["a.txt"]) (Some "t1")
                 (demo_vstore pinecone_env true true false)).2 !! "a.txt"
     = Some (encode "hello", PDict [("tenant_id", PStr "t1")]).
Proof.
  split; [reflexivity|]. split; [simpl; lia|].
  destruct (upsert_documents_stores ["hello"] (Some ["a.txt"]) (Some "t1")
              (demo_vstore pinecone_env true true false) eq_refl
              ltac:(simpl; lia)) as (_ & Hin & _).
  destruct (Hin "a.txt") as (txt & Htxt & Hlook); [now left|].
  apply list_elem_of_singleton in Htxt. now subst txt.
Defined.

(** X9. With the primary index configured and more identifiers than texts,
    [upsert_documents] raises [IndexError] and stores no vector: the index
    exists afterwards and holds what it held before. *)
Theorem upsert_documents_too_many_ids (texts : list string)
    (ids : option (list string)) (tenant_id : option string) (s : vstore) :
  _use_pinecone (globals s) = true ->
  (length texts < length (upsert_ids texts ids))%nat ->
  let r := upsert_documents texts ids tenant_id s in
  r.1 = Raise IndexError
  /\ index_of r.2 = index_of s
  /\ is_Some (pinecone_indexes r.2 !! COLLECTION_NAME (globals s)).
Proof.
  intros Hprimary Hover r.
  destruct (upsert_documents_primary texts tenant_id s Hprimary ids)
    as (Hcase & _ & Hexists).
  fold r in Hcase, Hexists.
  rewrite (to_upsert_overflow tenant_id _ _ Hover) in Hcase.
  destruct Hcase. auto.
Qed.

Lemma upsert_documents_too_many_ids_witness :
  _use_pinecone (globals (demo_vstore pinecone_env true true false)) = true
  /\ (length ["hello"] < length (upsert_ids ["hello"] (Some ["a"; "b"])))%nat
  /\ (upsert_documents ["hello"] (Some ["a"; "b"]) None
        (demo_vstore pinecone_env true true false)).1 = Raise IndexError.
Proof.
  split; [reflexivity|]. split; [simpl; lia|].
  apply (upsert_documents_too_many_ids ["hello"] (Some ["a"; "b"]) None
           (demo_vstore pinecone_env true true false) eq_refl).
  simpl; lia.
Defined.

Section QueuePath.

Variables (texts : list string) (ids : option (list string))
          (tenant_id : option string).

Lemma enqueue_documents_queued (s : vstore) :
  queue_usable s = true ->
  enqueue_documents texts ids tenant_id s
    = (Ok (enqueue_receipt (length (t_ids (task_of texts ids tenant_id)))),
       set_scheduled (fun q => q ++ [task_of texts ids tenant_id]) s).
Proof.
  unfold queue_usable. intros Husable.
  apply andb_true_iff in Husable as [Hurl Hloop].
  unfold enqueue_documents, task_of, create_task_push. run_M.
  rewrite Hurl. simpl. now rewrite Hloop.
Qed.

Lemma enqueue_documents_sync (s : vstore) :
  queue_usable s = false ->
  enqueue_documents texts ids tenant_id s
    = upsert_documents texts ids tenant_id s.
Proof.
  unfold queue_usable. intros Hno.
  unfold enqueue_documents, create_task_push.
  unfold mbind at 1. unfold M_bind at 1. unfold gets at 1.
  destruct (opt_truthy (vs_environ s !! "REDIS_URL")); simpl in *;
    [|reflexivity].
  unfold try_except, mbind, M_bind, gets, raise. now rewrite Hno.
Qed.

(** The pushes scheduled on the event loop do not matter to an upsert. *)
Lemma upsert_documents_scheduled (f : list task -> list task) (s : vstore) :
  upsert_documents texts ids tenant_id (set_scheduled f s)
    = ((upsert_documents texts ids tenant_id s).1,
       set_scheduled f (upsert_documents texts ids tenant_id s).2).
Proof.
  unfold upsert_documents. run_M.
  destruct (_use_pinecone (globals s)); simpl; [|reflexivity].
  destruct (pinecone_indexes s !! COLLECTION_NAME (globals s)); simpl;
    destruct (to_upsert _ _ _); reflexivity.
Qed.

(** The worker hands [upsert_documents] the identifiers of the task; they
    are the caller's unless the caller gave the empty list. *)
Lemma upsert_task_ids (s : vstore) :
  ids <> Some [] ->
  upsert_documents texts (Some (t_ids (task_of texts ids tenant_id)))
    tenant_id s
  = upsert_documents texts ids tenant_id s.
Proof.
  intros Hids. destruct ids as [[|i l]|]; [congruence | reflexivity..].
Qed.

End QueuePath.

(** X10. The queue path ends where the synchronous path ends: when a task
    is enqueued on an idle event loop, its push runs and the worker takes
    it, the queue is empty again and the index holds what a direct
    [upsert_documents] with the caller's arguments would have left,
    provided the caller did not pass the empty list of identifiers. *)
Theorem queue_path_matches_sync (texts : list string)
    (ids : option (list string)) (tenant_id : option string) (s : vstore) :
  queue_usable s = true ->
  scheduled s = [] ->
  ids <> Some [] ->
  let queued := (enqueue_documents texts ids tenant_id s).2 in
  let pushed := (run_push {| w_store := queued; index_queue := [] |}).2 in
  let done := (worker_turn pushed).2 in
  index_queue pushed = [task_of texts ids tenant_id]
  /\ index_queue done = []
  /\ pinecone_indexes (w_store done)
     = pinecone_indexes (upsert_documents texts ids tenant_id s).2.
Proof.
  intros Husable Hidle Hids queued pushed done.
  subst done pushed queued.
  rewrite enqueue_documents_queued by exact Husable.
  unfold run_push. simpl. rewrite Hidle. simpl.
  split; [reflexivity|].
  unfold worker_turn, blpop, on_store, try_except. run_M.
  rewrite (upsert_task_ids texts ids tenant_id _ Hids).
  rewrite !upsert_documents_scheduled. simpl.
  destruct (upsert_documents texts ids tenant_id s) as [[r|e] s'];
    simpl; auto.
Qed.

Lemma queue_path_matches_sync_witness :
  queue_usable (demo_vstore (<["REDIS_URL" := "redis://q"]> pinecone_env)
                  true true true) = true
  /\ scheduled (demo_vstore (<["REDIS_URL" := "redis://q"]> pinecone_env)
                  true true true) = []
  /\ (None : option (list string)) <> Some []
  /\ index_queue
       (worker_turn
          (run_push
             {| w_store :=
                  (enqueue_documents ["a"] None (Some "t1")
                     (demo_vstore (<["REDIS_URL" := "redis://q"]> pinecone_env)
                        true true true)).2;
                index_queue := [] |}).2).2 = [].
Proof.
  split; [reflexivity|]. split; [reflexivity|]. split; [discriminate|].
  apply (queue_path_matches_sync ["a"] None (Some "t1")
           (demo_vstore (<["REDIS_URL" := "redis://q"]> pinecone_env)
              true true true)); [reflexivity | reflexivity | discriminate].
Defined.

Lemma default_ids_length {A} (l : list A) : length (default_ids l) = length l.
Proof. unfold default_ids. now rewrite length_map, length_seq. Qed.

(** X11. For the empty list of identifiers the two paths of
    [enqueue_documents] disagree: the queue path generates an identifier
    for every text and accepts them all, while the synchronous path (with
    the primary index) writes nothing and reports zero. *)
Theorem enqueue_empty_ids (texts : list string) (tenant_id : option string)
    (s : vstore) :
  (queue_usable s = true ->
   (enqueue_documents texts (Some []) tenant_id s).1
     = Ok (enqueue_receipt (length texts))
   /\ t_ids (task_of texts (Some []) tenant_id) = default_ids texts)
  /\ (queue_usable s = false -> _use_pinecone (globals s) = true ->
      (enqueue_documents texts (Some []) tenant_id s).1
        = Ok (upsert_receipt 0 "pinecone")
      /\ index_of (enqueue_documents texts (Some []) tenant_id s).2
         = index_of s).
Proof.
  split.
  - intros Husable. rewrite enqueue_documents_queued by exact Husable.
    simpl. now rewrite default_ids_length.
  - intros Hsync Hprimary. rewrite enqueue_documents_sync by exact Hsync.
    destruct (upsert_documents_primary texts tenant_id s Hprimary (Some []))
      as [Hcase _].
    simpl in Hcase. exact Hcase.
Qed.

Lemma enqueue_empty_ids_witness :
  queue_usable (demo_vstore (<["REDIS_URL" := "redis://q"]> pinecone_env)
                  true true true) = true
  /\ (enqueue_documents ["a"; "b"] (Some []) None
        (demo_vstore (<["REDIS_URL" := "redis://q"]> pinecone_env)
           true true true)).1 = Ok (PDict [("enqueued", PInt 2)])
  /\ queue_usable (demo_vstore pinecone_env true true true) = false
  /\ _use_pinecone (globals (demo_vstore pinecone_env true true true)) = true
  /\ (enqueue_documents ["a"; "b"] (Some []) None
        (demo_vstore pinecone_env true true true)).1
     = Ok (PDict [("upserted", PInt 0); ("provider", PStr "pinecone")]).
Proof.
  split; [reflexivity|]. split.
  { apply (enqueue_empty_ids ["a"; "b"] None
             (demo_vstore (<["REDIS_URL" := "redis://q"]> pinecone_env)
                true true true)). reflexivity. }
  split; [reflexivity|]. split; [reflexivity|].
  apply (enqueue_empty_ids ["a"; "b"] None
           (demo_vstore pinecone_env true true true)); reflexivity.
Defined.

Lemma worker_turn_takes_one (s : wstate) :
  (worker_turn s).1 = Ok tt
  /\ index_queue (worker_turn s).2 = drop 1 (index_queue s)
  /\ globals (w_store (worker_turn s).2) = globals (w_store s)
  /\ (_use_pinecone (globals (w_store s)) = false ->
      w_store (worker_turn s).2 = w_store s).
Proof.
  destruct s as [st q].
  unfold worker_turn, blpop, on_store, try_except. run_M.
  destruct q as [|t q]; simpl; [auto|].
  destruct (_use_pinecone (globals st)) eqn:Hprimary.
  - destruct (upsert_documents_primary (t_texts t) (t_tenant_id t) st
                Hprimary (Some (t_ids t))) as (_ & Hglobals & _).
    destruct (upsert_documents (t_texts t) (Some (t_ids t))
                (t_tenant_id t) st) as [[r|e] st']; simpl in *;
      repeat split; auto; discriminate.
  - rewrite (upsert_without_primary (t_texts t) (Some (t_ids t))
               (t_tenant_id t) st Hprimary). simpl. auto.
Qed.

(** X12. The worker never stops on a task: any number of turns returns,
    having taken that many tasks off the head of the queue, whether their
    upsert succeeded or raised; and in a deployment without the primary
    index every task taken is lost, the store being left as it was. *)
Theorem run_worker_consumes (n : nat) (s : wstate) :
  (run_worker n s).1 = Ok tt
  /\ index_queue (run_worker n s).2 = drop n (index_queue s)
  /\ (_use_pinecone (globals (w_store s)) = false ->
      w_store (run_worker n s).2 = w_store s).
Proof.
  revert s; induction n as [|n IH]; intros s.
  - simpl. repeat split; auto.
  - simpl. unfold mbind, M_bind.
    destruct (worker_turn_takes_one s) as (Hok & Hq & Hg & Hst).
    destruct (worker_turn s) as [[[]|e] s1]; simpl in *; [|discriminate].
    destruct (IH s1) as (Hok' & Hq' & Hst').
    split; [exact Hok'|]. split.
    + rewrite Hq', Hq. rewrite drop_drop. f_equal.
    + intros Hprimary. rewrite Hst' by (now rewrite Hg).
      now apply Hst.
Qed.

Lemma run_worker_consumes_witness :
  _use_pinecone (globals (demo_vstore ∅ false true false)) = false
  /\ run_worker 3
       {| w_store := demo_vstore ∅ false true false;
          index_queue := [task_of ["a"] None (Some "t1");
                          task_of ["b"] None (Some "t2")] |}
     = (Ok tt, {| w_store := demo_vstore ∅ false true false;
                  index_queue := [] |}).
Proof.
  split; [reflexivity|].
  destruct (run_worker_consumes 3
              {| w_store := demo_vstore ∅ false true false;
                 index_queue := [task_of ["a"] None (Some "t1");
                                 task_of ["b"] None (Some "t2")] |})
    as (Hok & Hq & Hst).
  destruct (run_worker 3 _) as [r [st q]]; simpl in *.
  rewrite Hok, Hq, (Hst eq_refl). reflexivity.
Defined.

(* ===================================================================== *)
(** * Further properties of authentication and tenant creation *)
(* ===================================================================== *)

Lemma split_ws_word (cur s : string) :
  str_forall (fun c => negb (py_isspace c)) s = true ->
  split_ws cur s = if str_truthy (cur +:+ s) then [cur +:+ s] else [].
Proof.
  revert cur; induction s as [|c s IH]; intros cur Hs.
  - simpl. now rewrite append_empty_r.
  - simpl in Hs. apply andb_true_iff in Hs as [Hc Hs].
    apply negb_true_iff in Hc.
    cbn [split_ws]. rewrite Hc, IH by exact Hs.
    now rewrite append_assoc.
Qed.

Lemma split_ws_blank (cur a b : string) :
  str_forall (fun c => negb (py_isspace c)) a = true ->
  split_ws cur (a +:+ " " +:+ b)
    = (if str_truthy (cur +:+ a) then [cur +:+ a] else []) ++ split_ws "" b.
Proof.
  revert cur; induction a as [|c a IH]; intros cur Ha.
  - rewrite append_empty_r. reflexivity.
  - simpl in Ha. apply andb_true_iff in Ha as [Hc Ha].
    apply negb_true_iff in Hc.
    change (String c a +:+ " " +:+ b) with (String c (a +:+ " " +:+ b)).
    cbn [split_ws]. rewrite Hc, IH by exact Ha.
    now rewrite append_assoc.
Qed.

(** A header of two words separated by a blank splits into the two. *)
Lemma py_split_two_words (scheme key : string) :
  is_word scheme = true -> is_word key = true ->
  py_split (scheme +:+ " " +:+ key) = [scheme; key].
Proof.
  unfold is_word, py_split. intros Hs Hk.
  apply andb_true_iff in Hs as [Hs1 Hs2].
  apply andb_true_iff in Hk as [Hk1 Hk2].
  rewrite split_ws_blank by exact Hs2.
  rewrite split_ws_word by exact Hk2.
  change ("" +:+ scheme) with scheme. change ("" +:+ key) with key.
  now rewrite Hs1, Hk1.
Qed.

Lemma verify_api_key_run (api_key : string) (w : world) :
  verify_api_key api_key w
    = (Ok (find_tenant (sha256_hex w api_key) (tenants w)),
       logged [EvVerifyKey api_key] w).
Proof. reflexivity. Qed.

(** X13. Authentication fails only with 401 or 403.  A 401 leaves the
    world as it was: the tenant store is not consulted.  A 403 follows
    one lookup of the key.  A success returns a non-empty tenant whose
    stored hash is the digest of the key sent under the scheme "bearer"
    (in any case), after exactly one lookup. *)
Theorem get_tenant_from_header_outcomes (authorization : option string)
    (w : world) :
  match (get_tenant_from_header authorization w).1 with
  | Ok t =>
      str_truthy t = true
      /\ exists scheme key,
           py_split (default "" authorization) = [scheme; key]
           /\ str_lower scheme = "bearer"
           /\ find_tenant (sha256_hex w key) (tenants w) = Some t
           /\ (get_tenant_from_header authorization w).2
              = logged [EvVerifyKey key] w
  | Raise (HTTPException code _) =>
      (code = 401 /\ (get_tenant_from_header authorization w).2 = w)
      \/ (code = 403
          /\ exists key,
               (get_tenant_from_header authorization w).2
                 = logged [EvVerifyKey key] w)
  | Raise _ => False
  end.
Proof.
  unfold get_tenant_from_header.
  destruct (negb (opt_truthy authorization)); [simpl; auto|].
  destruct (py_split (default "" authorization))
    as [|scheme [|key [|? ?]]] eqn:Hsplit; try (simpl; auto).
  destruct (String.eqb (str_lower scheme) "bearer") eqn:Hscheme;
    [|simpl; auto].
  apply String.eqb_eq in Hscheme. cbn [negb].
  unfold mbind, M_bind. rewrite verify_api_key_run.
  destruct (find_tenant (sha256_hex w key) (tenants w)) as [t|] eqn:Hfind;
    [|simpl; eauto].
  destruct (str_truthy t) eqn:Ht; simpl; [|eauto].
  split; [exact Ht|]. exists scheme, key. auto.
Qed.

Section TenantCreation.

Variables (name tenant_id api_key : string) (w : world).

Local Abbreviation h := (sha256_hex w api_key).
Local Abbreviation info := [("name", PStr name); ("api_key_hash", PStr h)].

Lemma create_tenant_run :
  create_tenant name tenant_id api_key w
    = (Ok (PDict [("tenant_id", PStr tenant_id); ("api_key", PStr api_key)]),
       set_tenants (fun _ => dict_set (tenants w) tenant_id info) w).
Proof. reflexivity. Qed.

Lemma eq_str_refl (s : string) : eq_str (PStr s) s = true.
Proof. simpl. apply String.eqb_refl. Qed.

(** The new tenant is the first whose hash matches, when no other tenant
    stores the same hash. *)
Lemma find_tenant_created (data : list (string * list (string * pyval))) :
  (forall tid' info', (tid', info') ∈ data -> tid' <> tenant_id ->
     eq_str (py_get info' "api_key_hash") h = false) ->
  find_tenant h (dict_set data tenant_id info) = Some tenant_id.
Proof.
  induction data as [|[tid' info'] data IH]; intros Hothers.
  - simpl. now rewrite String.eqb_refl.
  - simpl. destruct (String.eqb tid' tenant_id) eqn:Hsame.
    + simpl. now rewrite String.eqb_refl.
    + apply String.eqb_neq in Hsame. simpl.
      rewrite (Hothers tid' info') by (now left || exact Hsame).
      apply IH. intros t i Hin. apply Hothers. now right.
Qed.

(** A key with another digest finds what it found, when the new
    identifier is not in use. *)
Lemma find_tenant_other (h' : string)
    (data : list (string * list (string * pyval))) :
  h' <> h ->
  Forall (fun entry => entry.1 <> tenant_id) data ->
  find_tenant h' (dict_set data tenant_id info) = find_tenant h' data.
Proof.
  intros Hh. induction 1 as [|[tid' info'] data Hfresh _ IH].
  - simpl. replace (String.eqb h h') with false; [reflexivity|].
    symmetry. apply String.eqb_neq. congruence.
  - simpl in Hfresh. simpl.
    replace (String.eqb tid' tenant_id) with false
      by (symmetry; now apply String.eqb_neq).
    simpl. now rewrite IH.
Qed.

End TenantCreation.

(** X14. A created tenant can authenticate: when no other tenant stores
    the digest of the new key, [verify_api_key] of that key returns the
    new tenant, and a request carrying "Bearer <key>" is authenticated as
    that tenant (the identifier and the key being non-empty and the key
    free of white space, as the drawn tokens are). *)
Theorem create_tenant_then_authenticate
    (name tenant_id api_key : string) (w : world) :
  (forall tid' info', (tid', info') ∈ tenants w -> tid' <> tenant_id ->
     eq_str (py_get info' "api_key_hash") (sha256_hex w api_key) = false) ->
  str_truthy tenant_id = true ->
  is_word api_key = true ->
  let w' := (create_tenant name tenant_id api_key w).2 in
  (verify_api_key api_key w').1 = Ok (Some tenant_id)
  /\ (get_tenant_from_header (Some ("Bearer " +:+ api_key)) w').1
     = Ok tenant_id.
Proof.
  intros Hothers Htid Hkey w'. subst w'. rewrite create_tenant_run. simpl.
  assert (Hfind : find_tenant (sha256_hex w api_key)
                    (dict_set (tenants w) tenant_id
                       [("name", PStr name);
                        ("api_key_hash", PStr (sha256_hex w api_key))])
                  = Some tenant_id)
    by (now apply find_tenant_created).
  split.
  - now rewrite Hfind.
  - unfold get_tenant_from_header.
    change (opt_truthy (Some ("Bearer " +:+ api_key))) with true.
    cbn [negb default].
    change ("Bearer " +:+ api_key) with ("Bearer" +:+ " " +:+ api_key).
    unfold id. rewrite py_split_two_words by (reflexivity || exact Hkey).
    change (str_lower "Bearer" =? "bearer")%string with true.
    cbn [negb]. unfold mbind, M_bind. rewrite verify_api_key_run.
    cbn [sha256_hex tenants set_tenants logged set_trace].
    rewrite Hfind. now rewrite Htid.
Qed.

Lemma create_tenant_then_authenticate_witness :
  str_truthy "t3" = true
  /\ is_word "k3y" = true
  /\ (get_tenant_from_header (Some "Bearer k3y")
        (create_tenant "three" "t3" "k3y"
           (demo_world None RedisUnset false ∅ 0)).2).1 = Ok "t3".
Proof.
  split; [reflexivity|]. split; [reflexivity|].
  apply (create_tenant_then_authenticate "three" "t3" "k3y"
           (demo_world None RedisUnset false ∅ 0));
    [|reflexivity|reflexivity].
  intros tid' info' Hin _.
  repeat (apply elem_of_cons in Hin as [Hin | Hin];
          [injection Hin as -> ->; reflexivity|]).
  inversion Hin.
Defined.

(** X15. Creating a tenant under an identifier not yet in use leaves every
    other key as it was: a key whose digest differs from the new key's
    resolves to the same tenant, or to none, as before. *)
Theorem create_tenant_keeps_others
    (name tenant_id api_key other_key : string) (w : world) :
  Forall (fun entry => entry.1 <> tenant_id) (tenants w) ->
  sha256_hex w other_key <> sha256_hex w api_key ->
  (verify_api_key other_key (create_tenant name tenant_id api_key w).2).1
    = (verify_api_key other_key w).1.
Proof.
  intros Hfresh Hdigest. rewrite create_tenant_run, !verify_api_key_run.
  simpl. f_equal. now apply find_tenant_other.
Qed.

Lemma create_tenant_keeps_others_witness :
  Forall (fun entry => entry.1 <> "t3")
    (tenants (demo_world None RedisUnset false ∅ 0))
  /\ tag_digest "abc123" <> tag_digest "k3y"
  /\ (verify_api_key "abc123"
        (create_tenant "three" "t3" "k3y"
           (demo_world None RedisUnset false ∅ 0)).2).1 = Ok (Some "t1").
Proof.
  assert (Hfresh : Forall (fun entry => entry.1 <> "t3")
                     (tenants (demo_world None RedisUnset false ∅ 0)))
    by (repeat constructor; discriminate).
  split; [exact Hfresh|]. split; [discriminate|].
  rewrite (create_tenant_keeps_others "three" "t3" "k3y" "abc123"
             (demo_world None RedisUnset false ∅ 0) Hfresh);
    [reflexivity | discriminate].
Defined.

(* ===================================================================== *)
(** * Further properties of the uploads and of the startup hook *)
(* ===================================================================== *)

Lemma basename_from_no_slash (cur p : string) :
  no_slash cur = true -> no_slash (basename_from cur p) = true.
Proof.
  unfold no_slash. revert cur; induction p as [|c p IH]; intros cur Hcur.
  - exact Hcur.
  - simpl. destruct (Ascii.eqb c "/") eqn:Hc.
    + now apply IH.
    + apply IH. rewrite str_forall_app, Hcur. simpl. now rewrite Hc.
Qed.

Lemma path_join_inside (dir name : string) :
  no_slash name = true ->
  path_join dir name = dir +:+ name \/ path_join dir name = dir +:+ "/" +:+ name.
Proof.
  unfold no_slash, path_join. intros Hname.
  destruct name as [|c name].
  - destruct (negb (str_truthy dir) || ends_with_slash dir)%bool;
      [left; now rewrite append_empty_r | now right].
  - simpl in Hname. apply andb_true_iff in Hname as [Hc _].
    apply negb_true_iff in Hc. rewrite Hc.
    destruct (negb (str_truthy dir) || ends_with_slash dir)%bool; auto.
Qed.

Lemma save_file_run (file_filename content : string) (s : upload_state) :
  let name := py_basename file_filename in
  let path := path_join (UPLOAD_DIR s) name in
  save_file file_filename content s
    = match write_error s path with
      | Some detail => (Raise (HTTPException 500 detail), s)
      | None => (Ok (name, path),
                 set_files (fun fs => <[path := content]> fs) s)
      end.
Proof.
  unfold save_file. run_M.
  now destruct (write_error s _).
Qed.

Lemma upload_run (file_filename content : string) (s : upload_state) :
  let name := py_basename file_filename in
  let path := path_join (UPLOAD_DIR s) name in
  upload file_filename content s
    = match write_error s path with
      | Some detail => (Raise (HTTPException 500 detail), s)
      | None => (Ok (upload_reply name path),
                 set_files (fun fs => <[path := content]> fs) s)
      end.
Proof.
  unfold upload, save_file. run_M.
  now destruct (write_error s _).
Qed.

Lemma upload_and_index_run (file_filename content tenant_id : string)
    (s : upload_state) :
  let name := py_basename file_filename in
  let path := path_join (UPLOAD_DIR s) name in
  let indexed :=
    upsert_documents [decode_utf8_ignore s content] (Some [name])
      (Some tenant_id) (up_store s) in
  upload_and_index file_filename content tenant_id s
    = match write_error s path with
      | Some detail => (Raise (HTTPException 500 detail), s)
      | None =>
          (match indexed.1 with
           | Ok _ => Ok (upload_reply name path)
           | Raise e => Raise e
           end,
           {| up_store := indexed.2; files := <[path := content]> (files s);
              UPLOAD_DIR := UPLOAD_DIR s; write_error := write_error s;
              decode_utf8_ignore := decode_utf8_ignore s |})
      end.
Proof.
  unfold upload_and_index, save_file, in_up_store. run_M.
  destruct (write_error s _); [reflexivity|]. simpl.
  now destruct (upsert_documents _ _ _ (up_store s)) as [[r|e] st].
Qed.

(** X16. Both upload endpoints write at most one file, named by the base
    name of the client's file name: that name has no slash, so the file
    lies directly in the upload directory, whatever directories the
    client put in the name; every other path on disk is left alone. *)
Theorem uploads_stay_in_directory (file_filename content tenant_id : string)
    (s : upload_state) :
  let name := py_basename file_filename in
  let path := path_join (UPLOAD_DIR s) name in
  no_slash name = true
  /\ (path = UPLOAD_DIR s +:+ name \/ path = UPLOAD_DIR s +:+ "/" +:+ name)
  /\ (forall p, p <> path ->
        files (upload file_filename content s).2 !! p = files s !! p
        /\ files (upload_and_index file_filename content tenant_id s).2 !! p
           = files s !! p).
Proof.
  intros name path.
  assert (Hname : no_slash name = true)
    by (now apply basename_from_no_slash).
  split; [exact Hname|]. split; [now apply path_join_inside|].
  intros p Hp. rewrite upload_run, upload_and_index_run. fold name path.
  destruct (write_error s path); simpl; [split; reflexivity|].
  split; now apply lookup_insert_ne.
Qed.

(** X17. The index entry of an uploaded file is keyed by the file name
    alone.  With the primary index configured and the writes succeeding,
    a second upload under the same name, by whichever tenant, replaces
    the first: the file on disk holds the second content and the entry of
    that name holds the second text and the second tenant. *)
Theorem upload_replaces_by_name
    (file_filename content1 tenant1 content2 tenant2 : string)
    (s : upload_state) :
  let name := py_basename file_filename in
  let path := path_join (UPLOAD_DIR s) name in
  _use_pinecone (globals (up_store s)) = true ->
  write_error s path = None ->
  let first := upload_and_index file_filename content1 tenant1 s in
  let second := upload_and_index file_filename content2 tenant2 first.2 in
  first.1 = Ok (upload_reply name path)
  /\ index_of (up_store first.2) !! name
     = Some (encode (decode_utf8_ignore s content1),
             PDict [("tenant_id", PStr tenant1)])
  /\ second.1 = Ok (upload_reply name path)
  /\ index_of (up_store second.2) !! name
     = Some (encode (decode_utf8_ignore s content2),
             PDict [("tenant_id", PStr tenant2)])
  /\ files second.2 !! path = Some content2.
Proof.
  intros name path Hprimary Hwrite first second.
  assert (Hone : forall content tenant (s0 : upload_state),
            _use_pinecone (globals (up_store s0)) = true ->
            UPLOAD_DIR s0 = UPLOAD_DIR s ->
            write_error s0 = write_error s ->
            decode_utf8_ignore s0 = decode_utf8_ignore s ->
            let r := upload_and_index file_filename content tenant s0 in
            r.1 = Ok (upload_reply name path)
            /\ index_of (up_store r.2) !! name
               = Some (encode (decode_utf8_ignore s content),
                       PDict [("tenant_id", PStr tenant)])
            /\ files r.2 !! path = Some content
            /\ _use_pinecone (globals (up_store r.2)) = true
            /\ UPLOAD_DIR r.2 = UPLOAD_DIR s
            /\ write_error r.2 = write_error s
            /\ decode_utf8_ignore r.2 = decode_utf8_ignore s).
  { intros content tenant s0 Hp Hdir Herr Hdec r. subst r.
    rewrite upload_and_index_run, Hdir, Herr, Hdec. fold name path.
    rewrite Hwrite.
    destruct (upsert_documents_primary
                [decode_utf8_ignore s content] (Some tenant)
                (up_store s0) Hp (Some [name])) as (Hcase & Hg & _).
    simpl in Hcase. destruct Hcase as [Hres Hidx].
    cbn [fst snd up_store files UPLOAD_DIR write_error decode_utf8_ignore].
    rewrite Hres. split; [reflexivity|]. split.
    { unfold index_of in *. rewrite Hg in Hidx |- *. rewrite Hidx.
      unfold pinecone_upsert. simpl. apply lookup_insert_eq. }
    split; [apply lookup_insert_eq|].
    rewrite Hg. auto. }
  destruct (Hone content1 tenant1 s Hprimary eq_refl eq_refl eq_refl)
    as (H1 & H2 & _ & Hp1 & Hd1 & He1 & Hc1).
  fold first in H1, H2, Hp1, Hd1, He1, Hc1.
  destruct (Hone content2 tenant2 first.2 Hp1 Hd1 He1 Hc1)
    as (H3 & H4 & H5 & _).
  fold second in H3, H4, H5. auto.
Qed.

Lemma upload_replaces_by_name_witness :
  _use_pinecone
    (globals (up_store
       (demo_upload (demo_vstore pinecone_env true true false)))) = true
  /\ write_error (demo_upload (demo_vstore pinecone_env true true false))
       "./uploads/notes.txt" = None
  /\ index_of
       (up_store
          (upload_and_index "docs/notes.txt" "mine" "t2"
             (upload_and_index "notes.txt" "yours" "t1"
                (demo_upload (demo_vstore pinecone_env true true false))).2).2)
       !! "notes.txt"
     = Some (encode "mine", PDict [("tenant_id", PStr "t2")]).
Proof.
  split; [reflexivity|]. split; [reflexivity|].
  apply (upload_replaces_by_name "docs/notes.txt" "yours" "t1" "mine" "t2"
           (demo_upload (demo_vstore pinecone_env true true false)));
    reflexivity.
Defined.

(** X18. Without the primary index, [upload_and_index] saves the file and
    then fails: the upsert raises, the error is not caught, the store is
    left as it was and the file stays on disk. *)
Theorem upload_and_index_without_primary
    (file_filename content tenant_id : string) (s : upload_state) :
  let path := path_join (UPLOAD_DIR s) (py_basename file_filename) in
  _use_pinecone (globals (up_store s)) = false ->
  write_error s path = None ->
  let r := upload_and_index file_filename content tenant_id s in
  r.1 = Raise (UnboundLocalError "idx")
  /\ files r.2 !! path = Some content
  /\ up_store r.2 = up_store s.
Proof.
  intros path Hoff Hwrite r. subst r.
  rewrite upload_and_index_run. fold path. rewrite Hwrite.
  rewrite upsert_without_primary by exact Hoff. simpl.
  split; [reflexivity|]. split; [apply lookup_insert_eq | reflexivity].
Qed.

Lemma upload_and_index_without_primary_witness :
  _use_pinecone
    (globals (up_store (demo_upload (demo_vstore ∅ false true false))))
    = false
  /\ write_error (demo_upload (demo_vstore ∅ false true false))
       "./uploads/a.txt" = None
  /\ (upload_and_index "a.txt" "hello" "t1"
        (demo_upload (demo_vstore ∅ false true false))).1
     = Raise (UnboundLocalError "idx")
  /\ files (upload_and_index "a.txt" "hello" "t1"
              (demo_upload (demo_vstore ∅ false true false))).2
       !! "./uploads/a.txt" = Some "hello".
Proof.
  assert (Hoff : _use_pinecone
            (globals (up_store (demo_upload (demo_vstore ∅ false true false))))
            = false) by reflexivity.
  assert (Hwrite : write_error (demo_upload (demo_vstore ∅ false true false))
                     "./uploads/a.txt" = None) by reflexivity.
  split; [exact Hoff|]. split; [exact Hwrite|].
  destruct (upload_and_index_without_primary "a.txt" "hello" "t1"
              (demo_upload (demo_vstore ∅ false true false))
              Hoff Hwrite) as (Hres & Hfile & _).
  split; [exact Hres | exact Hfile].
Defined.

(** X19. Rate limiting is off unless the startup hook built a client: if
    REDIS_URL is unset or empty, or the client could not be built, every
    quota check passes and changes nothing, however many requests a
    tenant sends. *)
Theorem no_client_never_limits (tenant_id : string) (from_url_ok : bool)
    (times : list Z) (w : world) :
  app_redis w = startup_event (environ (proc w)) from_url_ok ->
  opt_truthy (environ (proc w) !! "REDIS_URL") = false
  \/ from_url_ok = false ->
  Forall (fun r => r = Ok tt) (quota_checks tenant_id times w)
  /\ (forall t, quota_check tenant_id (set_now t w) = (Ok tt, set_now t w)).
Proof.
  intros Hstart Hoff.
  assert (Hno : app_redis w <> RedisClient).
  { rewrite Hstart. unfold startup_event.
    destruct Hoff as [-> | ->]; [discriminate|].
    destruct (opt_truthy _); discriminate. }
  clear Hstart Hoff. split.
  - revert w Hno; induction times as [|t times IH]; intros w Hno.
    + constructor.
    + simpl. rewrite quota_check_no_client by exact Hno. simpl.
      constructor; [reflexivity|]. now apply IH.
  - intros t. now apply quota_check_no_client.
Qed.

Lemma no_client_never_limits_witness :
  app_redis (demo_world None RedisUnset false ∅ 0)
    = startup_event
        (environ (proc (demo_world None RedisUnset false ∅ 0))) true
  /\ opt_truthy
       (environ (proc (demo_world None RedisUnset false ∅ 0)) !! "REDIS_URL")
     = false
  /\ quota_check "t1" (set_now 5 (demo_world None RedisUnset false ∅ 0))
     = (Ok tt, set_now 5 (demo_world None RedisUnset false ∅ 0)).
Proof.
  split; [reflexivity|]. split; [reflexivity|].
  apply (no_client_never_limits "t1" true [] 
           (demo_world None RedisUnset false ∅ 0));
    [reflexivity | left; reflexivity].
Defined.

(* ===================================================================== *)
(** * Further properties of the orchestrator *)
(* ===================================================================== *)

Section QuotaWorld.

Variable tenant_id : string.

(** The world the quota check leaves, whatever its outcome. *)
Lemma quota_check_world (w : world) :
  (quota_check tenant_id w).2
    = set_redis_db (fun _ => quota_db tenant_id w)
        (logged (quota_calls tenant_id w) w).
Proof.
  unfold quota_check, redis_incr, redis_expire, read_max_per_min,
    quota_calls, quota_db, logged.
  run_M.
  destruct (app_redis w) eqn:Hh; simpl.
  - destruct w; simpl. unfold set_redis_db, set_trace. simpl.
    now rewrite app_nil_r.
  - destruct w; simpl. unfold set_redis_db, set_trace. simpl.
    now rewrite app_nil_r.
  - destruct (redis_reachable w) eqn:Hup; simpl.
    2:{ destruct w; reflexivity. }
    destruct (incr_value (now w) (quota_key tenant_id (now w)) (redis_db w)
              =? 1) eqn:Hone; simpl; rewrite ?Hup; simpl;
      (match goal with
       | |- context [py_int w ?x] => destruct (py_int w x)
       end); simpl;
      try (match goal with
           | |- context [?a >? ?b] => destruct (a >? b)
           end); simpl;
      unfold set_redis_db, set_trace; simpl;
      rewrite <- ?app_assoc; reflexivity.
Qed.

(** The exceptions of the quota check. *)
Lemma quota_check_raises (w : world) (e : exc) :
  (quota_check tenant_id w).1 = Raise e ->
  e = HTTPException 429 "Rate limit exceeded"
  \/ e = ConnectionError \/ e = ValueError.
Proof.
  unfold quota_check, redis_incr, redis_expire, read_max_per_min. run_M.
  destruct (app_redis w); simpl; try discriminate.
  destruct (redis_reachable w) eqn:Hup; simpl; [|intros [= <-]; auto].
  destruct (incr_value (now w) (quota_key tenant_id (now w)) (redis_db w)
            =? 1); simpl; rewrite ?Hup; simpl;
    (match goal with
     | |- context [py_int w ?x] => destruct (py_int w x)
     end); simpl;
    try (match goal with
         | |- context [?a >? ?b] => destruct (a >? b)
         end); simpl;
    try discriminate; intros [= <-]; auto.
Qed.

(** The check writes one key only. *)
Lemma quota_db_other_keys (w : world) (k : string) :
  k <> quota_key tenant_id (now w) ->
  quota_db tenant_id w !! k = redis_db w !! k.
Proof.
  intros Hk. unfold quota_db.
  destruct (app_redis w); try reflexivity.
  destruct (redis_reachable w); [|reflexivity].
  assert (Hincr : incr_db (now w) (quota_key tenant_id (now w)) (redis_db w)
                    !! k = redis_db w !! k).
  { unfold incr_db.
    destruct (redis_live _ _ _) as [[v d]|];
      now rewrite lookup_insert_ne by congruence. }
  destruct (_ =? 1); [|exact Hincr].
  unfold expire_db.
  destruct (redis_live _ (incr_db _ _ _) _) as [[v d]|]; [|exact Hincr].
  now rewrite lookup_insert_ne by congruence.
Qed.

End QuotaWorld.

(** [chat] once the provider is resolved, result and world. *)
Lemma chat_run (req : ChatRequest) (tenant_id : string) (w : world)
    (p : Provider) :
  get_provider (proc w) (provider req) = Some p ->
  let msgs := build (rag req) (messages req)
                (retrieved_docs w (messages req)) in
  let checked :=
    quota_check tenant_id
      (logged (retrieval_events req)
         (logged [EvGetProvider (provider req)] w)) in
  chat req tenant_id w
    = match checked.1 with
      | Ok _ => (reply_of (proc w) p msgs, logged [EvSend p msgs] checked.2)
      | Raise e => (Raise e, checked.2)
      end.
Proof.
  intros Hp msgs checked. subst msgs checked. unfold chat, reply_of.
  unfold mbind at 1. unfold M_bind at 1. unfold gets at 1.
  unfold mbind at 1. unfold M_bind at 1. unfold log at 1.
  unfold modify at 1. rewrite Hp.
  fold (logged [EvGetProvider (provider req)] w).
  set (w0 := logged _ w).
  unfold mbind at 1. unfold M_bind at 1.
  pose proof (augment_world req w0) as Hw.
  pose proof (augment_result req w0) as Hr.
  destruct (augment req w0) as [r w1]; simpl in Hw, Hr; subst r w1.
  fold (logged (retrieval_events req) w0).
  unfold mbind at 1. unfold M_bind at 1.
  assert (Hdocs : retrieved_docs w0 (messages req)
                  = retrieved_docs w (messages req))
    by (apply retrieved_docs_ignores_trace).
  rewrite Hdocs.
  destruct (quota_check tenant_id (logged (retrieval_events req) w0))
    as [[[]|e] w2]; simpl; [|reflexivity].
  unfold logged. run_M.
  destruct (send_messages (proc w) p _); reflexivity.
Qed.

(** X20. A quota counter belongs to one tenant and one minute: the keys of
    two checks coincide only for the same tenant in the same minute, and a
    check leaves the counter of every other tenant, and of every other
    minute of the same tenant, as it was. *)
Theorem quota_counters_are_separate (tenant_id other : string) (t : Z)
    (w : world) :
  (quota_key tenant_id (now w) = quota_key other t <->
   tenant_id = other /\ now w / 60 = t / 60)
  /\ (tenant_id <> other \/ now w / 60 <> t / 60 ->
      redis_db (quota_check tenant_id w).2 !! quota_key other t
        = redis_db w !! quota_key other t).
Proof.
  split.
  - split; [apply quota_key_inj|].
    intros [-> Hb]. unfold quota_key. now rewrite Hb.
  - intros Hdiff. rewrite quota_check_world. simpl.
    apply quota_db_other_keys. intros Heq. symmetry in Heq.
    apply quota_key_inj in Heq. tauto.
Qed.

Lemma quota_counters_are_separate_witness :
  ("t1" <> "t2" \/ now (demo_world None RedisClient true ∅ 120) / 60
                     <> 120 / 60)
  /\ redis_db (quota_check "t1" (demo_world None RedisClient true ∅ 120)).2
       !! quota_key "t2" 120 = None.
Proof.
  split; [left; discriminate|].
  rewrite (proj2 (quota_counters_are_separate "t1" "t2" 120
                    (demo_world None RedisClient true ∅ 120)));
    [reflexivity | left; discriminate].
Defined.

Section NextBucket.

Variables (tenant_id : string) (ceiling : Z).

Lemma quota_check_frame (w : world) :
  app_redis (quota_check tenant_id w).2 = app_redis w
  /\ redis_reachable (quota_check tenant_id w).2 = redis_reachable w
  /\ read_max_per_min (quota_check tenant_id w).2 = read_max_per_min w.
Proof. rewrite quota_check_world. auto. Qed.

(** Checks in other minutes leave a minute without a counter as it is. *)
Lemma after_checks_other_bucket (b : Z) (times : list Z) :
  Forall (fun t => t / 60 <> b) times ->
  forall w,
    redis_db w !! quota_key tenant_id (60 * b) = None ->
    redis_db (after_checks tenant_id times w) !! quota_key tenant_id (60 * b)
      = None
    /\ app_redis (after_checks tenant_id times w) = app_redis w
    /\ redis_reachable (after_checks tenant_id times w) = redis_reachable w
    /\ read_max_per_min (after_checks tenant_id times w)
       = read_max_per_min w.
Proof.
  induction 1 as [|t times Ht _ IH]; intros w Hk; [simpl; auto|].
  simpl.
  destruct (quota_check_frame (set_now t w)) as (Hh & Hup & Hmax).
  destruct (IH (quota_check tenant_id (set_now t w)).2)
    as (Hk' & Hh' & Hup' & Hmax').
  - rewrite quota_check_world. simpl.
    rewrite quota_db_other_keys; [exact Hk|]. simpl.
    intros Heq. apply quota_key_inj in Heq as [_ Heq].
    rewrite (Z.mul_comm 60), Z.div_mul in Heq by lia. congruence.
  - rewrite Hh', Hup', Hmax', Hh, Hup, Hmax. auto.
Qed.

End NextBucket.

(** X21. The quota starts afresh each minute: with a reachable counter
    store and a ceiling of at least one, a request in a minute that has no
    counter yet is admitted, whatever number of requests the tenant sent
    in other minutes, rejected ones included. *)
Theorem next_bucket_admitted (tenant_id : string) (ceiling b : Z)
    (times : list Z) (t : Z) (w : world) :
  app_redis w = RedisClient ->
  redis_reachable w = true ->
  read_max_per_min w = Ok ceiling ->
  1 <= ceiling ->
  Forall (fun t' => t' / 60 <> b) times ->
  redis_db w !! quota_key tenant_id (60 * b) = None ->
  t / 60 = b ->
  (quota_check tenant_id (set_now t (after_checks tenant_id times w))).1
    = Ok tt.
Proof.
  intros Hh Hup Hmax Hc Htimes Hk Ht.
  destruct (after_checks_other_bucket tenant_id b times Htimes w Hk)
    as (Hk' & Hh' & Hup' & Hmax').
  set (w' := after_checks tenant_id times w) in *.
  destruct (quota_check_client tenant_id (set_now t w') ceiling)
    as (Hres & _).
  - simpl. congruence.
  - simpl. congruence.
  - unfold read_max_per_min in *. simpl. congruence.
  - rewrite Hres. simpl.
    rewrite (quota_key_bucket tenant_id t b Ht).
    unfold incr_value, redis_live. rewrite Hk'.
    unfold verdict. now rewrite (proj2 (Z.leb_le 1 ceiling) Hc).
Qed.

Lemma next_bucket_admitted_witness :
  app_redis (demo_world None RedisClient true ∅ 120) = RedisClient
  /\ (1 <= 600)
  /\ Forall (fun t' => t' / 60 <> 3) [120; 121]
  /\ 185 / 60 = 3
  /\ (quota_check "t1"
        (set_now 185
           (after_checks "t1" [120; 121]
              (demo_world None RedisClient true ∅ 120)))).1 = Ok tt.
Proof.
  assert (Htimes : Forall (fun t' => t' / 60 <> 3) [120; 121])
    by (repeat constructor; discriminate).
  split; [reflexivity|]. split; [lia|]. split; [exact Htimes|].
  split; [reflexivity|].
  apply (next_bucket_admitted "t1" 600 3 [120; 121] 185
           (demo_world None RedisClient true ∅ 120));
    try reflexivity; [lia | exact Htimes].
Defined.

Section Rejections.

Lemma auth_cases (authorization : option string) (w : world) :
  (exists d,
     get_tenant_from_header authorization w
       = (Raise (HTTPException 401 d), w))
  \/ (exists key d,
        get_tenant_from_header authorization w
          = (Raise (HTTPException 403 d), logged [EvVerifyKey key] w))
  \/ (exists key t,
        get_tenant_from_header authorization w
          = (Ok t, logged [EvVerifyKey key] w)).
Proof.
  unfold get_tenant_from_header.
  destruct (negb (opt_truthy authorization)); [left; eexists; reflexivity|].
  destruct (py_split (default "" authorization))
    as [|scheme [|key [|? ?]]]; try (left; eexists; reflexivity).
  destruct (negb (String.eqb (str_lower scheme) "bearer"));
    [left; eexists; reflexivity|].
  right. unfold mbind, M_bind. rewrite verify_api_key_run.
  destruct (find_tenant (sha256_hex w key) (tenants w)) as [t|];
    [|left; do 2 eexists; reflexivity].
  destruct (str_truthy t); [right | left]; do 2 eexists; reflexivity.
Qed.

Lemma chat_unknown_provider (req : ChatRequest) (tenant_id : string)
    (w : world) :
  get_provider (proc w) (provider req) = None ->
  chat req tenant_id w
    = (Raise (HTTPException 400 "Unknown provider"),
       logged [EvGetProvider (provider req)] w).
Proof.
  intros Hp. unfold chat. run_M. now rewrite Hp.
Qed.

Lemma reply_of_raises (P : process) (p : Provider) (msgs : list pyval)
    (e : exc) :
  reply_of P p msgs = Raise e -> forall code d, e <> HTTPException code d.
Proof.
  unfold reply_of. intros Hraise code d ->.
  destruct (send_messages P p msgs) as [r|e] eqn:Hsend; [discriminate|].
  simpl in Hraise. injection Hraise as ->.
  apply send_messages_raises in Hsend as [_ [[? _] | [? | ?]]]; discriminate.
Qed.

End Rejections.

(** X22. A request that [POST /chat] rejects with an HTTP error other than
    429 was rejected at authentication (401, 403) or at provider
    resolution (400): it has made no retrieval query, no call to the
    counter store and no call to a provider, and the counters are as they
    were. *)
Theorem rejections_precede_quota (authorization : option string)
    (req : ChatRequest) (w : world) (code : Z) (detail : string) :
  (post_chat authorization req w).1 = Raise (HTTPException code detail) ->
  code <> 429 ->
  (code = 401 \/ code = 403 \/ code = 400)
  /\ redis_db (post_chat authorization req w).2 = redis_db w
  /\ exists evs,
       trace (post_chat authorization req w).2 = trace w ++ evs
       /\ Forall (fun e => is_admission_step e = true) evs.
Proof.
  unfold post_chat, mbind, M_bind. intros Hres Hcode.
  destruct (auth_cases authorization w)
    as [[d Ha] | [(key & d & Ha) | (key & t & Ha)]];
    rewrite Ha in Hres |- *; simpl in Hres |- *.
  - injection Hres as <- _. split; [auto|]. split; [reflexivity|].
    exists []. now rewrite app_nil_r.
  - injection Hres as <- _. split; [auto|]. split; [reflexivity|].
    exists [EvVerifyKey key]. split; [reflexivity | repeat constructor].
  - destruct (get_provider (proc w) (provider req)) as [p|] eqn:Hp.
    + exfalso.
      rewrite (chat_run req t (logged [EvVerifyKey key] w) p Hp)
        in Hres.
      simpl in Hres.
      destruct (quota_check _ _).1 as [[]|e] eqn:Hq; simpl in Hres.
      * now apply (reply_of_raises _ _ _ _ Hres code detail).
      * injection Hres as ->.
        apply quota_check_raises in Hq as [Hq | [Hq | Hq]];
          [injection Hq as -> _; now apply Hcode | discriminate..].
    + rewrite (chat_unknown_provider req t (logged [EvVerifyKey key] w) Hp)
        in Hres |- *.
      simpl in Hres |- *. injection Hres as <- _.
      split; [auto|]. split; [reflexivity|].
      exists [EvVerifyKey key; EvGetProvider (provider req)].
      split; [now rewrite <- app_assoc | repeat constructor].
Qed.

Lemma rejections_precede_quota_witness :
  (post_chat (Some "Bearer abc123")
     {| messages := [user_msg "hi"]; provider := "made-up";
        stream := false; rag := true |}
     (demo_world None RedisClient true ∅ 120)).1
    = Raise (HTTPException 400 "Unknown provider")
  /\ 400 <> 429
  /\ redis_db
       (post_chat (Some "Bearer abc123")
          {| messages := [user_msg "hi"]; provider := "made-up";
             stream := false; rag := true |}
          (demo_world None RedisClient true ∅ 120)).2 = ∅.
Proof.
  assert (Hres : (post_chat (Some "Bearer abc123")
     {| messages := [user_msg "hi"]; provider := "made-up";
        stream := false; rag := true |}
     (demo_world None RedisClient true ∅ 120)).1
    = Raise (HTTPException 400 "Unknown provider"))
    by (vm_compute; reflexivity).
  split; [exact Hres|]. split; [lia|].
  apply (rejections_precede_quota _ _ _ _ _ Hres). lia.
Defined.

(** X23. A request that [chat] rejects with 429 has been counted and has
    made its retrieval query, but is not dispatched: the calls it made are
    the provider resolution, the retrieval query if any, and the calls of
    the quota check, which start with the increment; the counter store
    holds the incremented value. *)
Theorem rate_limited_not_dispatched (req : ChatRequest)
    (tenant_id : string) (w : world) (p : Provider) (detail : string) :
  get_provider (proc w) (provider req) = Some p ->
  (chat req tenant_id w).1 = Raise (HTTPException 429 detail) ->
  trace (chat req tenant_id w).2
    = trace w ++ EvGetProvider (provider req)
              :: retrieval_events req ++ quota_calls tenant_id w
  /\ Forall (fun e => is_dispatch e = false)
       (EvGetProvider (provider req)
        :: retrieval_events req ++ quota_calls tenant_id w)
  /\ (exists rest,
        quota_calls tenant_id w
          = EvRedisIncr (quota_key tenant_id (now w)) :: rest)
  /\ redis_db (chat req tenant_id w).2 = quota_db tenant_id w.
Proof.
  intros Hp Hres. rewrite (chat_run req tenant_id w p Hp) in Hres |- *.
  simpl in Hres |- *.
  destruct (quota_check _ _).1 as [[]|e] eqn:Hq; simpl in Hres |- *.
  { exfalso. now apply (reply_of_raises _ _ _ _ Hres 429 detail). }
  rewrite quota_check_world. simpl.
  assert (Hclient : app_redis w = RedisClient).
  { destruct (app_redis w) eqn:Hh; [| |reflexivity];
      rewrite quota_check_no_client in Hq by (simpl; congruence);
      discriminate. }
  split; [now rewrite <- !app_assoc|].
  split; [|split; [|reflexivity]].
  - constructor; [reflexivity|]. apply Forall_app. split.
    + unfold retrieval_events. destruct (_ && _)%bool; repeat constructor.
    + unfold quota_calls. rewrite Hclient.
      destruct (_ && _)%bool; repeat constructor.
  - unfold quota_calls. rewrite Hclient. eauto.
Qed.

Lemma rate_limited_not_dispatched_witness :
  get_provider
    (proc (demo_world None RedisClient true
             (<["quota:t1:2" := (600, Some 170)]> ∅) 120)) "olama"
    = Some (OlamaProvider (Some "http://localhost:11434"))
  /\ (chat (demo_request [user_msg "hi"] true) "t1"
        (demo_world None RedisClient true
           (<["quota:t1:2" := (600, Some 170)]> ∅) 120)).1
     = Raise (HTTPException 429 "Rate limit exceeded")
  /\ redis_db
       (chat (demo_request [user_msg "hi"] true) "t1"
          (demo_world None RedisClient true
             (<["quota:t1:2" := (600, Some 170)]> ∅) 120)).2
       !! "quota:t1:2" = Some (601, Some 170).
Proof.
  assert (Hres : (chat (demo_request [user_msg "hi"] true) "t1"
        (demo_world None RedisClient true
           (<["quota:t1:2" := (600, Some 170)]> ∅) 120)).1
     = Raise (HTTPException 429 "Rate limit exceeded"))
    by (vm_compute; reflexivity).
  assert (Hp : get_provider
    (proc (demo_world None RedisClient true
             (<["quota:t1:2" := (600, Some 170)]> ∅) 120)) "olama"
    = Some (OlamaProvider (Some "http://localhost:11434")))
    by reflexivity.
  split; [exact Hp|]. split; [exact Hres|].
  destruct (rate_limited_not_dispatched
              (demo_request [user_msg "hi"] true) "t1" _ _ _ Hp Hres)
    as (_ & _ & _ & Hdb).
  rewrite Hdb. vm_compute. reflexivity.
Defined.

(** X24. For a provider without a streaming method of its own the two
    endpoints answer alike up to the framing.  When the quota check
    passes and [send_messages] returns a reply, [chat] returns it and
    [chat_stream] streams its 64-character chunks; when [send_messages]
    raises, [chat] fails with that exception while [chat_stream] succeeds
    with a body of one diagnostic chunk; when the quota check raises,
    both fail with its exception. *)
Theorem chat_and_chat_stream (req : ChatRequest) (tenant_id : string)
    (w : world) (p : Provider) :
  get_provider (proc w) (provider req) = Some p ->
  native_streaming p = false ->
  let msgs := build (rag req) (messages req)
                (retrieved_docs w (messages req)) in
  match (quota_check tenant_id w).1 with
  | Ok _ =>
      match send_messages (proc w) p msgs with
      | Ok reply =>
          exists text : string,
            reply = PStr text
            /\ (chat req tenant_id w).1 = Ok (PDict [("reply", PStr text)])
            /\ (chat_stream req tenant_id w).1
               = Ok (map Chunk (chunks_of chunk_size text))
      | Raise e =>
          (chat req tenant_id w).1 = Raise e
          /\ (chat_stream req tenant_id w).1 = Ok [StreamError e]
      end
  | Raise e =>
      (chat req tenant_id w).1 = Raise e
      /\ (chat_stream req tenant_id w).1 = Raise e
  end.
Proof.
  intros Hp Hnative msgs.
  rewrite (chat_result tenant_id req w p Hp),
          (chat_stream_result tenant_id req w p Hp).
  fold msgs.
  destruct (quota_check tenant_id w).1 as [[]|e]; [|auto].
  unfold reply_of, event_stream.
  destruct (send_messages (proc w) p msgs) as [reply|e] eqn:Hsend.
  - destruct (send_messages_text (proc w) p msgs reply Hnative Hsend)
      as [text ->].
    exists text. split; [reflexivity|]. split; [reflexivity|].
    destruct p as [k e | u | k]; [discriminate Hnative | |];
      unfold send_messages_stream, BaseProvider_send_messages_stream;
      rewrite Hsend; cbn [py_chunks];
      now rewrite app_nil_r, map_map.
  - destruct p as [k e' | u | k]; [discriminate Hnative | |];
      unfold send_messages_stream, BaseProvider_send_messages_stream;
      now rewrite Hsend.
Qed.

Lemma chat_and_chat_stream_witness :
  get_provider (proc (demo_world None RedisUnset false ∅ 0)) "olama"
    = Some (OlamaProvider (Some "http://localhost:11434"))
  /\ native_streaming (OlamaProvider (Some "http://localhost:11434")) = false
  /\ (chat (demo_request [] false) "t1"
        (demo_world None RedisUnset false ∅ 0)).1 = Raise IndexError
  /\ (chat_stream (demo_request [] false) "t1"
        (demo_world None RedisUnset false ∅ 0)).1
     = Ok [StreamError IndexError].
Proof.
  split; [reflexivity|]. split; [reflexivity|].
  apply (chat_and_chat_stream (demo_request [] false) "t1"
           (demo_world None RedisUnset false ∅ 0)
           (OlamaProvider (Some "http://localhost:11434")));
    reflexivity.
Defined.

(** X25. Retrieval is best effort: the assembly never raises and never
    touches the counters, and when the retrieval packages are missing,
    the collection does not exist, or the index raises on the query, the
    conversation is handed on unchanged. *)
Theorem augment_swallows_failures (req : ChatRequest) (w : world) :
  (exists msgs, (augment req w).1 = Ok msgs)
  /\ (augment req w).2 = logged (retrieval_events req) w
  /\ (chromadb_imported w = false
      \/ rag_collection w = None
      \/ (exists coll e,
            rag_collection w = Some coll
            /\ chroma_query w coll (last_user (messages req)) 3 = Raise e)
      -> (augment req w).1 = Ok (messages req)).
Proof.
  split; [rewrite augment_result; eauto|].
  split; [apply augment_world|].
  intros Hfail. rewrite augment_result.
  assert (Hnone : retrieved_docs w (messages req) = []).
  { unfold retrieved_docs, rag_query.
    unfold mbind, M_bind, mret, M_ret, gets, raise, lift, log. simpl.
    destruct (chromadb_imported w); simpl; [|reflexivity].
    destruct Hfail as [Himp | [Hcoll | (coll & e & Hcoll & Hq)]].
    - discriminate Himp.
    - now rewrite Hcoll.
    - rewrite Hcoll. simpl. now rewrite Hq. }
  rewrite Hnone. unfold build.
  now rewrite andb_false_r.
Qed.

Section LastUser.

Lemma scan_user_skip (l rest : list pyval) :
  Forall (fun m => is_user_message m = false) l ->
  scan_user (l ++ rest) = scan_user rest.
Proof.
  induction 1 as [|m l Hm _ IH]; [reflexivity|].
  simpl. destruct m as [| | | |?|d]; auto.
  simpl in Hm. now rewrite Hm.
Qed.

End LastUser.

(** X26. The retrieval query is the content of the last user-role
    message: messages after it that are not user-role messages
    (assistant or system turns, or values that are no dict) do not
    matter, nor do earlier messages; without any user-role message the
    query text is [None], and nothing is retrieved. *)
Theorem last_user_is_last (before after : list pyval)
    (d : list (string * pyval)) :
  eq_str (py_get d "role") "user" = true ->
  Forall (fun m => is_user_message m = false) after ->
  last_user (before ++ PDict d :: after) = py_get d "content"
  /\ (forall msgs, has_user_message msgs = false ->
        last_user msgs = PNone).
Proof.
  intros Hrole Hafter. split.
  - unfold last_user. rewrite rev_app_distr. simpl.
    rewrite <- app_assoc. rewrite scan_user_skip.
    + simpl. now rewrite Hrole.
    + apply Forall_forall. intros m Hm.
      rewrite Forall_forall in Hafter. apply Hafter.
      apply list_elem_of_In. apply list_elem_of_In in Hm.
      now apply in_rev.
  - intros msgs Hnone. unfold last_user, has_user_message in *.
    rewrite <- (app_nil_r (rev msgs)). rewrite scan_user_skip; [reflexivity|].
    apply Forall_forall. intros m Hm.
    apply list_elem_of_In, in_rev in Hm.
    destruct (is_user_message m) eqn:Hu; [|reflexivity].
    assert (existsb is_user_message msgs = true)
      by (apply existsb_exists; eauto).
    congruence.
Qed.

Lemma last_user_is_last_witness :
  eq_str (py_get [("role", PStr "user"); ("content", PStr "second")] "role")
    "user" = true
  /\ last_user
       ([user_msg "first"]
        ++ PDict [("role", PStr "user"); ("content", PStr "second")]
        :: [PDict [("role", PStr "assistant"); ("content", PStr "reply")]])
     = PStr "second".
Proof.
  split; [reflexivity|].
  apply (last_user_is_last [user_msg "first"]
           [PDict [("role", PStr "assistant"); ("content", PStr "reply")]]
           [("role", PStr "user"); ("content", PStr "second")]);
    [reflexivity | repeat constructor].
Defined.
